(** * calcnote: the line calculator of [src/calculator.ts]

    A shallow embedding of the evaluator module: the per-line driver
    [calculate], its preprocessing steps ([preprocessPercent],
    [replaceChineseVars], [getAlias]) and the presentation formatter
    [formatDisplay] / [formatNumber].

    Strings.  A JavaScript string is a sequence of UTF-16 code units.  The
    module reads its strings only through operations that agree on code
    units and on code points (tests against BMP characters, emptiness,
    concatenation) and through one Unicode-aware regular expression, so a
    string is modelled as the list of its code points, a character being
    its scalar value in [N].

    Regular expressions.  Each regular expression of the module is
    rendered by a function that decides its match at a position, and each
    [replace] by the left-to-right scan that uses it; the comment of the
    function quotes the expression.

    The arithmetic engine (mathjs) and the Unicode category tables of the
    regular-expression engine are not part of the repository: they are
    parameters of the development (Section [Driver]).  Of the engine,
    [math.evaluate] and [math.number] are called inside a [try] and may
    throw; [math.typeOf] and [math.format] return for every value.

    Numbers.  The alias counter is incremented at most once per character
    of the document, which keeps it in the range where a host number is
    an exact integer: it is a natural number here. *)

From Stdlib Require Import NArith ZArith List Ascii String Bool Lia DecimalN DecimalFacts.
From stdpp Require Import gmap list.
From Equations.Prop Require Import Equations Logic.
Import ListNotations.

#[local] Open Scope list_scope.

(** ** Characters and strings *)

Definition char := N.
Definition jstring := list char.

Definition chr (a : ascii) : char := N_of_ascii a.
Arguments chr a%_char : simpl never.

(** [str "abc"] is the string with the code points of an ASCII literal. *)
Definition str (s : string) : jstring := map N_of_ascii (list_ascii_of_string s).
Arguments str s%_string.

Definition newline : char := 10%N.

(** [\d] *)
Definition is_digit (c : char) : bool := (48 <=? c)%N && (c <=? 57)%N.

(** [\w], the word characters that [\b] and [\B] look at (no [u] flag). *)
Definition is_word (c : char) : bool :=
  is_digit c || ((65 <=? c)%N && (c <=? 90)%N) || ((97 <=? c)%N && (c <=? 122)%N) || (c =? chr "_")%N.

(** [[^\x00-\x7F]] *)
Definition is_non_ascii (c : char) : bool := (127 <? c)%N.

(** ** The string primitives of the host language used by the module *)

Module JS.

(** [s.includes(c)] for a one-character needle. *)
Definition includes (c : char) (s : jstring) : bool := existsb (N.eqb c) s.

(** [s.startsWith(c)] for a one-character prefix. *)
Definition startsWith (c : char) (s : jstring) : bool :=
  match s with
  | c0 :: _ => (c0 =? c)%N
  | [] => false
  end.

(** [s.indexOf(c)]: the first index of [c], or [-1]. *)
Fixpoint indexOf (c : char) (s : jstring) : Z :=
  match s with
  | [] => (-1)%Z
  | c0 :: s' => if (c0 =? c)%N then 0%Z
                else let i := indexOf c s' in
                     if (0 <=? i)%Z then (i + 1)%Z else (-1)%Z
  end.

(** [s.slice(0, i)] and [s.slice(i)] for [0 <= i]. *)
Definition slice_to (i : Z) (s : jstring) : jstring := take (Z.to_nat i) s.
Definition slice_from (i : Z) (s : jstring) : jstring := drop (Z.to_nat i) s.

(** [s.split(c)] for a one-character separator: never the empty array. *)
Fixpoint split (sep : char) (s : jstring) : list jstring :=
  match s with
  | [] => [[]]
  | c :: s' =>
      if (c =? sep)%N then [] :: split sep s'
      else match split sep s' with
           | cur :: rest => (c :: cur) :: rest
           | [] => [[c]]
           end
  end.

(** [parts.join(c)] *)
Fixpoint join (sep : char) (parts : list jstring) : jstring :=
  match parts with
  | [] => []
  | [p] => p
  | p :: ps => p ++ sep :: join sep ps
  end.

(** White space and line terminators, the characters [trim] removes. *)
Definition is_white_space (c : char) : bool :=
  existsb (N.eqb c)
    [9; 10; 11; 12; 13; 32; 160; 5760; 8192; 8193; 8194; 8195; 8196; 8197;
     8198; 8199; 8200; 8201; 8202; 8232; 8233; 8239; 8287; 12288; 65279]%N.

Fixpoint trimStart (s : jstring) : jstring :=
  match s with
  | c :: s' => if is_white_space c then trimStart s' else s
  | [] => []
  end.

Definition trimEnd (s : jstring) : jstring := rev (trimStart (rev s)).

Definition trim (s : jstring) : jstring := trimEnd (trimStart s).

End JS.

(** ** The presentation formatter (calculator.ts, formatDisplay) *)

(** [0+$]: one or more zeros up to the end of the string. *)
Definition all_zeros (s : jstring) : bool :=
  match s with
  | [] => false
  | _ => forallb (N.eqb (chr "0")) s
  end.

(** [\.?0+$] matched at the start of [s]. *)
Definition match_dot_zeros (s : jstring) : bool :=
  match s with
  | c :: s' => ((c =? chr ".")%N && all_zeros s') || all_zeros s
  | [] => false
  end.

(** [s.replace(/\.?0+$/, '')]: the leftmost match runs to the end of the
    string and is deleted; without a match the string is unchanged. *)
Fixpoint replace_dot_zeros (s : jstring) : jstring :=
  match s with
  | [] => []
  | c :: s' => if match_dot_zeros s then [] else c :: replace_dot_zeros s'
  end.

Definition next_is_digit (s : jstring) : bool :=
  match s with
  | c :: _ => is_digit c
  | [] => false
  end.

(** [(\d{3})+(?!\d)] matched at the start of [s]: a group of three digits,
    then either no digit follows or the pattern repeats. *)
Fixpoint look_triples (s : jstring) : bool :=
  match s with
  | a :: b :: c :: rest =>
      is_digit a && is_digit b && is_digit c
      && (look_triples rest || negb (next_is_digit rest))
  | _ => false
  end.

Definition word_opt (o : option char) : bool :=
  match o with
  | Some c => is_word c
  | None => false
  end.

(** [\b] between the character before and the character after a position;
    [\B] is its negation. *)
Definition word_boundary (prev next : option char) : bool :=
  xorb (word_opt prev) (word_opt next).

(** [s.replace(/\B(?=(\d{3})+(?!\d))/g, ',')], [prev] being the character
    before [s]: every position is tried once, a comma goes in where the
    empty match succeeds. *)
Fixpoint group_from (prev : option char) (s : jstring) : jstring :=
  let here := if negb (word_boundary prev (head s)) && look_triples s
              then [chr ","] else [] in
  match s with
  | [] => here
  | c :: s' => here ++ c :: group_from (Some c) s'
  end.

Definition group_thousands (s : jstring) : jstring := group_from None s.

Definition formatDisplay (str : jstring) : jstring :=
  let eIdx := JS.indexOf (chr "e") str in
  let mantissa := if (0 <=? eIdx)%Z then JS.slice_to eIdx str else str in
  let exponent := if (0 <=? eIdx)%Z then JS.slice_from eIdx str else [] in
  let mantissa :=
    if JS.includes (chr ".") mantissa then replace_dot_zeros mantissa else mantissa in
  let mantissa :=
    match exponent with
    | [] =>
        match JS.split (chr ".") mantissa with
        | part0 :: parts => JS.join (chr ".") (group_thousands part0 :: parts)
        | [] => group_thousands []
        end
    | _ :: _ => mantissa
    end in
  mantissa ++ exponent.

Definition formatNumber (str : jstring) : jstring := formatDisplay str.

(** ** Percent literals (calculator.ts, preprocessPercent) *)

(** The longest prefix of characters satisfying [p], and what follows it:
    a greedy [p*]. *)
Fixpoint span (p : char -> bool) (s : jstring) : jstring * jstring :=
  match s with
  | c :: s' => if p c then let '(run, rest) := span p s' in (c :: run, rest)
               else ([], s)
  | [] => ([], [])
  end.

(** [(\d+(?:\.\d+)?)%] matched at the start of [s]: the text of group 1 and
    the input after the match.  Both digit runs are taken greedily; a
    shorter run would be followed by a digit, where the pattern wants
    [.] or [%], so backtracking into them finds nothing, and when the
    optional group has matched, dropping it leaves [.] where [%] is
    wanted. *)
Definition match_percent (s : jstring) : option (jstring * jstring) :=
  match span is_digit s with
  | ([], _) => None
  | (int, rest) =>
      match rest with
      | c :: rest1 =>
          if (c =? chr "%")%N then Some (int, rest1)
          else if (c =? chr ".")%N then
            match span is_digit rest1 with
            | ([], _) => None
            | (frac, c2 :: rest2) =>
                if (c2 =? chr "%")%N then Some (int ++ chr "." :: frac, rest2) else None
            | (_, []) => None
            end
          else None
      | [] => None
      end
  end.

Lemma span_length p s : length (span p s).2 <= length s.
Proof.
  induction s as [|c s IH]; simpl; [lia|].
  destruct (p c); simpl; [|lia]. destruct (span p s); simpl in *; lia.
Qed.

Lemma match_percent_shorter s lit rest :
  match_percent s = Some (lit, rest) -> length rest < length s.
Proof.
  unfold match_percent. pose proof (span_length is_digit s) as Hs.
  destruct (span is_digit s) as [[|d int] r]; [discriminate|]. simpl in Hs.
  destruct r as [|c r1]; [discriminate|]. simpl in Hs.
  destruct (c =? chr "%")%N; [intros [= _ <-]; lia|].
  destruct (c =? chr ".")%N; [|discriminate].
  pose proof (span_length is_digit r1) as Hr.
  destruct (span is_digit r1) as [[|d2 frac] r2]; [discriminate|]. simpl in Hr.
  destruct r2 as [|c2 r3]; [discriminate|]. simpl in Hr.
  destruct (c2 =? chr "%")%N; [intros [= _ <-]; lia|discriminate].
Qed.

(** [line.replace(/(\d+(?:\.\d+)?)%/g, '($1/100)')]: matches are looked for
    from left to right, each search resuming after the previous match. *)
Equations? preprocessPercent (line : jstring) : jstring by wf (length line) lt :=
  preprocessPercent [] := [];
  preprocessPercent (c :: s) with Logic.inspect (match_percent (c :: s)) := {
    | exist _ (Some (lit, rest)) Hm => chr "(" :: lit ++ str "/100)" ++ preprocessPercent rest;
    | exist _ None _ => c :: preprocessPercent s }.
Proof. all: first [ by apply match_percent_shorter in Hm | simpl; lia ]. Qed.

(** ** Variable aliasing (calculator.ts, VarMapping, getAlias) *)

Record VarMapping := {
  cnToAlias : gmap jstring jstring;
  counter : N
}.

(** The decimal digits of a counter value, as a template literal prints
    an integer. *)
Fixpoint uint_chars (d : Decimal.uint) : jstring :=
  match d with
  | Decimal.Nil => []
  | Decimal.D0 d => chr "0" :: uint_chars d
  | Decimal.D1 d => chr "1" :: uint_chars d
  | Decimal.D2 d => chr "2" :: uint_chars d
  | Decimal.D3 d => chr "3" :: uint_chars d
  | Decimal.D4 d => chr "4" :: uint_chars d
  | Decimal.D5 d => chr "5" :: uint_chars d
  | Decimal.D6 d => chr "6" :: uint_chars d
  | Decimal.D7 d => chr "7" :: uint_chars d
  | Decimal.D8 d => chr "8" :: uint_chars d
  | Decimal.D9 d => chr "9" :: uint_chars d
  end.

Definition number_to_string (n : N) : jstring := uint_chars (N.to_uint n).

(** The template [`_v${n}`]. *)
Definition alias_name (n : N) : jstring := str "_v" ++ number_to_string n.

(** [getAlias(mapping, cnName)]: the alias returned and the mapping after
    the call.  [!alias] holds for a missing entry and for an empty string.
    The counter counts at most one identifier per character of the
    document, far below the range where a number stops being an exact
    integer. *)
Definition getAlias (mapping : VarMapping) (cnName : jstring) : jstring * VarMapping :=
  let allocated :=
    let alias := alias_name (counter mapping) in
    (alias, {| cnToAlias := <[cnName := alias]> (cnToAlias mapping);
               counter := (counter mapping + 1)%N |}) in
  match (cnToAlias mapping !! cnName : option jstring) with
  | None => allocated
  | Some alias =>
      match alias with
      | [] => allocated
      | _ :: _ => (alias, mapping)
      end
  end.

Definition hasUnicodeLetter (s : jstring) : bool := existsb is_non_ascii s.

(** The mapping a call of [calculate] starts from. *)
Definition fresh_mapping : VarMapping := {| cnToAlias := ∅; counter := 0%N |}.

(** A sequence of [getAlias] calls, in order. *)
Fixpoint request_all (names : list jstring) (mapping : VarMapping) : list jstring * VarMapping :=
  match names with
  | [] => ([], mapping)
  | name :: names' =>
      let '(alias, mapping1) := getAlias mapping name in
      let '(aliases, mapping2) := request_all names' mapping1 in
      (alias :: aliases, mapping2)
  end.

(** The distinct names of a request sequence, in the order of their first
    request. *)
Definition distinct_names (names : list jstring) : list jstring :=
  fold_left (fun seen name => if decide (name ∈ seen) then seen else seen ++ [name])
    names [].

(** ** Line classification (calculator.ts, calculate, the four early exits) *)

Definition BINARY_OPERATORS : list char := [chr "+"; chr "-"; chr "*"; chr "/"].

(** [/^[-=_.*·~]+$/.test(line)] *)
Definition is_separator (line : jstring) : bool :=
  match line with
  | [] => false
  | _ => forallb (fun c => existsb (N.eqb c)
                   [chr "-"; chr "="; chr "_"; chr "."; chr "*"; 183%N; chr "~"]) line
  end.

(** [/[0-9=()^]/.test(line)] *)
Definition has_expression_char (line : jstring) : bool :=
  existsb (fun c => is_digit c
                    || existsb (N.eqb c) [chr "="; chr "("; chr ")"; chr "^"]) line.

(** [BINARY_OPERATORS.some(op => line.includes(op))] *)
Definition has_operator (line : jstring) : bool :=
  existsb (fun op => JS.includes op line) BINARY_OPERATORS.

Definition MATH_WORDS : list jstring :=
  [str "pi"; str "e"; str "ans"; str "true"; str "false"; str "Infinity"].

(** Case folding of the [i] flag without the [u] flag: a character is
    compared through its upper case, and a character outside ASCII is
    never folded onto an ASCII one, so against the ASCII letters of
    [MATH_WORDS] only the ASCII letters fold. *)
Definition canonicalize (c : char) : char :=
  if (97 <=? c)%N && (c <=? 122)%N then (c - 32)%N else c.

(** A literal word matched at the start of [s] under the [i] flag: the
    last character matched and the input after it. *)
Fixpoint match_word (word s : jstring) (last : option char) : option (option char * jstring) :=
  match word with
  | [] => Some (last, s)
  | w :: word' =>
      match s with
      | c :: s' => if (canonicalize c =? canonicalize w)%N
                   then match_word word' s' (Some c) else None
      | [] => None
      end
  end.

(** [\b(pi|e|ans|true|false|Infinity)\b] matched at the start of [s],
    [prev] being the character before. *)
Definition match_math_word (prev : option char) (s : jstring) : bool :=
  word_boundary prev (head s)
  && existsb (fun word =>
                match match_word word s prev with
                | Some (last, rest) => word_boundary last (head rest)
                | None => false
                end) MATH_WORDS.

(** [/\b(pi|e|ans|true|false|Infinity)\b/i.test(line)]: some position of
    the line matches. *)
Fixpoint test_math_word (prev : option char) (s : jstring) : bool :=
  match_math_word prev s
  || match s with
     | c :: s' => test_math_word (Some c) s'
     | [] => false
     end.

Definition has_math_word (line : jstring) : bool := test_math_word None line.

(** ** Values, completions and results *)

(** A value of type [unknown]: [null], [undefined], or a value of the
    arithmetic engine. *)
Inductive unknown (Value : Type) : Type :=
  | js_null
  | js_undefined
  | js_value (v : Value).
Arguments js_null {Value}.
Arguments js_undefined {Value}.
Arguments js_value {Value} v.

(** The outcome of a call that may throw. *)
Inductive completion (A : Type) : Type :=
  | Normal (a : A)
  | Throw.
Arguments Normal {A} a.
Arguments Throw {A}.

Record LineResult (Num : Type) := {
  display : option jstring;
  numeric : Num;
  error : bool
}.
Arguments display {Num} _.
Arguments numeric {Num} _.
Arguments error {Num} _.

Record CalcResult (Num : Type) := { lines : list (LineResult Num) }.
Arguments lines {Num} _.

(** A piece of a line as a global [replace] sees it: a character it
    copies, or a match it hands to the replacement callback. *)
Inductive piece : Type :=
  | Plain (c : char)
  | Matched (text : jstring).

(** The matches the callback of [replaceChineseVars] passes on to
    [getAlias], in order. *)
Definition requested (pieces : list piece) : list jstring :=
  flat_map (fun p => match p with
                     | Matched text => if hasUnicodeLetter text then [text] else []
                     | Plain _ => []
                     end) pieces.

Section Driver.

(** The engine's values and the host's numbers, with the number [0]. *)
Variable Value : Type.
Variable Num : Type.
Variable num_zero : Num.

(** The Unicode general categories [\p{L}] and [\p{N}]. *)
Variable unicode_L : char -> bool.
Variable unicode_N : char -> bool.

(** The arithmetic engine: [math.evaluate(line, scope)], which may
    write to the scope and may throw, [math.typeOf(val)],
    [math.format(val, AUTO_FMT)] and [math.number(val)]. *)
Variable math_evaluate :
  jstring -> gmap jstring (unknown Value) ->
  gmap jstring (unknown Value) * completion (unknown Value).
Variable math_typeOf : unknown Value -> jstring.
Variable math_format : unknown Value -> jstring.
Variable math_number : unknown Value -> completion Num.

(** *** replaceChineseVars *)

Definition ident_start (c : char) : bool := unicode_L c || (c =? chr "_")%N.
Definition ident_part (c : char) : bool :=
  unicode_L c || unicode_N c || (c =? chr "_")%N.

(** [[\p{L}_][\p{L}\p{N}_]*] matched at the start of [s]: the match and
    the input after it. *)
Definition match_identifier (s : jstring) : option (jstring * jstring) :=
  match s with
  | c :: s' =>
      if ident_start c
      then let '(more, rest) := span ident_part s' in Some (c :: more, rest)
      else None
  | [] => None
  end.

(** The matches of [/[\p{L}_][\p{L}\p{N}_]*/gu] in a line, from left to
    right, with the characters between them. *)
Equations? scan_identifiers (line : jstring) : list piece by wf (length line) lt :=
  scan_identifiers [] := [];
  scan_identifiers (c :: s) with Logic.inspect (match_identifier (c :: s)) := {
    | exist _ (Some (name, rest)) Hm => Matched name :: scan_identifiers rest;
    | exist _ None _ => Plain c :: scan_identifiers s }.
Proof.
  all: try (simpl; lia).
  simpl in Hm. destruct (ident_start c); [|discriminate].
  pose proof (span_length ident_part s) as Hs.
  destruct (span ident_part s) as [more r]. injection Hm as _ <-.
  simpl in *. lia.
Qed.

(** The replacement callback of [replaceChineseVars]. *)
Definition replace_match (mapping : VarMapping) (text : jstring) : jstring * VarMapping :=
  if hasUnicodeLetter text then getAlias mapping text else (text, mapping).

(** The callback runs once per match, in order, on the one mapping. *)
Fixpoint substitute (pieces : list piece) (mapping : VarMapping) : jstring * VarMapping :=
  match pieces with
  | [] => ([], mapping)
  | Plain c :: pieces' =>
      let '(out, mapping1) := substitute pieces' mapping in (c :: out, mapping1)
  | Matched text :: pieces' =>
      let '(new, mapping1) := replace_match mapping text in
      let '(out, mapping2) := substitute pieces' mapping1 in
      (new ++ out, mapping2)
  end.

Definition replaceChineseVars (line : jstring) (mapping : VarMapping) : jstring * VarMapping :=
  substitute (scan_identifiers line) mapping.

(** *** resultToDisplay, resultToNumber *)

Definition resultToDisplay (val : unknown Value) : option jstring :=
  match val with
  | js_undefined | js_null => None
  | js_value _ =>
      let type := math_typeOf val in
      if bool_decide (type = str "BigNumber") || bool_decide (type = str "number")
      then Some (math_format val)
      else None
  end.

Definition resultToNumber (val : unknown Value) : Num :=
  match math_number val with
  | Normal n => n
  | Throw => num_zero
  end.

(** *** calculate *)

(** The state of one pass: the locals of [calculate]. *)
Record PassState := {
  mapping : VarMapping;
  scope : gmap jstring (unknown Value);
  previousAnswer : unknown Value;
  results : list (LineResult Num)
}.

Definition initial_state : PassState :=
  {| mapping := fresh_mapping; scope := ∅; previousAnswer := js_null; results := [] |}.

Definition blank_result : LineResult Num :=
  {| display := None; numeric := num_zero; error := false |}.

Definition error_result : LineResult Num :=
  {| display := None; numeric := num_zero; error := true |}.

(** [results.push(r); continue] *)
Definition push (r : LineResult Num) (st : PassState) : PassState :=
  {| mapping := mapping st; scope := scope st;
     previousAnswer := previousAnswer st; results := results st ++ [r] |}.

Definition not_null (val : unknown Value) : bool :=
  match val with
  | js_null => false
  | _ => true
  end.

(** [isKnownVariable] *)
Definition isKnownVariable (st : PassState) (line : jstring) : bool :=
  bool_decide (is_Some (scope st !! line))
  || bool_decide (is_Some (cnToAlias (mapping st) !! line)).

(** The condition of the fourth early exit: a line of prose. *)
Definition is_prose (st : PassState) (line : jstring) : bool :=
  negb (isKnownVariable st line)
  && negb (has_expression_char line)
  && negb (has_operator line)
  && negb (has_math_word line).

(** The trimmed line leaves the loop body through one of the four
    early exits. *)
Definition skipped (st : PassState) (line : jstring) : bool :=
  match line with
  | [] => true
  | _ => JS.startsWith (chr "#") line || is_separator line || is_prose st line
  end.

(** [BINARY_OPERATORS.includes(line[0])] *)
Definition starts_with_operator (line : jstring) : bool :=
  match line with
  | c :: _ => existsb (N.eqb c) BINARY_OPERATORS
  | [] => false
  end.

(** The first statement of the [try] block: the chaining prefix. *)
Definition chain (st : PassState) (line : jstring) : jstring :=
  if not_null (previousAnswer st) && starts_with_operator line
  then math_format (previousAnswer st) ++ line
  else line.

(** [scope['ans'] = previousAnswer], when there is a previous answer. *)
Definition bind_ans (st : PassState) : gmap jstring (unknown Value) :=
  if not_null (previousAnswer st)
  then <[str "ans" := previousAnswer st]> (scope st)
  else scope st.

(** What follows the call of the engine, to the end of the [try] and
    its [catch]. *)
Definition conclude (st : PassState) (mapping1 : VarMapping)
    (outcome : gmap jstring (unknown Value) * completion (unknown Value)) : PassState :=
  match outcome with
  | (scope1, Normal result) =>
      match resultToDisplay result with
      | Some display =>
          {| mapping := mapping1; scope := scope1; previousAnswer := result;
             results := results st ++
               [{| display := Some display; numeric := resultToNumber result;
                   error := false |}] |}
      | None =>
          {| mapping := mapping1; scope := scope1;
             previousAnswer := previousAnswer st;
             results := results st ++ [blank_result] |}
      end
  | (scope1, Throw) =>
      {| mapping := mapping1; scope := scope1;
         previousAnswer := previousAnswer st;
         results := results st ++ [error_result] |}
  end.

(** The [try] block after the chaining prefix, on the assembled line. *)
Definition evaluate_assembled (st : PassState) (line : jstring) : PassState :=
  let scope1 := bind_ans st in
  let line1 := preprocessPercent line in
  let '(line2, mapping1) := replaceChineseVars line1 (mapping st) in
  conclude st mapping1 (math_evaluate line2 scope1).

(** The string and the scope the engine is called with for an eligible
    trimmed line. *)
Definition engine_line (st : PassState) (line : jstring) : jstring :=
  (replaceChineseVars (preprocessPercent (chain st line)) (mapping st)).1.

Definition engine_scope (st : PassState) : gmap jstring (unknown Value) := bind_ans st.

(** The line preprocessor in the order the specification lists its
    steps (section 4.2): percent expansion first, then the chaining
    prefix in front of the expanded line when a previous answer exists
    and the line starts with one of [+ - * /], then alias substitution
    over the assembled line. *)
Definition spec_preprocess (st : PassState) (line : jstring) : jstring * VarMapping :=
  let expanded := preprocessPercent line in
  let prefixed :=
    if not_null (previousAnswer st) && starts_with_operator expanded
    then math_format (previousAnswer st) ++ expanded
    else expanded in
  replaceChineseVars prefixed (mapping st).


(** One iteration of the loop of [calculate]. *)
Definition process_line (st : PassState) (raw : jstring) : PassState :=
  let line := JS.trim raw in
  match line with
  | [] => push blank_result st
  | _ =>
      if JS.startsWith (chr "#") line then push blank_result st
      else if is_separator line then push blank_result st
      else if is_prose st line then push blank_result st
      else evaluate_assembled st (chain st line)
  end.

Definition run_lines (st : PassState) (raws : list jstring) : PassState :=
  fold_left process_line raws st.

Definition calculate (text : jstring) : CalcResult Num :=
  {| lines := results (run_lines initial_state (JS.split newline text)) |}.

End Driver.

(** ** A small instance

    A stand-in engine over natural numbers, enough to run the driver on
    concrete documents: an expression is one operand, or two operands
    around [+] or [*], or an assignment [name = operand]; an operand is a
    decimal numeral or a variable of the scope; a line that starts with
    a parenthesis evaluates to a text, a value that is not a number. *)

Module Sample.

Inductive value : Type :=
  | Number (n : N)
  | Text (s : jstring).

Definition digit_value (c : char) : N := (c - 48)%N.

Definition parse_numeral (s : jstring) : option N :=
  match s with
  | [] => None
  | _ => if forallb is_digit s
         then Some (fold_left (fun acc c => (10 * acc + digit_value c)%N) s 0%N)
         else None
  end.

Definition operand (scope : gmap jstring (unknown value)) (s : jstring) : option N :=
  match parse_numeral s with
  | Some n => Some n
  | None => match scope !! s with
            | Some (js_value (Number n)) => Some n
            | _ => None
            end
  end.

Definition is_op (c : char) : bool :=
  existsb (N.eqb c) [chr "="; chr "+"; chr "*"].

Definition evaluate (line : jstring) (scope : gmap jstring (unknown value))
    : gmap jstring (unknown value) * completion (unknown value) :=
  let line := filter (fun c => c ≠ chr " ") line in
  if JS.startsWith (chr "(") line then (scope, Normal (js_value (Text line)))
  else
    let '(lhs, rest) := span (fun c => negb (is_op c)) line in
    match rest with
    | [] => match operand scope lhs with
            | Some n => (scope, Normal (js_value (Number n)))
            | None => (scope, Throw)
            end
    | op :: rhs =>
        match operand scope rhs with
        | None => (scope, Throw)
        | Some b =>
            if (op =? chr "=")%N
            then match lhs with
                 | [] => (scope, Throw)
                 | _ => (<[lhs := js_value (Number b)]> scope,
                         Normal (js_value (Number b)))
                 end
            else match operand scope lhs with
                 | None => (scope, Throw)
                 | Some a =>
                     (scope, Normal (js_value (Number
                        (if (op =? chr "+")%N then a + b else a * b)%N)))
                 end
        end
    end.

Definition typeOf (val : unknown value) : jstring :=
  match val with
  | js_value (Number _) => str "number"
  | js_value (Text _) => str "string"
  | js_null => str "null"
  | js_undefined => str "undefined"
  end.

Definition format (val : unknown value) : jstring :=
  match val with
  | js_value (Number n) => number_to_string n
  | js_value (Text s) => s
  | js_null => str "null"
  | js_undefined => str "undefined"
  end.

Definition number (val : unknown value) : completion N :=
  match val with
  | js_value (Number n) => Normal n
  | _ => Throw
  end.

(** An excerpt of the category tables: the ASCII letters and the CJK
    unified ideographs are letters, the ASCII digits are numbers. *)
Definition letter (c : char) : bool :=
  ((65 <=? c)%N && (c <=? 90)%N) || ((97 <=? c)%N && (c <=? 122)%N)
  || ((19968 <=? c)%N && (c <=? 40959)%N).

Definition replaceVars := replaceChineseVars letter is_digit.

Definition process := process_line value N 0%N letter is_digit evaluate typeOf format number.

Definition run (text : jstring) : CalcResult N :=
  calculate value N 0%N letter is_digit evaluate typeOf format number text.

Definition start : PassState value N := initial_state value N.

(** The state of a pass after a line that evaluated to [100]. *)
Definition after_100 : PassState value N :=
  {| mapping := fresh_mapping; scope := ∅;
     previousAnswer := js_value (Number 100);
     results := [{| display := Some (str "100"); numeric := 100%N; error := false |}] |}.

Definition shown (r : CalcResult N) : list (option jstring * bool) :=
  map (fun l => (display l, error l)) (lines r).

(** The document of three lines
    [房租 = 3500], [水电 = 200], [房租 + 水电]. *)
Definition rent_document : jstring :=
  [25151; 31199]%N ++ str " = 3500" ++ [newline]
  ++ [27700; 30005]%N ++ str " = 200" ++ [newline]
  ++ [25151; 31199]%N ++ str " + " ++ [27700; 30005]%N.

End Sample.

(** * The editor around the calculator (editor.ts)

    The part of the editor that works on the text and on the results:
    the line of the cursor, one recalculation with what it renders, and
    the text of the export.  The rows rendered are kept as data, a record
    for each element with its height, classes and text.  The layout is
    not part of the repository: the height measured for the text of a
    line is a parameter.  Pop-ups, scrolling and the handling of taps
    below the text are left out. *)

(** The UTF-16 code units of a string: indices of the host ([substring],
    [selectionStart]) count these. *)
Definition utf16_units (c : char) : list N :=
  if (c <? 65536)%N then [c]
  else [(55296 + (c - 65536) / 1024)%N; (56320 + (c - 65536) mod 1024)%N].

Definition utf16 (s : jstring) : list N := flat_map utf16_units s.

(** [getActiveLine], from [inputArea.value] and [inputArea.selectionStart]:
    [value.substring(0, pos).split('\n').length - 1]. *)
Definition getActiveLine (value : jstring) (selectionStart : nat) : Z :=
  (Z.of_nat (length (JS.split newline (take selectionStart (utf16 value)))) - 1)%Z.

(** A [span] of the line numbers and a [div] of the output column: the
    height, the class names set through [className], the text, the title,
    and whether [classList.add('active-line')] ran. *)
Record LineNumberSpan (Height : Type) := {
  span_height : Height;
  span_text : jstring;
  span_active : bool
}.
Arguments span_height {Height} _.
Arguments span_text {Height} _.
Arguments span_active {Height} _.

Record OutputDiv (Height : Type) := {
  div_height : Height;
  div_class : list jstring;
  div_text : jstring;
  div_title : option jstring;
  div_active : bool
}.
Arguments div_height {Height} _.
Arguments div_class {Height} _.
Arguments div_text {Height} _.
Arguments div_title {Height} _.
Arguments div_active {Height} _.

(** The variables of the module that a recalculation reads and writes. *)
Record EditorState (Num : Type) := {
  value : jstring;
  selectionStart : nat;
  previousResults : list (option jstring);
  lastResult : option (CalcResult Num);
  activeLine : Z
}.
Arguments value {Num} _.
Arguments selectionStart {Num} _.
Arguments previousResults {Num} _.
Arguments lastResult {Num} _.
Arguments activeLine {Num} _.

Section Editor.

Variable Value : Type.
Variable Num : Type.
Variable num_zero : Num.
Variable unicode_L : char -> bool.
Variable unicode_N : char -> bool.
Variable math_evaluate :
  jstring -> gmap jstring (unknown Value) ->
  gmap jstring (unknown Value) * completion (unknown Value).
Variable math_typeOf : unknown Value -> jstring.
Variable math_format : unknown Value -> jstring.
Variable math_number : unknown Value -> completion Num.

(** Heights: the [offsetHeight] measured for a [div] of the mirror with a
    given text, which heights are falsy ([0], [NaN]), and the height
    [22]. *)
Variable Height : Type.
Variable measure : jstring -> Height.
Variable height_falsy : Height -> bool.
Variable height_22 : Height.

(** [measureLineHeights]: one [div] per line, an empty line measured as a
    no-break space. *)
Definition measureLineHeights (value : jstring) : list Height :=
  map (fun line => measure (match line with
                            | [] => [160%N]
                            | _ :: _ => line
                            end))
    (JS.split newline value).

Definition renderLineNumbers (heights : list Height) (activeLine : Z)
    : list (LineNumberSpan Height) :=
  imap (fun i h =>
          {| span_height := h;
             span_text := number_to_string (N.of_nat (i + 1));
             span_active := bool_decide (Z.of_nat i = activeLine) |})
    heights.

Definition renderOutput (result : CalcResult Num) (heights : list Height)
    (previousResults : list (option jstring)) (activeLine : Z)
    : list (OutputDiv Height) :=
  imap (fun i line =>
          let h := match heights !! i with
                   | Some h => if height_falsy h then height_22 else h
                   | None => height_22
                   end in
          let active := bool_decide (Z.of_nat i = activeLine) in
          if error line then
            {| div_height := h; div_class := [str "error"]; div_text := [9888%N];
               div_title := None; div_active := active |}
          else match display line with
               | Some shown =>
                   let formatted := formatNumber shown in
                   let changed := bool_decide (previousResults !! i <> Some (Some shown)) in
                   {| div_height := h;
                      div_class := if changed then [str "has-result"; str "changed"]
                                   else [str "has-result"];
                      div_text := formatted; div_title := Some formatted;
                      div_active := active |}
               | None =>
                   {| div_height := h; div_class := []; div_text := [160%N];
                      div_title := None; div_active := active |}
               end)
    (lines result).

(** [recalculate]: the state after it, the line numbers and the output
    it renders. *)
Definition recalculate (st : EditorState Num)
    : EditorState Num * (list (LineNumberSpan Height) * list (OutputDiv Height)) :=
  let active := getActiveLine (value st) (selectionStart st) in
  let result := calculate Value Num num_zero unicode_L unicode_N
                  math_evaluate math_typeOf math_format math_number (value st) in
  let heights := measureLineHeights (value st) in
  ({| value := value st; selectionStart := selectionStart st;
      previousResults := map display (lines result);
      lastResult := Some result; activeLine := active |},
   (renderLineNumbers heights active,
    renderOutput result heights (previousResults st) active)).

(** The text [exportText] puts into the file, from the text of a line and
    [result.lines[i]?.display]. *)
Definition export_row (line : jstring) (val : option jstring) : jstring :=
  match val with
  | Some shown => line ++ str "  " ++ [8594%N] ++ str "  " ++ formatNumber shown ++ [newline]
  | None => line ++ [newline]
  end.

Definition export_output (value : jstring) (result : CalcResult Num) : jstring :=
  concat (imap (fun i line => export_row line (lines result !! i ≫= display))
            (JS.split newline value)).

(** [exportText]: [lastResult ?? calculate(inputArea.value)], then the
    rows. *)
Definition exportText (st : EditorState Num) : jstring :=
  export_output (value st)
    match lastResult st with
    | Some result => result
    | None => calculate Value Num num_zero unicode_L unicode_N
                math_evaluate math_typeOf math_format math_number (value st)
    end.

End Editor.


(** * The tabs (tabs.ts)

    The operations on the tabs of the notepad, on the variables of the
    module and on what they write: the item of the local storage, the
    buttons of the tab bar, and the calls of the switch callback.
    [JSON.stringify] and the identifier a new tab gets are parameters.
    The bar lists the buttons of the tabs; the button that adds a tab,
    always there after them, is not listed.
    Loading the stored state and renaming a tab, which work on parsed
    JSON and on input elements, are left out. *)

Module Tabs.

Record Tab := {
  id : jstring;
  title : jstring;
  content : jstring
}.

Record TabState := {
  tabs : list Tab;
  activeId : jstring
}.

(** A button of the tab bar as [renderTabs] builds it: whether it has the
    class [tab-active], its title, and whether it has a close mark. *)
Record TabButton := {
  button_active : bool;
  button_title : jstring;
  button_close : bool
}.

(** [state], the item [calc-notepad-tabs] of the local storage, the
    buttons of the tab bar, and the contents the switch callback was
    called with, oldest first. *)
Record World := {
  state : TabState;
  stored : option jstring;
  bar : list TabButton;
  switched : list jstring
}.

(** How a call ends: it returns, or it throws, each with the world it
    leaves. *)
Inductive outcome : Type :=
  | Done (w : World)
  | Failed (w : World).

(** [state.tabs.find(t => t.id === state.activeId)] *)
Definition active (st : TabState) : option Tab :=
  List.find (fun t => bool_decide (id t = activeId st)) (tabs st).

(** [state.tabs.findIndex(t => t.id === id)] *)
Fixpoint findIndex (wanted : jstring) (ts : list Tab) : option nat :=
  match ts with
  | [] => None
  | t :: ts' => if bool_decide (id t = wanted) then Some 0%nat
                else S <$> findIndex wanted ts'
  end.

(** [renderTabs]: a button per tab, with a close mark when there is more
    than one tab. *)
Definition renderTabs (st : TabState) : list TabButton :=
  map (fun t => {| button_active := bool_decide (id t = activeId st);
                   button_title := title t;
                   button_close := bool_decide (1 < length (tabs st))%nat |})
    (tabs st).

Section Operations.

Variable stringify : TabState -> jstring.

(** [persist] *)
Definition persist (w : World) : World :=
  {| state := state w; stored := Some (stringify (state w));
     bar := bar w; switched := switched w |}.

Definition render (w : World) : World :=
  {| state := state w; stored := stored w;
     bar := renderTabs (state w); switched := switched w |}.

Definition with_state (st : TabState) (w : World) : World :=
  {| state := st; stored := stored w; bar := bar w; switched := switched w |}.

(** [switchCb(active().content)]: the read of [content] throws when there
    is no active tab. *)
Definition call_switch (w : World) : outcome :=
  match active (state w) with
  | Some t => Done {| state := state w; stored := stored w; bar := bar w;
                      switched := switched w ++ [content t] |}
  | None => Failed w
  end.

(** The assignment [active().content = content], on the first tab with
    the active identifier. *)
Fixpoint set_content (wanted new : jstring) (ts : list Tab) : option (list Tab) :=
  match ts with
  | [] => None
  | t :: ts' =>
      if bool_decide (id t = wanted)
      then Some ({| id := id t; title := title t; content := new |} :: ts')
      else cons t <$> set_content wanted new ts'
  end.

Definition saveTabContent (new : jstring) (w : World) : outcome :=
  match set_content (activeId (state w)) new (tabs (state w)) with
  | Some ts => Done (persist (with_state {| tabs := ts; activeId := activeId (state w) |} w))
  | None => Failed w
  end.

Definition switchTab (wanted : jstring) (w : World) : outcome :=
  if bool_decide (wanted = activeId (state w)) then Done w
  else call_switch
         (render (persist (with_state {| tabs := tabs (state w); activeId := wanted |} w))).

(** [addTab], [fresh] being the identifier [uid()] returns. *)
Definition addTab (fresh : jstring) (w : World) : outcome :=
  let tab := {| id := fresh;
                title := [39029; 31614; 32]%N
                         ++ number_to_string (N.of_nat (length (tabs (state w)) + 1));
                content := [] |} in
  let w1 := render (persist (with_state {| tabs := tabs (state w) ++ [tab];
                                           activeId := fresh |} w)) in
  Done {| state := state w1; stored := stored w1; bar := bar w1;
          switched := switched w1 ++ [content tab] |}.

Definition removeTab (wanted : jstring) (w : World) : outcome :=
  if bool_decide (length (tabs (state w)) <= 1)%nat then Done w
  else
    match findIndex wanted (tabs (state w)) with
    | None => Done w
    | Some idx =>
        let wasActive := bool_decide (activeId (state w) = wanted) in
        let spliced := delete idx (tabs (state w)) in
        if wasActive then
          match spliced !! Nat.min idx (length spliced - 1) with
          | Some t =>
              call_switch
                (render (persist (with_state {| tabs := spliced; activeId := id t |} w)))
          | None =>
              Failed (with_state {| tabs := spliced; activeId := activeId (state w) |} w)
          end
        else
          Done (render (persist (with_state {| tabs := spliced;
                                               activeId := activeId (state w) |} w)))
    end.

End Operations.

End Tabs.

(** * The theme

    The light and dark theme: the item [calc-theme] of the local storage,
    the preference of the system, and the attribute [data-theme] of the
    document. *)

Module Theme.

Inductive theme : Type :=
  | light
  | dark.

Definition name (t : theme) : jstring :=
  match t with
  | light => str "light"
  | dark => str "dark"
  end.

Record World := {
  saved : option jstring;
  prefers_dark : bool;
  data_theme : option jstring
}.

Definition getTheme (w : World) : theme :=
  let system := if prefers_dark w then dark else light in
  match saved w with
  | Some s => if bool_decide (s = str "dark") then dark
              else if bool_decide (s = str "light") then light
              else system
  | None => system
  end.

Definition setTheme (t : theme) (w : World) : World :=
  {| saved := Some (name t); prefers_dark := prefers_dark w;
     data_theme := Some (name t) |}.

Definition toggleTheme (w : World) : theme * World :=
  let current := getTheme w in
  let next := match current with
              | dark => light
              | light => dark
              end in
  (next, setTheme next w).

Definition initTheme (w : World) : World := setTheme (getTheme w) w.

End Theme.


(** * Sample instances of the editor and of the tabs

    For the editor, the layout measures a line by the number of its
    characters (so the empty line measures nothing and falls back on 22).
    For the tabs, the serialisation writes the active identifier and then
    each tab's identifier, title and content. *)

Module SampleEditor.

Definition recalc :=
  recalculate Sample.value N 0%N Sample.letter is_digit Sample.evaluate Sample.typeOf
    Sample.format Sample.number nat (fun line => length line) (Nat.eqb 0) 22%nat.

(** The text [1+1], an empty line and [x], the cursor in the last line,
    nothing rendered yet. *)
Definition opened : EditorState N :=
  {| value := str "1+1" ++ [newline] ++ [newline] ++ str "x";
     selectionStart := 5;
     previousResults := [];
     lastResult := None;
     activeLine := 0 |}.

(** The same with a layout in which a line of one character measures
    nothing. *)
Definition recalc_narrow :=
  recalculate Sample.value N 0%N Sample.letter is_digit Sample.evaluate Sample.typeOf
    Sample.format Sample.number nat (fun line => (length line - 1)%nat) (Nat.eqb 0) 22%nat.


End SampleEditor.

Module SampleTabs.

Definition stringify (st : Tabs.TabState) : jstring :=
  Tabs.activeId st
  ++ flat_map (fun t => chr "|" :: Tabs.id t ++ chr ":" :: Tabs.title t
                        ++ chr ":" :: Tabs.content t) (Tabs.tabs st).

Definition first_tab : Tabs.Tab :=
  {| Tabs.id := str "a"; Tabs.title := str "one"; Tabs.content := str "1+1" |}.

Definition second_tab : Tabs.Tab :=
  {| Tabs.id := str "b"; Tabs.title := str "two"; Tabs.content := str "2*3" |}.

Definition two_tabs : Tabs.TabState :=
  {| Tabs.tabs := [first_tab; second_tab]; Tabs.activeId := str "a" |}.

Definition world : Tabs.World :=
  {| Tabs.state := two_tabs;
     Tabs.stored := Some (stringify two_tabs);
     Tabs.bar := Tabs.renderTabs two_tabs;
     Tabs.switched := [] |}.

End SampleTabs.


(** * Notions used in the statements *)

(** The length of the run of digits a string starts with. *)
Definition digit_run (s : jstring) : nat := length (span is_digit s).1.

(** The mantissa and the exponent suffix as [formatDisplay] cuts them. *)
Definition mantissa_of (s : jstring) : jstring :=
  let eIdx := JS.indexOf (chr "e") s in
  if (0 <=? eIdx)%Z then JS.slice_to eIdx s else s.

Definition exponent_of (s : jstring) : jstring :=
  let eIdx := JS.indexOf (chr "e") s in
  if (0 <=? eIdx)%Z then JS.slice_from eIdx s else [].

(** Step 2 of the formatter, on the mantissa. *)
Definition strip_mantissa (m : jstring) : jstring :=
  if JS.includes (chr ".") m then replace_dot_zeros m else m.

(** Step 3 of the formatter, on the stripped mantissa of a fixed-point
    string. *)
Definition group_mantissa (m : jstring) : jstring :=
  match JS.split (chr ".") m with
  | part0 :: parts => JS.join (chr ".") (group_thousands part0 :: parts)
  | [] => group_thousands []
  end.

(** A stripped mantissa: without a decimal point, or with one that is
    followed by digits not ending in a zero. *)
Definition stripped (t : jstring) : Prop :=
  ~ In (chr ".") t
  \/ exists a b, t = a ++ chr "." :: b /\ ~ In (chr ".") a /\ ~ In (chr ".") b
                 /\ last (chr "." :: b) <> Some (chr "0").

(** The raw strings [resultToDisplay] stores, as the engine's [auto]
    notation writes a number: a decimal numeral, that is an optional
    minus sign and digits with at most one decimal point, then
    optionally an exponent suffix, [e] with an optional sign and
    digits. *)
Definition decimal_numeral (m : jstring) : bool :=
  let unsigned :=
    match m with
    | c :: m' => if (c =? chr "-")%N then m' else m
    | [] => m
    end in
  forallb (fun c => is_digit c || (c =? chr ".")%N) unsigned
  && (count_occ N.eq_dec unsigned (chr ".") <=? 1)%nat.

Definition exponent_suffix (e : jstring) : bool :=
  match e with
  | [] => true
  | c :: e' =>
      (c =? chr "e")%N
      && forallb is_digit
           match e' with
           | sign :: digits =>
               if (sign =? chr "+")%N || (sign =? chr "-")%N then digits else e'
           | [] => e'
           end
  end.

Definition raw_auto_notation (s : jstring) : bool :=
  decimal_numeral (mantissa_of s) && exponent_suffix (exponent_of s).

(** A character of a literal: a digit or the decimal point. *)
Definition literal_char (c : char) : bool := is_digit c || (c =? chr ".")%N.

(** A numeric literal of the percent pattern: digits, optionally a point
    and more digits. *)
Definition numeric_literal (lit : jstring) : bool :=
  match span is_digit lit with
  | ([], _) => false
  | (_, []) => true
  | (_, c :: frac) =>
      (c =? chr ".")%N
      && match frac with
         | [] => false
         | _ => forallb is_digit frac
         end
  end.

(** Some digit of the string is directly followed by a percent sign. *)
Fixpoint digit_before_percent (s : jstring) : bool :=
  match s with
  | d :: s' =>
      (is_digit d && match s' with
                     | c :: _ => (c =? chr "%")%N
                     | [] => false
                     end)
      || digit_before_percent s'
  | [] => false
  end.

(** A scanned line with its matches that are not ASCII replaced, from
    left to right, by the given aliases. *)
Fixpoint fill (pieces : list piece) (aliases : list jstring) : jstring :=
  match pieces with
  | [] => []
  | Plain c :: pieces' => c :: fill pieces' aliases
  | Matched text :: pieces' =>
      if hasUnicodeLetter text
      then match aliases with
           | alias :: aliases' => alias ++ fill pieces' aliases'
           | [] => text ++ fill pieces' []
           end
      else text ++ fill pieces' aliases
  end.

(** The literal [lit] after the text [pre] is a whole literal, not the
    end of a longer one: the character before it is not a digit, and it
    is not the point after a digit unless [lit] has a point of its own. *)
Definition whole_literal (pre lit : jstring) : bool :=
  match last pre with
  | None => true
  | Some c =>
      negb (is_digit c)
      && (negb (c =? chr ".")%N
          || existsb (N.eqb (chr ".")) lit
          || match last (removelast pre) with
             | Some d => negb (is_digit d)
             | None => true
             end)
  end.

(** The mapping holds exactly the names of [seen], the one at index [k]
    under the alias [_v{k}], and the counter is their number. *)
Definition mapping_tracks (seen : list jstring) (mapping : VarMapping) : Prop :=
  counter mapping = N.of_nat (length seen)
  /\ (forall k name, seen !! k = Some name ->
                     cnToAlias mapping !! name = Some (alias_name (N.of_nat k)))
  /\ (forall name, name ∉ seen -> cnToAlias mapping !! name = None).

(** * Properties *)

(** ** The model on sample inputs *)

Example formatNumber_samples :
  map formatNumber [str "1234567"; str "-1234.5000"; str "0.10"; str "1.50e+21"; str "100.0"; str "12"]
  = [str "1,234,567"; str "-1,234.5"; str "0.1"; str "1.5e+21"; str "100"; str "12"].
Proof. vm_compute. reflexivity. Qed.

Example preprocessPercent_samples :
  map preprocessPercent [str "200 * 50%"; str "10%3"; str "1.5% + x%"; str "5.%3"; str "1.2.3%"]
  = [str "200 * (50/100)"; str "(10/100)3"; str "(1.5/100) + x%"; str "5.%3"; str "1.(2.3/100)"].
Proof. vm_compute. reflexivity. Qed.

Example has_math_word_samples :
  map has_math_word [str "abc"; str "E"; str "2 PI r"; str "answer"; str "the end"; str "x e"; str "infinity."]
  = [false; true; true; false; false; true; true].
Proof. vm_compute. reflexivity. Qed.

Example run_chained :
  Sample.shown (Sample.run (str "1 + 2" ++ [newline] ++ str "* 3"))
  = [(Some (str "3"), false); (Some (str "9"), false)].
Proof. vm_compute. reflexivity. Qed.

Example run_rent :
  Sample.shown (Sample.run Sample.rent_document)
  = [(Some (str "3500"), false); (Some (str "200"), false); (Some (str "3700"), false)].
Proof. vm_compute. reflexivity. Qed.

Example run_mixed :
  Sample.shown (Sample.run (str "# title" ++ [newline] ++ str "abc" ++ [newline]
                            ++ str "7" ++ [newline] ++ str "1 +" ++ [newline]
                            ++ str "----" ++ [newline] ++ str "ans" ++ [newline]
                            ++ str "(note)" ++ [newline] ++ str "+ 1"))
  = [(None, false); (None, false); (Some (str "7"), false); (None, true);
     (None, false); (Some (str "7"), false); (None, false); (Some (str "8"), false)].
Proof. vm_compute. reflexivity. Qed.

Example replaceVars_sample :
  (Sample.replaceVars ([25151; 31199]%N ++ str "+x1+_" ++ [27700]%N ++ str "2*" ++ [25151; 31199]%N)
     fresh_mapping).1
  = str "_v0+x1+_v1*_v0".
Proof. vm_compute. reflexivity. Qed.

Example raw_auto_notation_samples :
  map raw_auto_notation
    [str "1234567.00"; str "-0.5"; str "1.5e+21"; str "3e-7"; str "42"; str "1.2.3"; str "1e5e5"; str "abc"]
  = [true; true; true; true; true; false; false; false].
Proof. vm_compute. reflexivity. Qed.

Example skipped_samples :
  map (fun raw => skipped _ _ Sample.start (JS.trim (str raw)))
    [""; "   "; "# note"; "-----"; "=*=*="; "groceries"; "a1"; "2 + 2"; "2 pi"; "x"]%string
  = [true; true; true; true; true; true; false; false; false; true]
  /\ skipped _ _ Sample.start [183; 126; 183]%N = true.
Proof. split; vm_compute; reflexivity. Qed.

Example run_known_variable :
  Sample.shown (Sample.run (str "rate = 5" ++ [newline] ++ str "rate" ++ [newline]
                            ++ str "other"))
  = [(Some (str "5"), false); (Some (str "5"), false); (None, false)].
Proof. vm_compute. reflexivity. Qed.

Example alias_name_samples :
  map alias_name [0; 7; 10; 123]%N = [str "_v0"; str "_v7"; str "_v10"; str "_v123"].
Proof. vm_compute. reflexivity. Qed.


(** ** The formatter *)

Lemma includes_In c s : JS.includes c s = true <-> In c s.
Proof.
  unfold JS.includes. rewrite existsb_exists. split.
  - intros (x & Hx & Heq). apply N.eqb_eq in Heq. by subst.
  - intros H. exists c. split; [done|]. apply N.eqb_refl.
Qed.

Lemma includes_false c s : JS.includes c s = false <-> ~ In c s.
Proof.
  rewrite <- includes_In. destruct (JS.includes c s); split; congruence.
Qed.

Lemma includes_app c s t : JS.includes c (s ++ t) = JS.includes c s || JS.includes c t.
Proof. apply existsb_app. Qed.

Lemma all_zeros_In s c : all_zeros s = true -> In c s -> c = chr "0".
Proof.
  destruct s as [|x s]; [done|]. unfold all_zeros. rewrite forallb_forall.
  intros H Hin. apply H in Hin. apply N.eqb_eq in Hin. done.
Qed.

Lemma all_zeros_cons c s :
  all_zeros (c :: s) = (chr "0" =? c)%N && (match s with [] => true | _ => all_zeros s end).
Proof. destruct s; reflexivity. Qed.

(** No match of [\.?0+$] starts inside a part that is followed by a
    decimal point. *)
Lemma replace_dot_zeros_before_point a b :
  ~ In (chr ".") a ->
  replace_dot_zeros (a ++ chr "." :: b) = a ++ replace_dot_zeros (chr "." :: b).
Proof.
  induction a as [|c a IH]; intros Hna; [reflexivity|].
  assert (Hc : c <> chr ".") by (intros ->; apply Hna; by left).
  assert (Ha : ~ In (chr ".") a) by (intros H; apply Hna; by right).
  change ((c :: a) ++ chr "." :: b) with (c :: (a ++ chr "." :: b)).
  cbn [replace_dot_zeros].
  assert (Hm : match_dot_zeros (c :: a ++ chr "." :: b) = false).
  { unfold match_dot_zeros. apply N.eqb_neq in Hc. rewrite Hc. simpl "&&". simpl "||".
    destruct (all_zeros (c :: a ++ chr "." :: b)) eqn:Hz; [|done].
    exfalso. pose proof (all_zeros_In _ (chr ".") Hz) as H.
    assert (In (chr ".") (c :: a ++ chr "." :: b)) as Hin
      by (right; apply in_or_app; right; by left).
    specialize (H Hin). discriminate H. }
  rewrite Hm. rewrite IH by done. reflexivity.
Qed.

(** In a part without a decimal point the match is the run of zeros at
    the end: what stays does not end in a zero. *)
Lemma replace_dot_zeros_last b :
  ~ In (chr ".") b -> last (replace_dot_zeros b) <> Some (chr "0").
Proof.
  induction b as [|c b IH]; intros Hnb; [done|].
  assert (Hc : c <> chr ".") by (intros ->; apply Hnb; by left).
  assert (Hb : ~ In (chr ".") b) by (intros H; apply Hnb; by right).
  cbn [replace_dot_zeros].
  destruct (match_dot_zeros (c :: b)) eqn:Hm; [done|].
  specialize (IH Hb).
  destruct (replace_dot_zeros b) as [|x r] eqn:Hr.
  - simpl. intros [= ->].
    unfold match_dot_zeros in Hm. apply orb_false_elim in Hm as [_ Hm].
    rewrite all_zeros_cons, N.eqb_refl in Hm.
    destruct b as [|y b]; [done|]. cbn [andb] in Hm.
    cbn [replace_dot_zeros] in Hr.
    destruct (match_dot_zeros (y :: b)) eqn:Hm2; [|done].
    unfold match_dot_zeros in Hm2.
    assert (Hy : (y =? chr ".")%N = false).
    { apply N.eqb_neq. intros ->. apply Hb. by left. }
    rewrite Hy, Hm in Hm2. discriminate Hm2.
  - by rewrite last_cons_cons.
Qed.

Lemma replace_dot_zeros_id s :
  last s <> Some (chr "0") -> replace_dot_zeros s = s.
Proof.
  induction s as [|c s IH]; intros Hl; [done|].
  cbn [replace_dot_zeros].
  assert (Hz : forall t, last t <> Some (chr "0") -> all_zeros t = false).
  { intros t Ht. destruct (all_zeros t) eqn:Hz; [|done]. exfalso.
    destruct (last t) as [x|] eqn:Hlt.
    - apply last_Some in Hlt as (t' & ->).
      assert (In x (t' ++ [x])) as Hin by (apply in_or_app; right; by left).
      apply (all_zeros_In _ _ Hz) in Hin. congruence.
    - apply last_None in Hlt. by subst. }
  assert (Hm : match_dot_zeros (c :: s) = false).
  { unfold match_dot_zeros. rewrite (Hz (c :: s) Hl), orb_false_r.
    destruct s as [|y s]; [by rewrite andb_false_r|].
    rewrite Hz; [by rewrite andb_false_r|].
    by rewrite last_cons_cons in Hl. }
  rewrite Hm. f_equal. destruct s as [|y s]; [done|].
  apply IH. by rewrite last_cons_cons in Hl.
Qed.

Lemma digit_run_cons c s :
  digit_run (c :: s) = if is_digit c then S (digit_run s) else 0%nat.
Proof.
  unfold digit_run. simpl. destruct (is_digit c); [|done].
  by destruct (span is_digit s).
Qed.

Lemma next_is_digit_run s : next_is_digit s = (0 <? digit_run s)%nat.
Proof. destruct s as [|c s]; [done|]. rewrite digit_run_cons. simpl. by destruct (is_digit c). Qed.

(** The lookahead [(?=(\d{3})+(?!\d))] holds where the digits ahead come
    in a positive multiple of three. *)
Lemma look_triples_run s :
  look_triples s = (0 <? digit_run s)%nat && (digit_run s mod 3 =? 0)%nat.
Proof.
  remember (length s) as n eqn:Hn. revert s Hn.
  induction n as [n IH] using lt_wf_ind. intros s Hn.
  destruct s as [|a [|b [|c rest]]].
  - reflexivity.
  - rewrite digit_run_cons. cbn [look_triples digit_run]. by destruct (is_digit a).
  - rewrite !digit_run_cons. cbn [look_triples]. by destruct (is_digit a), (is_digit b).
  - cbn [look_triples]. rewrite !digit_run_cons.
    destruct (is_digit a); [|done]. destruct (is_digit b); [|done].
    destruct (is_digit c); [|done]. cbn [andb].
    rewrite (IH (length rest)) by (subst n; simpl; lia || done).
    rewrite next_is_digit_run.
    change (S (S (S (digit_run rest)))) with (3 + digit_run rest)%nat.
    replace ((3 + digit_run rest) mod 3)%nat with (digit_run rest mod 3)%nat
      by (rewrite <- (Nat.Div0.add_mod_idemp_l 3 _ 3); reflexivity).
    destruct (digit_run rest) as [|k]; [reflexivity|].
    cbn [Nat.ltb Nat.leb negb andb orb]. by rewrite orb_false_r.
Qed.

Lemma is_digit_word c : is_digit c = true -> is_word c = true.
Proof. unfold is_word. by intros ->. Qed.

Lemma group_from_cons prev c s :
  group_from prev (c :: s) =
  (if negb (word_boundary prev (Some c)) && look_triples (c :: s)
   then [chr ","] else []) ++ c :: group_from (Some c) s.
Proof. reflexivity. Qed.

Lemma mod3_succ r : (S r mod 3 <> 0 -> S (r mod 3) = S r mod 3)%nat.
Proof.
  pose proof (Nat.div_mod_eq r 3). pose proof (Nat.div_mod_eq (S r) 3).
  pose proof (Nat.mod_upper_bound r 3). pose proof (Nat.mod_upper_bound (S r) 3).
  lia.
Qed.

Lemma mod3_succ_mod r : (S (r mod 3) mod 3 = S r mod 3)%nat.
Proof.
  pose proof (Nat.div_mod_eq r 3). pose proof (Nat.div_mod_eq (S r) 3).
  pose proof (Nat.div_mod_eq (S (r mod 3)) 3).
  pose proof (Nat.mod_upper_bound r 3). pose proof (Nat.mod_upper_bound (S r) 3).
  pose proof (Nat.mod_upper_bound (S (r mod 3)) 3).
  lia.
Qed.

Lemma group_from_nil prev : group_from prev [] = [].
Proof. cbn [group_from look_triples]. by rewrite andb_false_r. Qed.

(** After a word character, the digits the grouped string starts with are
    those left over in front of the first comma. *)
Lemma group_from_run c s :
  is_word c = true -> digit_run (group_from (Some c) s) = (digit_run s mod 3)%nat.
Proof.
  revert c. induction s as [|d s IH]; intros c Hc; [by rewrite group_from_nil|].
  rewrite group_from_cons, look_triples_run, digit_run_cons.
  destruct (is_digit d) eqn:Hd.
  - unfold word_boundary. cbn [word_opt]. rewrite Hc, (is_digit_word d Hd).
    cbn [xorb negb andb Nat.ltb Nat.leb].
    destruct (S (digit_run s) mod 3 =? 0)%nat eqn:Hmod.
    + apply Nat.eqb_eq in Hmod. rewrite Hmod. reflexivity.
    + apply Nat.eqb_neq in Hmod. cbn [app]. rewrite digit_run_cons, Hd.
      rewrite (IH d (is_digit_word d Hd)). by apply mod3_succ.
  - rewrite andb_false_r. cbn [app]. by rewrite digit_run_cons, Hd.
Qed.

(** Grouping a grouped string adds no separator. *)
Lemma group_from_idem prev s :
  group_from prev (group_from prev s) = group_from prev s.
Proof.
  revert prev. induction s as [|c s IH]; intros prev; [by rewrite !group_from_nil|].
  rewrite group_from_cons.
  destruct (negb (word_boundary prev (Some c)) && look_triples (c :: s)) eqn:Hhere.
  - apply andb_prop in Hhere as [_ Hlook].
    assert (Hd : is_digit c = true).
    { rewrite look_triples_run, digit_run_cons in Hlook. by destruct (is_digit c). }
    cbn [app]. rewrite !group_from_cons.
    replace (look_triples (chr "," :: c :: group_from (Some c) s)) with false
      by (by rewrite look_triples_run, digit_run_cons).
    rewrite andb_false_r. cbn [app]. f_equal.
    replace (word_boundary (Some (chr ",")) (Some c)) with true
      by (unfold word_boundary; cbn [word_opt]; by rewrite (is_digit_word c Hd)).
    cbn [negb andb app]. f_equal. apply IH.
  - cbn [app]. rewrite group_from_cons, IH.
    replace (negb (word_boundary prev (Some c)) && look_triples (c :: group_from (Some c) s))
      with false; [reflexivity|].
    rewrite <- Hhere. f_equal.
    rewrite !look_triples_run, !digit_run_cons.
    destruct (is_digit c) eqn:Hd; [|reflexivity].
    rewrite (group_from_run c s (is_digit_word c Hd)).
    cbn [Nat.ltb Nat.leb andb]. by rewrite mod3_succ_mod.
Qed.

Lemma split_absent sep s : ~ In sep s -> JS.split sep s = [s].
Proof.
  induction s as [|c s IH]; intros Hn; [reflexivity|].
  cbn [JS.split]. destruct (N.eqb_spec c sep) as [->|_].
  - exfalso. apply Hn. by left.
  - rewrite IH; [reflexivity|]. intros H. apply Hn. by right.
Qed.

Lemma split_at_first sep a b :
  ~ In sep a -> JS.split sep (a ++ sep :: b) = a :: JS.split sep b.
Proof.
  induction a as [|c a IH]; intros Hn.
  - cbn [app JS.split]. by rewrite N.eqb_refl.
  - cbn [app JS.split]. destruct (N.eqb_spec c sep) as [->|_].
    + exfalso. apply Hn. by left.
    + rewrite IH; [reflexivity|]. intros H. apply Hn. by right.
Qed.

Lemma indexOf_absent c s : ~ In c s -> JS.indexOf c s = (-1)%Z.
Proof.
  induction s as [|x s IH]; intros Hn; [reflexivity|].
  cbn [JS.indexOf]. destruct (N.eqb_spec x c) as [->|_].
  - exfalso. apply Hn. by left.
  - rewrite IH; [reflexivity|]. intros H. apply Hn. by right.
Qed.

Lemma indexOf_at_first c m r :
  ~ In c m -> JS.indexOf c (m ++ c :: r) = Z.of_nat (length m).
Proof.
  induction m as [|x m IH]; intros Hn.
  - cbn [app JS.indexOf]. by rewrite N.eqb_refl.
  - cbn [app JS.indexOf]. destruct (N.eqb_spec x c) as [->|_].
    + exfalso. apply Hn. by left.
    + rewrite IH by (intros H; apply Hn; by right).
      destruct (Z.leb_spec 0 (Z.of_nat (length m))); simpl length; lia.
Qed.

(** A string either lacks a character or splits at its first occurrence. *)
Lemma first_occurrence (c : char) (s : jstring) :
  ~ In c s \/ exists m r, s = m ++ c :: r /\ ~ In c m.
Proof.
  induction s as [|x s IH]; [left; by intros []|].
  destruct (N.eq_dec x c) as [->|Hne].
  - right. exists [], s. split; [reflexivity|]. by intros [].
  - destruct IH as [Hn|(m & r & -> & Hm)].
    + left. intros [H|H]; [congruence|done].
    + right. exists (x :: m), r. split; [reflexivity|].
      intros [H|H]; [congruence|done].
Qed.

Lemma at_most_one_occurrence (c : char) (s : jstring) :
  (count_occ N.eq_dec s c <= 1)%nat ->
  ~ In c s \/ exists a b, s = a ++ c :: b /\ ~ In c a /\ ~ In c b.
Proof.
  intros Hcount. destruct (first_occurrence c s) as [Hn|(a & b & -> & Ha)]; [by left|].
  right. exists a, b. split; [reflexivity|]. split; [done|].
  rewrite count_occ_app, count_occ_cons_eq in Hcount by reflexivity.
  intros Hb. apply (count_occ_In N.eq_dec) in Hb. unfold char in *. lia.
Qed.

(** Grouping only adds commas. *)
Lemma group_from_In x prev s :
  x <> chr "," -> In x (group_from prev s) <-> In x s.
Proof.
  intros Hx. revert prev. induction s as [|c s IH]; intros prev.
  - by rewrite group_from_nil.
  - rewrite group_from_cons, in_app_iff. cbn [In]. rewrite IH.
    destruct (negb (word_boundary prev (Some c)) && look_triples (c :: s)).
    + cbn [In]. split; [intros [[H|[]]|H]; [congruence|done]|intros H; by right].
    + cbn [In]. split; [intros [[]|H]; done|intros H; by right].
Qed.

Lemma formatDisplay_fixed s :
  ~ In (chr "e") s -> formatDisplay s = group_mantissa (strip_mantissa s).
Proof.
  intros Hn. unfold formatDisplay. rewrite (indexOf_absent _ _ Hn).
  cbn [Z.leb Z.compare]. by rewrite app_nil_r.
Qed.

Lemma formatDisplay_scientific m r :
  ~ In (chr "e") m ->
  formatDisplay (m ++ chr "e" :: r) = strip_mantissa m ++ chr "e" :: r.
Proof.
  intros Hn. unfold formatDisplay. rewrite (indexOf_at_first _ _ _ Hn).
  destruct (Z.leb_spec 0 (Z.of_nat (length m))) as [_|]; [|lia].
  unfold JS.slice_to, JS.slice_from. rewrite Nat2Z.id.
  rewrite take_app_length, drop_app_length. reflexivity.
Qed.

Lemma mantissa_of_fixed s : ~ In (chr "e") s -> mantissa_of s = s.
Proof. intros Hn. unfold mantissa_of. by rewrite (indexOf_absent _ _ Hn). Qed.

Lemma mantissa_of_scientific m r :
  ~ In (chr "e") m -> mantissa_of (m ++ chr "e" :: r) = m.
Proof.
  intros Hn. unfold mantissa_of. rewrite (indexOf_at_first _ _ _ Hn).
  destruct (Z.leb_spec 0 (Z.of_nat (length m))) as [_|]; [|lia].
  unfold JS.slice_to. by rewrite Nat2Z.id, take_app_length.
Qed.

Lemma replace_dot_zeros_In x s : In x (replace_dot_zeros s) -> In x s.
Proof.
  induction s as [|c s IH]; [done|]. cbn [replace_dot_zeros].
  destruct (match_dot_zeros (c :: s)); [done|].
  intros [H|H]; [by left|right; by apply IH].
Qed.

Lemma strip_mantissa_In x m : In x (strip_mantissa m) -> In x m.
Proof.
  unfold strip_mantissa. destruct (JS.includes (chr ".") m); [|done].
  apply replace_dot_zeros_In.
Qed.

Lemma strip_mantissa_stripped m :
  (count_occ N.eq_dec m (chr ".") <= 1)%nat -> stripped (strip_mantissa m).
Proof.
  intros Hcount. unfold strip_mantissa.
  destruct (at_most_one_occurrence _ _ Hcount) as [Hn|(a & b & -> & Ha & Hb)].
  - apply includes_false in Hn as Hi. rewrite Hi. by left.
  - rewrite includes_app. cbn [JS.includes existsb]. rewrite N.eqb_refl, orb_true_r.
    rewrite replace_dot_zeros_before_point by done. cbn [replace_dot_zeros].
    destruct (match_dot_zeros (chr "." :: b)).
    + left. by rewrite app_nil_r.
    + right. exists a, (replace_dot_zeros b). split; [reflexivity|].
      split; [done|]. split; [intros H; by apply Hb, replace_dot_zeros_In|].
      pose proof (replace_dot_zeros_last b Hb) as Hl.
      destruct (replace_dot_zeros b) as [|x r]; [by intros [=]|].
      by rewrite last_cons_cons.
Qed.

Lemma strip_mantissa_fixed_point t : stripped t -> strip_mantissa t = t.
Proof.
  unfold strip_mantissa. intros [Hn|(a & b & -> & Ha & Hb & Hl)].
  - apply includes_false in Hn. by rewrite Hn.
  - destruct (JS.includes _ _); [|done]. apply replace_dot_zeros_id.
    rewrite last_app. destruct (last (chr "." :: b)) eqn:E; [done|].
    by apply last_None in E.
Qed.

Lemma group_mantissa_integer t :
  ~ In (chr ".") t -> group_mantissa t = group_from None t.
Proof. intros Hn. unfold group_mantissa. by rewrite (split_absent _ _ Hn). Qed.

Lemma group_mantissa_point a b :
  ~ In (chr ".") a -> ~ In (chr ".") b ->
  group_mantissa (a ++ chr "." :: b) = group_from None a ++ chr "." :: b.
Proof.
  intros Ha Hb. unfold group_mantissa.
  by rewrite (split_at_first _ _ _ Ha), (split_absent _ _ Hb).
Qed.

(** The formatter is idempotent on every string whose mantissa has at
    most one decimal point. *)
Lemma formatDisplay_idem s :
  (count_occ N.eq_dec (mantissa_of s) (chr ".") <= 1)%nat ->
  formatDisplay (formatDisplay s) = formatDisplay s.
Proof.
  intros Hcount.
  assert (Hcomma_e : chr "e" <> chr ",") by discriminate.
  assert (Hcomma_p : chr "." <> chr ",") by discriminate.
  destruct (first_occurrence (chr "e") s) as [Hn|(m & r & -> & Hm)].
  - rewrite mantissa_of_fixed in Hcount by done.
    rewrite (formatDisplay_fixed s Hn).
    pose proof (strip_mantissa_stripped s Hcount) as Hshape.
    assert (He : ~ In (chr "e") (strip_mantissa s))
      by (intros H; by apply Hn, strip_mantissa_In).
    destruct Hshape as [Hp|(a & b & Heq & Ha & Hb & Hl)].
    + rewrite (group_mantissa_integer _ Hp).
      assert (Hp' : ~ In (chr ".") (group_from None (strip_mantissa s)))
        by (by rewrite group_from_In).
      rewrite formatDisplay_fixed by (by rewrite group_from_In).
      rewrite strip_mantissa_fixed_point by (by left).
      rewrite (group_mantissa_integer _ Hp'). apply group_from_idem.
    + rewrite Heq in He |- *. rewrite (group_mantissa_point a b Ha Hb).
      assert (Ha' : ~ In (chr ".") (group_from None a)) by (by rewrite group_from_In).
      rewrite formatDisplay_fixed.
      2:{ rewrite in_app_iff in He |- *. cbn [In] in He |- *.
          rewrite group_from_In by done. exact He. }
      rewrite strip_mantissa_fixed_point by (right; by exists (group_from None a), b).
      rewrite (group_mantissa_point _ b Ha' Hb). by rewrite group_from_idem.
  - rewrite mantissa_of_scientific in Hcount by done.
    rewrite (formatDisplay_scientific m r Hm).
    rewrite formatDisplay_scientific by (intros H; by apply Hm, strip_mantissa_In).
    by rewrite strip_mantissa_fixed_point by (by apply strip_mantissa_stripped).
Qed.

Lemma decimal_numeral_points m :
  decimal_numeral m = true -> (count_occ N.eq_dec m (chr ".") <= 1)%nat.
Proof.
  unfold decimal_numeral. intros H. apply andb_prop in H as [_ H].
  apply Nat.leb_le in H. destruct m as [|c m]; [done|].
  destruct (N.eqb_spec c (chr "-")) as [->|_]; [|done].
  rewrite count_occ_cons_neq by discriminate. done.
Qed.

(** C7. Formatter idempotence: for every raw auto-notation string (a
    decimal numeral with at most one decimal point, optionally followed
    by a lowercase [e] exponent suffix), applying [formatNumber] twice
    gives the same string as applying it once. *)
Theorem formatNumber_idempotent (s : jstring) :
  raw_auto_notation s = true ->
  formatNumber (formatNumber s) = formatNumber s.
Proof.
  intros Hraw. unfold formatNumber. apply formatDisplay_idem.
  apply andb_prop in Hraw as [Hm _]. by apply decimal_numeral_points.
Qed.

Lemma formatNumber_idempotent_witness :
  raw_auto_notation (str "1234567.00") = true
  /\ formatNumber (formatNumber (str "1234567.00")) = formatNumber (str "1234567.00").
Proof.
  split; [reflexivity|]. apply (formatNumber_idempotent (str "1234567.00")). reflexivity.
Defined.

(** Two decimal points are one too many: the second pass strips again. *)
Example formatNumber_two_points :
  formatNumber (str "1.00.00") = str "1.00"
  /\ formatNumber (formatNumber (str "1.00.00")) = str "1".
Proof. split; vm_compute; reflexivity. Qed.

(** C8. The formatter maps the raw string [1234567.00] to [1,234,567]:
    the trailing zeros go together with the decimal point they leave
    bare, and the integer part is grouped by three digits. *)
Theorem formatNumber_example :
  replace_dot_zeros (str "1234567.00") = str "1234567"
  /\ group_thousands (str "1234567") = str "1,234,567"
  /\ formatNumber (str "1234567.00") = str "1,234,567".
Proof. repeat split; vm_compute; reflexivity. Qed.

(** ** Percent expansion *)

Lemma preprocessPercent_cons c s :
  preprocessPercent (c :: s) =
  match match_percent (c :: s) with
  | Some (lit, rest) => chr "(" :: lit ++ str "/100)" ++ preprocessPercent rest
  | None => c :: preprocessPercent s
  end.
Proof.
  simp preprocessPercent.
  generalize (Logic.inspect (match_percent (c :: s))).
  intros [[[lit rest]|] Hm]; cbn [preprocessPercent_unfold_clause_2];
    rewrite Hm; reflexivity.
Qed.

Lemma span_spec p s run rest :
  span p s = (run, rest) ->
  s = run ++ rest /\ forallb p run = true
  /\ match rest with c :: _ => p c = false | [] => True end.
Proof.
  revert run rest. induction s as [|c s IH]; intros run rest.
  - intros [= <- <-]. done.
  - cbn [span]. destruct (p c) eqn:Hc.
    + destruct (span p s) as [run' rest'] eqn:Hs. intros [= <- <-].
      destruct (IH _ _ eq_refl) as (-> & Hall & Hrest).
      split; [reflexivity|]. split; [|done]. cbn [forallb]. by rewrite Hc.
    + intros [= <- <-]. done.
Qed.

Lemma span_all p run rest :
  forallb p run = true ->
  match rest with c :: _ => p c = false | [] => True end ->
  span p (run ++ rest) = (run, rest).
Proof.
  intros Hall Hrest. induction run as [|c run IH].
  - destruct rest as [|c rest]; [done|]. cbn [app span]. by rewrite Hrest.
  - cbn [forallb] in Hall. apply andb_prop in Hall as [Hc Hall].
    cbn [app span]. by rewrite Hc, (IH Hall).
Qed.

(** A match of the percent pattern is a literal of digits and at most one
    point, then the percent sign. *)
Lemma match_percent_spec s lit rest :
  match_percent s = Some (lit, rest) ->
  s = lit ++ chr "%" :: rest /\ forallb literal_char lit = true.
Proof.
  unfold match_percent.
  destruct (span is_digit s) as [int r] eqn:Hs.
  apply span_spec in Hs as (-> & Hint & _).
  destruct int as [|d int]; [discriminate|].
  destruct r as [|c r1]; [discriminate|].
  assert (Hlit : forallb literal_char (d :: int) = true).
  { rewrite forallb_forall in Hint |- *. intros x Hx. unfold literal_char.
    by rewrite (Hint x Hx). }
  destruct (N.eqb_spec c (chr "%")) as [->|_]; [by intros [= <- <-]|].
  destruct (N.eqb_spec c (chr ".")) as [->|_]; [|discriminate].
  destruct (span is_digit r1) as [frac r2] eqn:Hs2.
  apply span_spec in Hs2 as (-> & Hfrac & _).
  destruct frac as [|d2 frac]; [discriminate|].
  destruct r2 as [|c2 r3]; [discriminate|].
  destruct (N.eqb_spec c2 (chr "%")) as [->|_]; [|discriminate].
  intros [= <- <-]. split.
  - cbn [app]. f_equal. by rewrite <- app_assoc.
  - apply forallb_forall. intros x Hx. rewrite app_comm_cons in Hx.
    apply in_app_or in Hx as [Hx|[<-|Hx]].
    + by apply (proj1 (forallb_forall _ _) Hlit).
    + reflexivity.
    + unfold literal_char. by rewrite (proj1 (forallb_forall _ _) Hfrac x Hx).
Qed.

(** A digit directly in front of a percent sign is the end of a match. *)
Lemma match_percent_digit d s :
  is_digit d = true -> match_percent (d :: chr "%" :: s) <> None.
Proof.
  intros Hd. unfold match_percent. cbn [span]. rewrite Hd.
  replace (is_digit (chr "%")) with false by reflexivity.
  by rewrite N.eqb_refl.
Qed.

Lemma digit_before_percent_app x y :
  ~ In (chr "%") x ->
  match last x with Some c => is_digit c = false | None => True end ->
  digit_before_percent (x ++ y) = digit_before_percent y.
Proof.
  intros Hx Hlast. induction x as [|c x IH]; [reflexivity|].
  cbn [app digit_before_percent].
  assert (Hx' : ~ In (chr "%") x) by (intros H; apply Hx; by right).
  destruct x as [|c' x].
  - cbn [app]. cbn [last] in Hlast. by rewrite Hlast.
  - rewrite last_cons_cons in Hlast. rewrite (IH Hx' Hlast). cbn [app].
    destruct (N.eqb_spec c' (chr "%")) as [->|_].
    + exfalso. apply Hx'. by left.
    + by rewrite andb_false_r.
Qed.

Lemma preprocessPercent_head line :
  head (preprocessPercent line) = Some (chr "%") -> head line = Some (chr "%").
Proof.
  destruct line as [|c s]; [done|]. rewrite preprocessPercent_cons.
  destruct (match_percent (c :: s)) as [[lit rest]|]; [discriminate|done].
Qed.

Lemma preprocessPercent_clean line :
  digit_before_percent (preprocessPercent line) = false.
Proof.
  remember (length line) as n eqn:Hn. revert line Hn.
  induction n as [n IH] using lt_wf_ind. intros line Hn.
  destruct line as [|c s]; [reflexivity|]. rewrite preprocessPercent_cons.
  destruct (match_percent (c :: s)) as [[lit rest]|] eqn:Hm.
  - pose proof (match_percent_shorter _ _ _ Hm) as Hlen.
    apply match_percent_spec in Hm as [_ Hlit].
    change (chr "(" :: lit ++ str "/100)" ++ preprocessPercent rest)
      with ((chr "(" :: lit) ++ str "/100)" ++ preprocessPercent rest).
    rewrite !app_assoc, digit_before_percent_app.
    + apply (IH (length rest)); [lia|reflexivity].
    + rewrite in_app_iff. intros [[H|H]|H].
      * discriminate H.
      * rewrite forallb_forall in Hlit. apply Hlit in H. discriminate H.
      * vm_compute in H. intuition discriminate.
    + rewrite last_app. reflexivity.
  - cbn [digit_before_percent].
    rewrite (IH (length s)) by (subst n; simpl; lia || reflexivity).
    rewrite orb_false_r.
    destruct (is_digit c) eqn:Hc; [|reflexivity]. cbn [andb].
    destruct (preprocessPercent s) as [|x out] eqn:Hout; [reflexivity|].
    destruct (N.eqb_spec x (chr "%")) as [->|_]; [|reflexivity].
    exfalso. pose proof (preprocessPercent_head s) as Hh. rewrite Hout in Hh.
    specialize (Hh eq_refl). destruct s as [|y s]; [discriminate|].
    injection Hh as ->. by apply (match_percent_digit c s Hc).
Qed.

Lemma match_percent_literal lit rest :
  numeric_literal lit = true ->
  match_percent (lit ++ chr "%" :: rest) = Some (lit, rest).
Proof.
  unfold numeric_literal, match_percent.
  destruct (span is_digit lit) as [int r] eqn:Hs.
  apply span_spec in Hs as (-> & Hint & Hr).
  destruct int as [|d int]; [discriminate|].
  destruct r as [|c frac].
  - intros _. rewrite app_nil_r. rewrite (span_all is_digit (d :: int)) by done.
    by rewrite N.eqb_refl.
  - destruct (N.eqb_spec c (chr ".")) as [->|_]; [|discriminate]. cbn [andb].
    destruct frac as [|d2 frac]; [discriminate|]. intros Hfrac.
    rewrite <- app_assoc. rewrite (span_all is_digit (d :: int)) by done.
    cbn [app]. replace (chr "." =? chr "%")%N with false by reflexivity.
    rewrite N.eqb_refl.
    change (d2 :: frac ++ chr "%" :: rest) with ((d2 :: frac) ++ chr "%" :: rest).
    rewrite (span_all is_digit (d2 :: frac)) by done.
    by rewrite N.eqb_refl.
Qed.

(** *** What percent expansion leaves alone, and literals anywhere *)

Lemma digit_before_percent_suffix x y :
  digit_before_percent y = true -> digit_before_percent (x ++ y) = true.
Proof.
  intros Hy. induction x as [|c x IH]; [done|].
  cbn [app digit_before_percent]. by rewrite IH, orb_true_r.
Qed.

Lemma digit_before_percent_run ds rest :
  ds <> [] -> forallb is_digit ds = true ->
  digit_before_percent (ds ++ chr "%" :: rest) = true.
Proof.
  induction ds as [|d ds IH]; [done|]. intros _ Hds. cbn [forallb] in Hds.
  apply andb_prop in Hds as [Hd Hds]. cbn [app digit_before_percent].
  destruct ds as [|d' ds].
  - cbn [app]. by rewrite Hd, N.eqb_refl.
  - rewrite IH by done. apply orb_true_r.
Qed.

Lemma match_percent_needs_digit s :
  match_percent s <> None -> digit_before_percent s = true.
Proof.
  unfold match_percent.
  destruct (span is_digit s) as [int r] eqn:Hs.
  apply span_spec in Hs as (-> & Hint & _).
  destruct int as [|d int]; [done|].
  destruct r as [|c r1]; [done|].
  destruct (N.eqb_spec c (chr "%")) as [->|_].
  { intros _. by apply digit_before_percent_run. }
  destruct (N.eqb_spec c (chr ".")) as [->|_]; [|done].
  destruct (span is_digit r1) as [frac r2] eqn:Hs2.
  apply span_spec in Hs2 as (-> & Hfrac & _).
  destruct frac as [|d2 frac]; [done|].
  destruct r2 as [|c2 r3]; [done|].
  destruct (N.eqb_spec c2 (chr "%")) as [->|_]; [|done].
  intros _. apply digit_before_percent_suffix.
  change (chr "." :: (d2 :: frac) ++ chr "%" :: r3)
    with ([chr "."] ++ (d2 :: frac) ++ chr "%" :: r3).
  apply digit_before_percent_suffix. by apply digit_before_percent_run.
Qed.

Lemma preprocessPercent_fixed line :
  digit_before_percent line = false -> preprocessPercent line = line.
Proof.
  induction line as [|c s IH]; [done|]. intros Hline.
  rewrite preprocessPercent_cons.
  destruct (match_percent (c :: s)) as [[lit rest]|] eqn:Hm.
  - rewrite match_percent_needs_digit in Hline; [done|]. by rewrite Hm.
  - f_equal. apply IH. cbn [digit_before_percent] in Hline.
    by apply orb_false_elim in Hline as [_ ?].
Qed.

Lemma span_app_stop p s run c rest more :
  span p s = (run, c :: rest) -> span p (s ++ more) = (run, c :: rest ++ more).
Proof.
  intros (-> & Hrun & Hc)%span_spec. rewrite <- app_assoc. cbn [app].
  by apply span_all.
Qed.

Lemma match_percent_app s lit rest more :
  match_percent s = Some (lit, rest) ->
  match_percent (s ++ more) = Some (lit, rest ++ more).
Proof.
  unfold match_percent. destruct (span is_digit s) as [int r] eqn:Hs.
  destruct int as [|d int]; [discriminate|]. destruct r as [|c r1]; [discriminate|].
  rewrite (span_app_stop _ _ _ _ _ more Hs).
  destruct (c =? chr "%")%N; [by intros [= <- <-]|].
  destruct (c =? chr ".")%N; [|discriminate].
  destruct (span is_digit r1) as [frac r2] eqn:Hs2.
  destruct frac as [|d2 frac]; [discriminate|]. destruct r2 as [|c2 r3]; [discriminate|].
  rewrite (span_app_stop _ _ _ _ _ more Hs2).
  destruct (c2 =? chr "%")%N; [by intros [= <- <-]|discriminate].
Qed.

Lemma forallb_last (p : char -> bool) (s : jstring) c :
  forallb p s = true -> last s = Some c -> p c = true.
Proof.
  intros Hs (s' & ->)%last_Some. rewrite forallb_app in Hs.
  apply andb_prop in Hs as [_ Hc]. cbn in Hc. by rewrite andb_true_r in Hc.
Qed.

Lemma whole_literal_digit pre lit c :
  last pre = Some c -> is_digit c = true -> whole_literal pre lit = false.
Proof. unfold whole_literal. intros -> ->. reflexivity. Qed.

Lemma numeric_literal_point lit :
  numeric_literal lit = true -> existsb (N.eqb (chr ".")) lit = true ->
  exists int frac, int <> [] /\ span is_digit lit = (int, chr "." :: frac).
Proof.
  unfold numeric_literal. destruct (span is_digit lit) as [int r] eqn:Hs.
  destruct int as [|d int]; [discriminate|].
  destruct r as [|c frac].
  - intros _ Hpoint. apply span_spec in Hs as (-> & Hint & _). rewrite app_nil_r in Hpoint.
    apply existsb_exists in Hpoint as (x & Hx & Heq). apply N.eqb_eq in Heq as <-.
    rewrite forallb_forall in Hint. by apply Hint in Hx.
  - destruct (N.eqb_spec c (chr ".")) as [->|_]; [|discriminate].
    intros _ _. by exists (d :: int), frac.
Qed.

Lemma match_percent_app_None s lit rest :
  s <> [] ->
  match_percent s = None ->
  numeric_literal lit = true ->
  whole_literal s lit = true ->
  match_percent (s ++ lit ++ chr "%" :: rest) = None.
Proof.
  intros Hs Hnone Hlit Hwhole. unfold match_percent in *.
  destruct (span is_digit s) as [int r] eqn:Hspan.
  destruct r as [|c r1].
  - exfalso. apply span_spec in Hspan as (-> & Hint & _). rewrite app_nil_r in *.
    destruct (last int) as [x|] eqn:Hlast.
    + rewrite (whole_literal_digit _ _ x Hlast) in Hwhole; [discriminate|].
      by apply (forallb_last _ int).
    + apply last_None in Hlast. done.
  - rewrite (span_app_stop _ _ _ _ _ _ Hspan).
    destruct int as [|d int]; [done|].
    destruct (c =? chr "%")%N; [discriminate|].
    destruct (N.eqb_spec c (chr ".")) as [->|_]; [|done].
    destruct (span is_digit r1) as [frac r2] eqn:Hspan2.
    destruct r2 as [|c2 r3].
    + apply span_spec in Hspan2 as (-> & Hfrac & _). rewrite app_nil_r in *.
      apply span_spec in Hspan as (-> & Hint & _).
      destruct frac as [|d2 frac].
      * cbn [app]. unfold whole_literal in Hwhole.
        rewrite last_snoc, removelast_last in Hwhole.
        assert (Hd : exists x, last (d :: int) = Some x /\ is_digit x = true).
        { destruct (last (d :: int)) as [x|] eqn:Hlast.
          - exists x. split; [done|]. by apply (forallb_last _ (d :: int)).
          - by apply last_None in Hlast. }
        destruct Hd as (x & Hlast & Hx). rewrite Hlast, Hx in Hwhole.
        rewrite N.eqb_refl in Hwhole. cbn [negb orb andb] in Hwhole.
        replace (is_digit (chr ".")) with false in Hwhole by reflexivity.
        cbn [negb andb] in Hwhole. rewrite orb_false_r in Hwhole.
        destruct (numeric_literal_point lit Hlit Hwhole) as (int2 & frac2 & Hint2 & Hs2).
        rewrite (span_app_stop _ _ _ _ _ _ Hs2). by destruct int2.
      * exfalso.
        assert (Hlast : exists x, last ((d :: int) ++ chr "." :: d2 :: frac) = Some x
                                  /\ is_digit x = true).
        { rewrite last_app. destruct (last (chr "." :: d2 :: frac)) as [x|] eqn:Hlast.
          - exists x. split; [done|]. rewrite last_cons_cons in Hlast.
            by apply (forallb_last _ (d2 :: frac)).
          - by apply last_None in Hlast. }
        destruct Hlast as (x & Hlast & Hx).
        by rewrite (whole_literal_digit _ _ x Hlast Hx) in Hwhole.
    + rewrite (span_app_stop _ _ _ _ _ _ Hspan2). destruct frac; [done|].
      by destruct (c2 =? chr "%")%N.
Qed.

Lemma whole_literal_suffix a r lit :
  r <> [] -> whole_literal (a ++ r) lit = true -> whole_literal r lit = true.
Proof.
  intros Hr. unfold whole_literal. rewrite last_app.
  destruct (last r) as [c|] eqn:Hlast; [|by apply last_None in Hlast].
  rewrite removelast_app by done. rewrite last_app.
  destruct (last (removelast r)); [done|].
  intros [Hc _]%andb_prop. rewrite Hc. cbn. by rewrite orb_true_r.
Qed.

Lemma preprocessPercent_literal_anywhere pre lit rest :
  numeric_literal lit = true ->
  whole_literal pre lit = true ->
  preprocessPercent (pre ++ lit ++ chr "%" :: rest)
  = preprocessPercent pre ++ chr "(" :: lit ++ str "/100)" ++ preprocessPercent rest.
Proof.
  intros Hlit. remember (length pre) as n eqn:Hn. revert pre Hn.
  induction n as [n IH] using lt_wf_ind. intros pre Hn Hwhole.
  destruct pre as [|c s].
  - cbn [app]. pose proof (match_percent_literal lit rest Hlit) as Hm.
    destruct lit as [|x lit]; [discriminate|].
    cbn [app] in Hm |- *. rewrite preprocessPercent_cons, Hm.
    simp preprocessPercent. reflexivity.
  - rewrite (preprocessPercent_cons c s). change ((c :: s) ++ ?x) with (c :: s ++ x).
    rewrite preprocessPercent_cons. change (c :: s ++ ?x) with ((c :: s) ++ x).
    destruct (match_percent (c :: s)) as [[l r]|] eqn:Hm.
    + rewrite (match_percent_app _ _ _ _ Hm).
      pose proof (match_percent_shorter _ _ _ Hm) as Hlen.
      apply match_percent_spec in Hm as [Hpre _].
      rewrite (IH (length r)); [|subst n; exact Hlen|reflexivity|].
      * cbn [app]. by rewrite <- !app_assoc.
      * destruct r as [|x r]; [reflexivity|].
        rewrite Hpre in Hwhole. change (l ++ chr "%" :: x :: r) with (l ++ [chr "%"] ++ x :: r) in Hwhole.
        rewrite app_assoc in Hwhole. by apply whole_literal_suffix in Hwhole.
    + rewrite (match_percent_app_None (c :: s) lit rest); [|done|done|done|done].
      change ((c :: s) ++ ?x) with (c :: s ++ x).
      rewrite (IH (length s)); [reflexivity|subst n; simpl; lia|reflexivity|].
      destruct s as [|x s]; [reflexivity|].
      by apply (whole_literal_suffix [c]) in Hwhole.
Qed.

Lemma digit_suffix (s : jstring) :
  exists a run,
    s = a ++ run /\ forallb is_digit run = true
    /\ match last a with Some c => is_digit c = false | None => True end.
Proof.
  induction s as [|c s IH] using rev_ind.
  - by exists [], [].
  - destruct IH as (a & run & -> & Hrun & Ha). destruct (is_digit c) eqn:Hc.
    + exists a, (run ++ [c]). split; [by rewrite app_assoc|]. split; [|done].
      rewrite forallb_app, Hrun. cbn. by rewrite Hc.
    + exists ((a ++ run) ++ [c]), []. split; [by rewrite app_nil_r|]. split; [done|].
      by rewrite last_snoc.
Qed.

Lemma literal_before_percent (x : jstring) d :
  is_digit d = true ->
  exists pre lit,
    x ++ [d] = pre ++ lit /\ numeric_literal lit = true /\ whole_literal pre lit = true.
Proof.
  intros Hd. destruct (digit_suffix x) as (a & run2 & -> & Hrun2 & Ha).
  assert (Hdigits : forallb is_digit (run2 ++ [d]) = true).
  { rewrite forallb_app, Hrun2. cbn. by rewrite Hd. }
  assert (Hnum : numeric_literal (run2 ++ [d]) = true).
  { unfold numeric_literal.
    rewrite <- (app_nil_r (run2 ++ [d])), (span_all is_digit (run2 ++ [d]) []) by done.
    by destruct run2. }
  assert (Hplain : (match last a with
                    | Some c => c <> chr "."
                                \/ match last (removelast a) with
                                   | Some x => is_digit x = false
                                   | None => True
                                   end
                    | None => True
                    end) ->
                   exists pre lit,
                     (a ++ run2) ++ [d] = pre ++ lit /\ numeric_literal lit = true
                     /\ whole_literal pre lit = true).
  { intros Hcase. exists a, (run2 ++ [d]). split; [by rewrite app_assoc|]. split; [done|].
    unfold whole_literal. destruct (last a) as [c|]; [|done]. rewrite Ha. cbn [negb andb].
    destruct Hcase as [Hc|Hbefore].
    - by destruct (N.eqb_spec c (chr ".")).
    - destruct (last (removelast a)) as [y|]; [rewrite Hbefore|]; cbn;
        by rewrite !orb_true_r. }
  destruct (last a) as [c|] eqn:Hlast; [|by apply Hplain].
  destruct (N.eqb_spec c (chr ".")) as [->|Hc]; [|apply Hplain; by left].
  apply last_Some in Hlast as [a' ->]. rewrite removelast_last in Hplain.
  destruct (digit_suffix a') as (b & run1 & -> & Hrun1 & Hb).
  destruct run1 as [|d1 run1].
  - apply Hplain. right. rewrite app_nil_r. by destruct (last b).
  - exists b, ((d1 :: run1) ++ chr "." :: run2 ++ [d]). split.
    + by rewrite <- !app_assoc.
    + split.
      * unfold numeric_literal. rewrite (span_all is_digit (d1 :: run1)) by done.
        cbn [N.eqb andb]. rewrite N.eqb_refl. cbn [andb]. by destruct run2.
      * unfold whole_literal. destruct (last b) as [y|]; [|done]. rewrite Hb.
        cbn [negb andb]. rewrite existsb_app. cbn [existsb]. rewrite N.eqb_refl.
        by rewrite !orb_true_r.
Qed.

(** C10, as amended.  The output of percent expansion has no digit
    directly in front of a percent sign.  A percent sign that directly
    follows a numeric literal, anywhere in the line, is rewritten to a
    division of that literal by 100, the text before the literal and
    the text after the sign being expanded on their own; and every
    percent sign directly after a digit ends such a literal.  So [10%3]
    is passed on as [(10/100)3] and [200 * 50%] as [200 * (50/100)].  A
    line in which no percent sign directly follows a digit is passed on
    as it is: in [10 % 3], with a space after the literal, the sign
    stays. *)
Theorem preprocessPercent_leaves_no_literal_percent :
  (forall line, digit_before_percent (preprocessPercent line) = false)
  /\ (forall pre lit rest,
        numeric_literal lit = true ->
        whole_literal pre lit = true ->
        preprocessPercent (pre ++ lit ++ chr "%" :: rest)
        = preprocessPercent pre ++ chr "(" :: lit ++ str "/100)" ++ preprocessPercent rest)
  /\ (forall before d rest,
        is_digit d = true ->
        exists pre lit,
          before ++ [d] = pre ++ lit
          /\ numeric_literal lit = true /\ whole_literal pre lit = true
          /\ preprocessPercent (before ++ d :: chr "%" :: rest)
             = preprocessPercent pre ++ chr "(" :: lit ++ str "/100)"
               ++ preprocessPercent rest)
  /\ (forall line, digit_before_percent line = false -> preprocessPercent line = line)
  /\ preprocessPercent (str "10%3") = str "(10/100)3"
  /\ preprocessPercent (str "200 * 50%") = str "200 * (50/100)"
  /\ preprocessPercent (str "10 % 3") = str "10 % 3".
Proof.
  split; [exact preprocessPercent_clean|].
  split; [exact preprocessPercent_literal_anywhere|].
  split; [|split; [exact preprocessPercent_fixed|repeat split; vm_compute; reflexivity]].
  intros before d rest Hd.
  destruct (literal_before_percent before d Hd) as (pre & lit & Heq & Hlit & Hwhole).
  exists pre, lit. split; [done|]. split; [done|]. split; [done|].
  rewrite <- (preprocessPercent_literal_anywhere pre lit rest Hlit Hwhole).
  rewrite app_assoc, <- Heq, <- app_assoc. reflexivity.
Qed.

Lemma preprocessPercent_leaves_no_literal_percent_witness :
  digit_before_percent (preprocessPercent (str "2.5% of 10%3 %")) = false
  /\ preprocessPercent (str "x = " ++ str "2.5" ++ chr "%" :: str " of 8%")
     = preprocessPercent (str "x = ") ++ chr "(" :: str "2.5" ++ str "/100)"
       ++ preprocessPercent (str " of 8%")
  /\ preprocessPercent (str "1 % 2") = str "1 % 2".
Proof.
  destruct preprocessPercent_leaves_no_literal_percent
    as (Hclean & Hliteral & _ & Hfixed & _).
  split; [apply Hclean|]. split; [apply Hliteral; reflexivity|].
  apply Hfixed. reflexivity.
Defined.

(** The claim as it is worded fails where white space separates the
    literal from the sign: [10] is the left operand of the percent sign
    of [10 % 3], the line is not skipped, and the engine is called with
    the line as it was written, percent sign included. *)
Lemma percent_after_space_reaches_engine :
  numeric_literal (str "10") = true
  /\ skipped Sample.value N Sample.start (JS.trim (str "10 % 3")) = false
  /\ engine_line Sample.value N Sample.letter is_digit Sample.format
       Sample.start (JS.trim (str "10 % 3")) = str "10 % 3"
  /\ ~ (forall lit gap rest,
          numeric_literal lit = true ->
          forallb JS.is_white_space gap = true ->
          ~ In (chr "%") rest ->
          ~ In (chr "%") (preprocessPercent (lit ++ gap ++ chr "%" :: rest))).
Proof.
  split; [reflexivity|]. split; [reflexivity|]. split; [vm_compute; reflexivity|].
  intros Hclaim.
  apply (Hclaim (str "10") (str " ") (str " 3")); [reflexivity|reflexivity| |].
  - intros H. vm_compute in H. repeat (destruct H as [H|H]; [discriminate H|]). destruct H.
  - vm_compute. do 3 right. left. reflexivity.
Qed.

(** ** Alias allocation *)

Lemma uint_chars_inj d1 d2 : uint_chars d1 = uint_chars d2 -> d1 = d2.
Proof.
  revert d2. induction d1 as [|d1 IH|d1 IH|d1 IH|d1 IH|d1 IH|d1 IH|d1 IH|d1 IH|d1 IH|d1 IH];
    intros [|d2|d2|d2|d2|d2|d2|d2|d2|d2|d2] H; try discriminate H;
    try reflexivity; injection H as H; f_equal; by apply IH.
Qed.

Lemma alias_name_inj n1 n2 : alias_name n1 = alias_name n2 -> n1 = n2.
Proof.
  unfold alias_name, number_to_string. intros H. apply app_inv_head in H.
  by apply DecimalN.Unsigned.to_uint_inj, uint_chars_inj.
Qed.

Lemma alias_name_cons n : exists c alias, alias_name n = c :: alias.
Proof. by eexists _, _. Qed.

Lemma request_all_app names1 names2 mapping0 :
  request_all (names1 ++ names2) mapping0 =
  let '(aliases1, mapping1) := request_all names1 mapping0 in
  let '(aliases2, mapping2) := request_all names2 mapping1 in
  (aliases1 ++ aliases2, mapping2).
Proof.
  revert mapping0. induction names1 as [|name names1 IH]; intros mapping0.
  - cbn [app request_all]. by destruct (request_all names2 mapping0).
  - cbn [app request_all]. destruct (getAlias mapping0 name) as [alias mapping1].
    rewrite IH. destruct (request_all names1 mapping1) as [aliases1 mapping2].
    by destruct (request_all names2 mapping2).
Qed.

Lemma distinct_names_snoc names name :
  distinct_names (names ++ [name]) =
  if decide (name ∈ distinct_names names) then distinct_names names
  else distinct_names names ++ [name].
Proof. unfold distinct_names. by rewrite fold_left_app. Qed.

Lemma distinct_names_NoDup names : NoDup (distinct_names names).
Proof.
  induction names as [|name names IH] using rev_ind; [constructor|].
  rewrite distinct_names_snoc. case_decide; [done|].
  apply NoDup_app. split; [done|]. split; [|apply NoDup_singleton].
  intros x Hx ->%list_elem_of_singleton. done.
Qed.

Lemma elem_of_distinct_names name names :
  name ∈ distinct_names names <-> name ∈ names.
Proof.
  induction names as [|x names IH] using rev_ind; [done|].
  rewrite distinct_names_snoc, elem_of_app, list_elem_of_singleton, <- IH.
  case_decide as Hx; [|by rewrite elem_of_app, list_elem_of_singleton].
  split; [by left|]. by intros [?| ->].
Qed.

Lemma fresh_mapping_tracks : mapping_tracks [] fresh_mapping.
Proof. split; [done|]. split; [by intros k name|]. intros name _. apply lookup_empty. Qed.

Lemma getAlias_known seen mapping0 k name :
  mapping_tracks seen mapping0 -> seen !! k = Some name ->
  getAlias mapping0 name = (alias_name (N.of_nat k), mapping0).
Proof.
  intros (_ & Hknown & _) Hk. unfold getAlias. rewrite (Hknown k name Hk).
  by destruct (alias_name_cons (N.of_nat k)) as (c & alias & ->).
Qed.

Lemma getAlias_new seen mapping0 name :
  mapping_tracks seen mapping0 -> name ∉ seen ->
  (getAlias mapping0 name).1 = alias_name (N.of_nat (length seen))
  /\ mapping_tracks (seen ++ [name]) (getAlias mapping0 name).2.
Proof.
  intros (Hcount & Hknown & Hnew) Hname. unfold getAlias.
  rewrite (Hnew name Hname), Hcount. cbn [fst snd]. split; [done|].
  split; [|split]; cbn [counter cnToAlias].
  - rewrite length_app. simpl. lia.
  - intros k x Hk. apply lookup_snoc_Some in Hk as [[Hlt Hk]|[-> ->]].
    + rewrite lookup_insert_ne; [by apply Hknown|].
      intros ->. apply Hname. by eapply list_elem_of_lookup_2.
    + apply lookup_insert_eq.
  - intros x Hx. rewrite elem_of_app, list_elem_of_singleton in Hx.
    rewrite lookup_insert_ne by (intros ->; apply Hx; by right).
    apply Hnew. intros H. apply Hx. by left.
Qed.

Lemma request_all_tracked names :
  mapping_tracks (distinct_names names) (request_all names fresh_mapping).2
  /\ length (request_all names fresh_mapping).1 = length names
  /\ forall i name k,
       names !! i = Some name -> distinct_names names !! k = Some name ->
       (request_all names fresh_mapping).1 !! i = Some (alias_name (N.of_nat k)).
Proof.
  induction names as [|x names IH] using rev_ind.
  - split; [apply fresh_mapping_tracks|]. split; [done|]. by intros i name k.
  - destruct IH as (Htracks & Hlen & Hget).
    pose proof (distinct_names_NoDup names) as Hnodup.
    rewrite request_all_app, distinct_names_snoc.
    destruct (request_all names fresh_mapping) as [aliases mapping1].
    cbn [fst snd] in Htracks, Hlen, Hget. cbn [request_all].
    destruct (getAlias mapping1 x) as [alias mapping2] eqn:Halias. cbn [fst snd].
    case_decide as Hx.
    + apply list_elem_of_lookup in Hx as [k0 Hk0].
      rewrite (getAlias_known _ _ _ _ Htracks Hk0) in Halias.
      injection Halias as <- <-.
      split; [done|]. split; [rewrite !length_app, Hlen; done|].
      intros i name k Hi Hk. apply lookup_snoc_Some in Hi as [[Hlt Hi]|[-> ->]].
      * rewrite lookup_app_l by lia. by apply (Hget i name k).
      * rewrite <- Hlen, list_lookup_middle by done.
        by rewrite (NoDup_lookup _ _ _ _ Hnodup Hk Hk0).
    + destruct (getAlias_new _ _ _ Htracks Hx) as [Hfst Hsnd].
      rewrite Halias in Hfst, Hsnd. cbn [fst snd] in Hfst, Hsnd. subst alias.
      split; [done|]. split; [rewrite !length_app, Hlen; done|].
      intros i name k Hi Hk.
      apply lookup_snoc_Some in Hi as [[Hlt Hi]|[Hi Hname]];
        apply lookup_snoc_Some in Hk as [[Hltk Hk]|[Hk Hname']].
      * rewrite lookup_app_l by lia. by apply (Hget i name k).
      * exfalso. subst name. apply Hx, elem_of_distinct_names.
        by eapply list_elem_of_lookup_2.
      * exfalso. subst name. apply Hx. by eapply list_elem_of_lookup_2.
      * subst i k. by rewrite <- Hlen, list_lookup_middle.
Qed.

(** Over a sequence of requests on a fresh mapping, the [k]-th distinct
    name requested, counting from 0, gets [_v{k}] at every request, and
    two requests return the same alias exactly when they are for the same
    name. *)
Lemma request_all_stable_injective (names : list jstring) :
  (forall i name k,
      names !! i = Some name ->
      distinct_names names !! k = Some name ->
      (request_all names fresh_mapping).1 !! i = Some (alias_name (N.of_nat k)))
  /\ (forall i j name1 name2 alias1 alias2,
        names !! i = Some name1 -> names !! j = Some name2 ->
        (request_all names fresh_mapping).1 !! i = Some alias1 ->
        (request_all names fresh_mapping).1 !! j = Some alias2 ->
        (name1 = name2 <-> alias1 = alias2)).
Proof.
  destruct (request_all_tracked names) as (_ & _ & Hget).
  split; [exact Hget|].
  intros i j name1 name2 alias1 alias2 Hi Hj Ha1 Ha2.
  assert (H1 : name1 ∈ distinct_names names)
    by (apply elem_of_distinct_names; by eapply list_elem_of_lookup_2).
  assert (H2 : name2 ∈ distinct_names names)
    by (apply elem_of_distinct_names; by eapply list_elem_of_lookup_2).
  apply list_elem_of_lookup in H1 as [k1 Hk1], H2 as [k2 Hk2].
  rewrite (Hget i name1 k1 Hi Hk1) in Ha1. rewrite (Hget j name2 k2 Hj Hk2) in Ha2.
  injection Ha1 as <-. injection Ha2 as <-. split.
  - intros <-. by rewrite (NoDup_lookup _ _ _ _ (distinct_names_NoDup names) Hk1 Hk2).
  - intros Heq%alias_name_inj%Nat2N.inj. subst k2. congruence.
Qed.



(** ** The driver *)

Section DriverProperties.

Context {Value Num : Type} (num_zero : Num).
Context (unicode_L unicode_N : char -> bool).
Context (math_evaluate :
           jstring -> gmap jstring (unknown Value) ->
           gmap jstring (unknown Value) * completion (unknown Value)).
Context (math_typeOf : unknown Value -> jstring).
Context (math_format : unknown Value -> jstring).
Context (math_number : unknown Value -> completion Num).

#[local] Abbreviation state := (PassState Value Num).
#[local] Abbreviation blank := (blank_result Num num_zero).
#[local] Abbreviation replaceVars := (replaceChineseVars unicode_L unicode_N).
#[local] Abbreviation chained := (chain Value Num math_format).
#[local] Abbreviation to_engine := (engine_line Value Num unicode_L unicode_N math_format).
#[local] Abbreviation concluded :=
  (conclude Value Num num_zero math_typeOf math_format math_number).
#[local] Abbreviation assembled :=
  (evaluate_assembled Value Num num_zero unicode_L unicode_N
     math_evaluate math_typeOf math_format math_number).
#[local] Abbreviation process :=
  (process_line Value Num num_zero unicode_L unicode_N
     math_evaluate math_typeOf math_format math_number).
#[local] Abbreviation run :=
  (run_lines Value Num num_zero unicode_L unicode_N
     math_evaluate math_typeOf math_format math_number).
#[local] Abbreviation calc :=
  (calculate Value Num num_zero unicode_L unicode_N
     math_evaluate math_typeOf math_format math_number).

(** An eligible line goes through the [try] block: the engine is called
    once, with [engine_line] and [engine_scope]. *)
Lemma process_line_eligible (st : state) raw :
  skipped Value Num st (JS.trim raw) = false ->
  process st raw =
  concluded st (replaceVars (preprocessPercent (chained st (JS.trim raw))) (mapping _ _ st)).2
    (math_evaluate (to_engine st (JS.trim raw)) (engine_scope Value Num st)).
Proof.
  unfold skipped, process_line, evaluate_assembled, engine_line, engine_scope.
  destruct (JS.trim raw) as [|c line]; [discriminate|].
  intros H. apply orb_false_elim in H as [H Hprose].
  apply orb_false_elim in H as [Hcomment Hsep].
  rewrite Hcomment, Hsep, Hprose.
  by destruct (replaceVars _ _).
Qed.

Lemma process_line_skipped (st : state) raw :
  skipped Value Num st (JS.trim raw) = true ->
  process st raw = push Value Num blank st.
Proof.
  unfold skipped, process_line.
  destruct (JS.trim raw) as [|c line]; [done|].
  destruct (JS.startsWith _ _); [done|]. destruct (is_separator _); [done|].
  cbn [orb]. by intros ->.
Qed.

(** Every iteration pushes exactly one result. *)
Lemma process_line_results (st : state) raw :
  exists r, results _ _ (process st raw) = results _ _ st ++ [r].
Proof.
  destruct (skipped Value Num st (JS.trim raw)) eqn:Hs.
  - rewrite (process_line_skipped _ _ Hs). by eexists.
  - rewrite (process_line_eligible _ _ Hs). unfold conclude.
    destruct (math_evaluate _ _) as [scope1 [result|]]; [|by eexists].
    destruct (resultToDisplay _ _ _ _); by eexists.
Qed.

Lemma run_lines_app (st : state) raws1 raws2 :
  run st (raws1 ++ raws2) = run (run st raws1) raws2.
Proof. apply fold_left_app. Qed.

Lemma run_lines_results (st : state) raws :
  exists rs, results _ _ (run st raws) = results _ _ st ++ rs
             /\ length rs = length raws.
Proof.
  revert st. induction raws as [|raw raws IH]; intros st.
  - exists []. by rewrite app_nil_r.
  - destruct (process_line_results st raw) as [r Hr].
    destruct (IH (process st raw)) as (rs & Hrs & Hlen).
    exists (r :: rs). change (run st (raw :: raws)) with (run (process st raw) raws).
    rewrite Hrs, Hr, <- app_assoc. split; [done|]. simpl. by rewrite Hlen.
Qed.

Lemma split_length sep s :
  length (JS.split sep s) = S (count_occ N.eq_dec s sep).
Proof.
  induction s as [|c s IH]; [reflexivity|]. cbn [JS.split count_occ].
  destruct (N.eqb_spec c sep) as [->|Hne].
  - destruct (N.eq_dec sep sep); [|done]. simpl. by rewrite IH.
  - destruct (N.eq_dec c sep); [done|].
    destruct (JS.split sep s); [discriminate|]. exact IH.
Qed.

(** C1. [calculate] produces exactly one result per input line, the
    lines being the pieces of the document between newline characters:
    there are as many results as lines, and the result at the index of
    a line is the one pushed while that line was processed. *)
Theorem calculate_one_result_per_line (text : jstring) :
  length (lines (calc text)) = length (JS.split newline text)
  /\ length (lines (calc text)) = S (count_occ N.eq_dec text newline)
  /\ forall before raw after,
       JS.split newline text = before ++ raw :: after ->
       lines (calc text) !! length before
       = last (results _ _ (process (run (initial_state Value Num) before) raw)).
Proof.
  unfold calculate. cbn [lines].
  destruct (run_lines_results (initial_state Value Num) (JS.split newline text))
    as (rs & Hrs & Hlen).
  cbn [results initial_state app] in Hrs.
  split; [by rewrite Hrs|]. split; [rewrite Hrs, Hlen; apply split_length|].
  intros before raw after Hsplit.
  destruct (run_lines_results (initial_state Value Num) before) as (rs1 & Hrs1 & Hlen1).
  cbn [results initial_state app] in Hrs1.
  destruct (process_line_results (run (initial_state Value Num) before) raw) as [r Hr].
  destruct (run_lines_results (process (run (initial_state Value Num) before) raw) after)
    as (rs2 & Hrs2 & _).
  assert (Hall : results _ _ (run (initial_state Value Num) (JS.split newline text))
                 = rs1 ++ r :: rs2).
  { rewrite Hsplit, run_lines_app.
    change (run (run (initial_state Value Num) before) (raw :: after))
      with (run (process (run (initial_state Value Num) before) raw) after).
    by rewrite Hrs2, Hr, Hrs1, <- app_assoc. }
  rewrite Hall, Hr, last_snoc, <- Hlen1. by apply list_lookup_middle.
Qed.

(** C5. A blank line, a comment, a separator and a line of prose each
    give a blank result and leave the previous answer, the scope and
    the alias table as they were. *)
Theorem skipped_line_is_blank (st : state) raw :
  JS.trim raw = []
  \/ JS.startsWith (chr "#") (JS.trim raw) = true
  \/ is_separator (JS.trim raw) = true
  \/ is_prose Value Num st (JS.trim raw) = true ->
  results _ _ (process st raw)
  = results _ _ st ++ [{| display := None; numeric := num_zero; error := false |}]
  /\ previousAnswer _ _ (process st raw) = previousAnswer _ _ st
  /\ scope _ _ (process st raw) = scope _ _ st
  /\ mapping _ _ (process st raw) = mapping _ _ st.
Proof.
  intros Hclass. rewrite process_line_skipped; [done|].
  unfold skipped. destruct (JS.trim raw) as [|c line]; [done|].
  destruct Hclass as [H | [H | [H | H]]]; [done| | |]; rewrite H;
    by rewrite ?orb_true_r.
Qed.

(** C2. When the engine throws on a line, the result stored is the
    error result and the previous answer stays what it was, so that the
    scope of the next call still binds [ans] to the last value that
    was computed. *)
Theorem engine_error_keeps_previous_answer (st : state) raw scope1 :
  skipped Value Num st (JS.trim raw) = false ->
  math_evaluate (to_engine st (JS.trim raw)) (engine_scope Value Num st)
  = (scope1, Throw) ->
  results _ _ (process st raw)
  = results _ _ st ++ [{| display := None; numeric := num_zero; error := true |}]
  /\ previousAnswer _ _ (process st raw) = previousAnswer _ _ st
  /\ (not_null Value (previousAnswer _ _ st) = true ->
      engine_scope Value Num (process st raw) !! str "ans"
      = Some (previousAnswer _ _ st)).
Proof.
  intros Hs Hthrow. rewrite (process_line_eligible _ _ Hs), Hthrow.
  cbn [conclude results previousAnswer]. split; [done|]. split; [done|].
  intros Hprev. unfold engine_scope, bind_ans. cbn [previousAnswer scope].
  rewrite Hprev. apply lookup_insert_eq.
Qed.

(** C9. When the engine returns a value whose type is neither
    [BigNumber] nor [number], the result stored is the blank result,
    not the error result, and the previous answer is not updated. *)
Theorem non_numeric_result_is_blank (st : state) raw scope1 result :
  skipped Value Num st (JS.trim raw) = false ->
  math_evaluate (to_engine st (JS.trim raw)) (engine_scope Value Num st)
  = (scope1, Normal result) ->
  math_typeOf result <> str "BigNumber" ->
  math_typeOf result <> str "number" ->
  results _ _ (process st raw)
  = results _ _ st ++ [{| display := None; numeric := num_zero; error := false |}]
  /\ previousAnswer _ _ (process st raw) = previousAnswer _ _ st.
Proof.
  intros Hs Hret Hbig Hnum. rewrite (process_line_eligible _ _ Hs), Hret.
  cbn [conclude].
  assert (Hdisplay : resultToDisplay Value math_typeOf math_format result = None).
  { unfold resultToDisplay. destruct result; [done|done|].
    rewrite !bool_decide_eq_false_2 by done. done. }
  by rewrite Hdisplay.
Qed.

(** *** Alias substitution *)

Lemma scan_identifiers_cons c s :
  scan_identifiers unicode_L unicode_N (c :: s) =
  match match_identifier unicode_L unicode_N (c :: s) with
  | Some (name, rest) => Matched name :: scan_identifiers unicode_L unicode_N rest
  | None => Plain c :: scan_identifiers unicode_L unicode_N s
  end.
Proof.
  simp scan_identifiers.
  generalize (Logic.inspect (match_identifier unicode_L unicode_N (c :: s))).
  intros [[[name rest]|] Hm]; cbn [scan_identifiers_unfold_clause_2];
    rewrite Hm; reflexivity.
Qed.

Lemma match_identifier_spec s name rest :
  match_identifier unicode_L unicode_N s = Some (name, rest) ->
  s = name ++ rest /\ (length rest < length s)%nat.
Proof.
  destruct s as [|c s]; [discriminate|]. cbn [match_identifier].
  destruct (ident_start unicode_L c); [|discriminate].
  destruct (span _ s) as [more r] eqn:Hs. intros [= <- <-].
  pose proof (span_length (ident_part unicode_L unicode_N) s) as Hlen.
  rewrite Hs in Hlen. apply span_spec in Hs as (-> & _ & _).
  split; [reflexivity|]. simpl in *. lia.
Qed.

(** A line of ASCII characters has no identifier to alias: it goes
    through unchanged, and so does the mapping. *)
Lemma replaceChineseVars_ascii line mapping0 :
  hasUnicodeLetter line = false ->
  replaceVars line mapping0 = (line, mapping0).
Proof.
  unfold replaceChineseVars.
  remember (length line) as n eqn:Hn. revert line Hn.
  induction n as [n IH] using lt_wf_ind. intros line Hn Hascii.
  destruct line as [|c s]; [reflexivity|]. rewrite scan_identifiers_cons.
  destruct (match_identifier _ _ (c :: s)) as [[name rest]|] eqn:Hm.
  - apply match_identifier_spec in Hm as [Heq Hlen]. rewrite Heq in Hascii.
    unfold hasUnicodeLetter in Hascii. rewrite existsb_app in Hascii.
    apply orb_false_elim in Hascii as [Hname Hrest].
    cbn [substitute]. unfold replace_match, hasUnicodeLetter. rewrite Hname.
    rewrite (IH (length rest)) by (done || lia). by rewrite Heq.
  - cbn [substitute]. unfold hasUnicodeLetter in Hascii. cbn [existsb] in Hascii.
    apply orb_false_elim in Hascii as [_ Hrest].
    by rewrite (IH (length s)) by (done || subst n; simpl; lia).
Qed.

(** *** Chaining and the order of the preprocessing steps *)

(** C4. With a previous answer, an eligible trimmed line that starts
    with one of [+ - * /] is evaluated as the line made of the previous
    answer's raw formatted string followed by it: that string is what
    percent expansion, alias substitution and the engine then see.  So
    [* 80%] after an answer formatted [100] reaches the engine as
    [100* (80/100)]. *)
Theorem chained_line_is_prefixed :
  (forall (st : state) raw,
      not_null Value (previousAnswer _ _ st) = true ->
      skipped Value Num st (JS.trim raw) = false ->
      starts_with_operator (JS.trim raw) = true ->
      to_engine st (JS.trim raw)
      = (replaceVars
           (preprocessPercent (math_format (previousAnswer _ _ st) ++ JS.trim raw))
           (mapping _ _ st)).1
      /\ process st raw
         = assembled st (math_format (previousAnswer _ _ st) ++ JS.trim raw))
  /\ (forall st : state,
        not_null Value (previousAnswer _ _ st) = true ->
        math_format (previousAnswer _ _ st) = str "100" ->
        to_engine st (str "* 80%") = str "100* (80/100)").
Proof.
  split.
  - intros st raw Hprev Hs Hop. unfold engine_line, chain. rewrite Hprev, Hop.
    split; [reflexivity|].
    unfold skipped in Hs. unfold process_line, chain.
    destruct (JS.trim raw) as [|c line]; [discriminate|].
    apply orb_false_elim in Hs as [Hs Hprose].
    apply orb_false_elim in Hs as [Hcomment Hsep].
    by rewrite Hcomment, Hsep, Hprose, Hprev, Hop.
  - intros st Hprev Hfmt. unfold engine_line, chain. rewrite Hprev, Hfmt.
    replace (starts_with_operator (str "* 80%")) with true by reflexivity.
    cbn [andb].
    replace (preprocessPercent (str "100" ++ str "* 80%")) with (str "100* (80/100)")
      by (vm_compute; reflexivity).
    by rewrite replaceChineseVars_ascii.
Qed.

Lemma match_percent_head c s :
  match_percent (c :: s) <> None -> is_digit c = true.
Proof.
  unfold match_percent. cbn [span]. destruct (is_digit c); [done|]. by intros [].
Qed.

Lemma digit_not_operator c :
  is_digit c = true -> existsb (N.eqb c) BINARY_OPERATORS = false.
Proof.
  unfold is_digit. intros H. apply andb_prop in H as [Hlo Hhi].
  apply N.leb_le in Hlo, Hhi. cbn [existsb BINARY_OPERATORS].
  repeat match goal with
         | |- context [(c =? ?x)%N] =>
             destruct (N.eqb_spec c x) as [->|_]; [vm_compute in Hlo, Hhi; by intuition|]
         end.
  reflexivity.
Qed.

(** Percent expansion does not change whether a line starts with an
    operator. *)
Lemma starts_with_operator_percent line :
  starts_with_operator (preprocessPercent line) = starts_with_operator line.
Proof.
  destruct line as [|c s]; [reflexivity|]. rewrite preprocessPercent_cons.
  destruct (match_percent (c :: s)) as [[lit rest]|] eqn:Hm; [|reflexivity].
  cbn [starts_with_operator]. rewrite (digit_not_operator c).
  - reflexivity.
  - apply (match_percent_head c s). by rewrite Hm.
Qed.

(** No match of the percent pattern starts in a prefix without a percent
    sign when an operator follows the prefix. *)
Lemma preprocessPercent_prefix prefix line :
  ~ In (chr "%") prefix ->
  starts_with_operator line = true ->
  preprocessPercent (prefix ++ line) = prefix ++ preprocessPercent line.
Proof.
  intros Hfree Hop. induction prefix as [|c prefix IH]; [reflexivity|].
  assert (Hfree' : ~ In (chr "%") prefix) by (intros H; apply Hfree; by right).
  cbn [app]. rewrite preprocessPercent_cons.
  destruct (match_percent (c :: prefix ++ line)) as [[lit rest]|] eqn:Hm.
  - exfalso. apply match_percent_spec in Hm as [Heq Hlit].
    destruct line as [|op line]; [discriminate|]. cbn [starts_with_operator] in Hop.
    assert (Hop_lit : literal_char op = false).
    { unfold literal_char. destruct (is_digit op) eqn:Hd.
      - by rewrite (digit_not_operator op Hd) in Hop.
      - destruct (N.eqb_spec op (chr ".")) as [->|_]; [discriminate Hop|done]. }
    assert (Hop_pct : op <> chr "%") by (intros ->; discriminate Hop).
    change (c :: prefix ++ op :: line) with ((c :: prefix) ++ op :: line) in Heq.
    apply app_eq_inv in Heq as [(k & Hk1 & Hk2)|(k & Hk1 & Hk2)].
    + destruct k as [|x k].
      * injection Hk2 as Hx _. congruence.
      * injection Hk2 as Hx _. subst x. apply Hfree. rewrite Hk1.
        apply in_or_app. right. by left.
    + destruct k as [|x k].
      * injection Hk2 as Hx _. congruence.
      * injection Hk2 as Hx _. subst x. rewrite forallb_forall in Hlit.
        assert (In op lit) as Hin by (rewrite Hk1; apply in_or_app; right; by left).
        apply Hlit in Hin. congruence.
  - by rewrite (IH Hfree').
Qed.

#[local] Abbreviation by_spec :=
  (spec_preprocess Value Num unicode_L unicode_N math_format).

Lemma spec_preprocess_agrees (st : state) raw :
  (not_null Value (previousAnswer _ _ st) = true ->
   ~ In (chr "%") (math_format (previousAnswer _ _ st))) ->
  replaceVars (preprocessPercent (chained st (JS.trim raw))) (mapping _ _ st)
  = by_spec st (JS.trim raw).
Proof.
  intros Hfmt. unfold spec_preprocess, chain. rewrite starts_with_operator_percent.
  destruct (not_null Value (previousAnswer _ _ st)) eqn:Hprev; [|reflexivity].
  destruct (starts_with_operator (JS.trim raw)) eqn:Hop; [|reflexivity].
  cbn [andb]. by rewrite preprocessPercent_prefix by auto.
Qed.

Lemma resultToDisplay_Some val shown :
  resultToDisplay Value math_typeOf math_format val = Some shown ->
  shown = math_format val /\ not_null Value val = true.
Proof.
  unfold resultToDisplay. destruct val; [discriminate|discriminate|].
  destruct (_ || _); [|discriminate]. by intros [= <-].
Qed.

(** The previous answer of a pass is a value that [resultToDisplay]
    shows, once there is one. *)
Lemma run_lines_previousAnswer raws :
  previousAnswer _ _ (run (initial_state Value Num) raws) = js_null
  \/ resultToDisplay Value math_typeOf math_format
       (previousAnswer _ _ (run (initial_state Value Num) raws))
     = Some (math_format (previousAnswer _ _ (run (initial_state Value Num) raws))).
Proof.
  induction raws as [|raw raws IH] using rev_ind; [by left|].
  rewrite run_lines_app.
  change (run (run (initial_state Value Num) raws) [raw])
    with (process (run (initial_state Value Num) raws) raw).
  set (st := run (initial_state Value Num) raws) in *.
  destruct (skipped Value Num st (JS.trim raw)) eqn:Hs.
  - by rewrite (process_line_skipped _ _ Hs).
  - rewrite (process_line_eligible _ _ Hs). unfold conclude.
    destruct (math_evaluate _ _) as [scope1 [result|]]; [|exact IH].
    destruct (resultToDisplay _ _ _ result) as [shown|] eqn:Hshown; [|exact IH].
    right. cbn [previousAnswer]. rewrite Hshown.
    by apply resultToDisplay_Some in Hshown as [-> _].
Qed.

(** C3. The string handed to the engine is the one the specification's
    pipeline gives: percent expansion, then the chaining prefix, then
    alias substitution over the assembled line.  The code prepends the
    prefix before it expands percents; the two orders agree because the
    raw formatted string of a number has no percent sign in it.  This
    holds in every state whose previous answer is so formatted, and in
    every state a pass reaches when the engine formats the values it
    shows without a percent sign. *)
Theorem engine_line_refines_spec :
  (forall (st : state) raw,
      (not_null Value (previousAnswer _ _ st) = true ->
       ~ In (chr "%") (math_format (previousAnswer _ _ st))) ->
      to_engine st (JS.trim raw) = (by_spec st (JS.trim raw)).1
      /\ (skipped Value Num st (JS.trim raw) = false ->
          process st raw
          = concluded st (by_spec st (JS.trim raw)).2
              (math_evaluate (by_spec st (JS.trim raw)).1 (engine_scope Value Num st))))
  /\ ((forall val shown,
         resultToDisplay Value math_typeOf math_format val = Some shown ->
         ~ In (chr "%") shown) ->
      forall raws raw,
        to_engine (run (initial_state Value Num) raws) (JS.trim raw)
        = (by_spec (run (initial_state Value Num) raws) (JS.trim raw)).1).
Proof.
  split.
  - intros st raw Hfmt. pose proof (spec_preprocess_agrees st raw Hfmt) as Heq. split.
    + unfold engine_line. by rewrite Heq.
    + intros Hs. rewrite (process_line_eligible _ _ Hs). unfold engine_line.
      by rewrite Heq.
  - intros Hengine raws raw. unfold engine_line.
    rewrite spec_preprocess_agrees; [reflexivity|].
    intros Hprev. destruct (run_lines_previousAnswer raws) as [Hnull|Hshown].
    + by rewrite Hnull in Hprev.
    + by apply (Hengine _ _ Hshown).
Qed.

(** *** The alias table of a pass *)

Lemma substitute_requests pieces mapping0 :
  (substitute pieces mapping0).2 = (request_all (requested pieces) mapping0).2.
Proof.
  revert mapping0. induction pieces as [|[c|text] pieces IH]; intros mapping0.
  - reflexivity.
  - cbn [substitute requested flat_map app]. specialize (IH mapping0).
    unfold requested in IH. by destruct (substitute pieces mapping0).
  - cbn [substitute requested flat_map]. unfold replace_match.
    destruct (hasUnicodeLetter text).
    + cbn [app request_all]. destruct (getAlias mapping0 text) as [alias mapping1].
      specialize (IH mapping1). unfold requested in IH.
      destruct (substitute pieces mapping1), (request_all _ mapping1). exact IH.
    + cbn [app]. specialize (IH mapping0). unfold requested in IH.
      by destruct (substitute pieces mapping0).
Qed.

Lemma request_all_snd_app names1 names2 mapping0 :
  (request_all (names1 ++ names2) mapping0).2
  = (request_all names2 (request_all names1 mapping0).2).2.
Proof.
  rewrite request_all_app. destruct (request_all names1 mapping0) as [a1 m1].
  cbn [snd]. by destruct (request_all names2 m1).
Qed.

(** The mapping changes only in [replaceChineseVars]. *)
Lemma process_line_mapping (st : state) raw :
  exists names,
    mapping _ _ (process st raw) = (request_all names (mapping _ _ st)).2.
Proof.
  destruct (skipped Value Num st (JS.trim raw)) eqn:Hs.
  - rewrite (process_line_skipped _ _ Hs). by exists [].
  - rewrite (process_line_eligible _ _ Hs).
    exists (requested (scan_identifiers unicode_L unicode_N
                         (preprocessPercent (chained st (JS.trim raw))))).
    rewrite <- substitute_requests. fold (replaceVars (preprocessPercent (chained st (JS.trim raw))) (mapping _ _ st)).
    unfold conclude. destruct (math_evaluate _ _) as [scope1 [result|]]; [|done].
    by destruct (resultToDisplay _ _ _ _).
Qed.

Lemma run_lines_mapping raws :
  exists names,
    mapping _ _ (run (initial_state Value Num) raws) = (request_all names fresh_mapping).2.
Proof.
  induction raws as [|raw raws IH] using rev_ind; [by exists []|].
  destruct IH as [names Hnames]. rewrite run_lines_app.
  change (run (run (initial_state Value Num) raws) [raw])
    with (process (run (initial_state Value Num) raws) raw).
  destruct (process_line_mapping (run (initial_state Value Num) raws) raw) as [more Hmore].
  exists (names ++ more). by rewrite request_all_snd_app, <- Hnames.
Qed.

(** The names a line asks [getAlias] for, in order: the identifiers
    that are not ASCII of the line as alias substitution gets it (with
    its chaining prefix, percent-expanded); none when the line is
    skipped. *)
Definition line_requests (st : state) (raw : jstring) : list jstring :=
  if skipped Value Num st (JS.trim raw) then []
  else requested (scan_identifiers unicode_L unicode_N
                    (preprocessPercent (chained st (JS.trim raw)))).

(** The names a pass over [raws] from the state [st] asks for, line
    after line. *)
Fixpoint requests_from (st : state) (raws : list jstring) : list jstring :=
  match raws with
  | [] => []
  | raw :: raws' => line_requests st raw ++ requests_from (process st raw) raws'
  end.

Lemma process_line_requests (st : state) raw :
  mapping _ _ (process st raw) = (request_all (line_requests st raw) (mapping _ _ st)).2.
Proof.
  unfold line_requests. destruct (skipped Value Num st (JS.trim raw)) eqn:Hs.
  - by rewrite (process_line_skipped _ _ Hs).
  - rewrite (process_line_eligible _ _ Hs), <- substitute_requests.
    fold (replaceVars (preprocessPercent (chained st (JS.trim raw))) (mapping _ _ st)).
    unfold conclude. destruct (math_evaluate _ _) as [scope1 [result|]]; [|done].
    by destruct (resultToDisplay _ _ _ _).
Qed.

Lemma run_lines_requests (st : state) raws :
  mapping _ _ (run st raws) = (request_all (requests_from st raws) (mapping _ _ st)).2.
Proof.
  revert st. induction raws as [|raw raws IH]; intros st; [reflexivity|].
  change (run st (raw :: raws)) with (run (process st raw) raws).
  cbn [requests_from]. by rewrite IH, process_line_requests, request_all_snd_app.
Qed.

Lemma requests_from_app (st : state) raws raw :
  requests_from st (raws ++ [raw])
  = requests_from st raws ++ line_requests (run st raws) raw.
Proof.
  revert st. induction raws as [|x raws IH]; intros st.
  - cbn [app requests_from]. by rewrite app_nil_r.
  - cbn [app requests_from]. change (run st (x :: raws)) with (run (process st x) raws).
    by rewrite IH, app_assoc.
Qed.

Lemma substitute_fill pieces mapping0 :
  (substitute pieces mapping0).1
  = fill pieces (request_all (requested pieces) mapping0).1.
Proof.
  revert mapping0. induction pieces as [|[c|text] pieces IH]; intros mapping0.
  - reflexivity.
  - cbn [substitute requested flat_map app fill]. specialize (IH mapping0).
    unfold requested in IH. destruct (substitute pieces mapping0). cbn [fst] in *.
    by rewrite IH.
  - cbn [substitute requested flat_map fill]. unfold replace_match.
    destruct (hasUnicodeLetter text).
    + cbn [app request_all]. destruct (getAlias mapping0 text) as [alias mapping1].
      specialize (IH mapping1). unfold requested in IH.
      destruct (substitute pieces mapping1), (request_all _ mapping1). cbn [fst] in *.
      by rewrite IH.
    + cbn [app]. specialize (IH mapping0). unfold requested in IH.
      destruct (substitute pieces mapping0). cbn [fst] in *. by rewrite IH.
Qed.

Lemma request_all_length names mapping0 :
  length (request_all names mapping0).1 = length names.
Proof.
  revert mapping0. induction names as [|name names IH]; intros mapping0; [reflexivity|].
  cbn [request_all]. destruct (getAlias mapping0 name) as [alias mapping1].
  specialize (IH mapping1). destruct (request_all names mapping1). cbn [fst length] in *.
  by rewrite IH.
Qed.

Lemma request_all_fst_app names1 names2 mapping0 :
  (request_all (names1 ++ names2) mapping0).1
  = (request_all names1 mapping0).1
    ++ (request_all names2 (request_all names1 mapping0).2).1.
Proof.
  rewrite request_all_app. destruct (request_all names1 mapping0) as [a1 m1].
  cbn [fst snd]. by destruct (request_all names2 m1).
Qed.

(** C6. Alias allocation within a pass is stable and injective.  Over
    any sequence of requests on the mapping a pass starts with (empty,
    counter 0), the name that is the [k]-th distinct one requested,
    counting from 0, is given the alias [_v{k}] at every request for
    it, so two requests return the same alias exactly when they are
    for the same name.  The lines of a pass share the one mapping and
    its counter: the requests of the pass are those of its lines, one
    line after the other; each line starts from the mapping the lines
    before it left, which is the outcome of their requests, and leaves
    the outcome of theirs and its own; and the line the engine is
    called with has, in the place of its [i]-th identifier that is not
    ASCII, the alias [_v{k}] of the [k]-th distinct name the pass has
    requested so far, whichever line requested it first. *)
Theorem alias_allocation_stable_injective :
  (forall (names : list jstring) i name k,
      names !! i = Some name ->
      distinct_names names !! k = Some name ->
      (request_all names fresh_mapping).1 !! i = Some (alias_name (N.of_nat k)))
  /\ (forall (names : list jstring) i j name1 name2 alias1 alias2,
        names !! i = Some name1 -> names !! j = Some name2 ->
        (request_all names fresh_mapping).1 !! i = Some alias1 ->
        (request_all names fresh_mapping).1 !! j = Some alias2 ->
        (name1 = name2 <-> alias1 = alias2))
  /\ (forall raws raw,
        let st := run (initial_state Value Num) raws in
        let prior := requests_from (initial_state Value Num) raws in
        let here := line_requests st raw in
        requests_from (initial_state Value Num) (raws ++ [raw]) = prior ++ here
        /\ mapping _ _ st = (request_all prior fresh_mapping).2
        /\ mapping _ _ (process st raw) = (request_all (prior ++ here) fresh_mapping).2
        /\ (skipped Value Num st (JS.trim raw) = false ->
            exists aliases,
              (request_all (prior ++ here) fresh_mapping).1
              = (request_all prior fresh_mapping).1 ++ aliases
              /\ length aliases = length here
              /\ (forall i name k,
                    here !! i = Some name ->
                    distinct_names (prior ++ here) !! k = Some name ->
                    aliases !! i = Some (alias_name (N.of_nat k)))
              /\ process st raw
                 = concluded st (request_all (prior ++ here) fresh_mapping).2
                     (math_evaluate
                        (fill (scan_identifiers unicode_L unicode_N
                                 (preprocessPercent (chained st (JS.trim raw))))
                           aliases)
                        (engine_scope Value Num st)))).
Proof.
  split; [intros names; apply request_all_stable_injective|].
  split; [intros names; apply request_all_stable_injective|].
  intros raws raw st prior here.
  assert (Hst : mapping _ _ st = (request_all prior fresh_mapping).2)
    by apply run_lines_requests.
  assert (Hafter : mapping _ _ (process st raw)
                   = (request_all (prior ++ here) fresh_mapping).2)
    by (by rewrite process_line_requests, request_all_snd_app, Hst).
  split; [apply requests_from_app|]. split; [exact Hst|]. split; [exact Hafter|].
  intros Hs. exists (request_all here (mapping _ _ st)).1.
  assert (Hsplit : (request_all (prior ++ here) fresh_mapping).1
                   = (request_all prior fresh_mapping).1
                     ++ (request_all here (mapping _ _ st)).1)
    by (by rewrite request_all_fst_app, Hst).
  split; [exact Hsplit|]. split; [apply request_all_length|]. split.
  - intros i name k Hi Hk.
    destruct (request_all_stable_injective (prior ++ here)) as [Hget _].
    specialize (Hget (length prior + i)%nat name k).
    rewrite Hsplit in Hget.
    rewrite lookup_app_r in Hget by lia.
    rewrite lookup_app_r in Hget by (rewrite request_all_length; lia).
    rewrite request_all_length in Hget.
    replace (length prior + i - length prior)%nat with i in Hget by lia.
    by apply Hget.
  - rewrite (process_line_eligible _ _ Hs). rewrite <- Hafter.
    rewrite process_line_requests. subst here. unfold line_requests. rewrite Hs.
    unfold engine_line, replaceChineseVars.
    by rewrite substitute_requests, substitute_fill.
Qed.

End DriverProperties.

(** ** The theorems of the driver at the sample instance *)

Lemma calculate_one_result_per_line_witness :
  JS.split newline (str "1" ++ [newline] ++ str "x" ++ [newline]) = [str "1"] ++ str "x" :: [[]]
  /\ length (lines (Sample.run (str "1" ++ [newline] ++ str "x" ++ [newline]))) = 3%nat
  /\ lines (Sample.run (str "1" ++ [newline] ++ str "x" ++ [newline])) !! 1%nat
     = last (results _ _ (Sample.process (Sample.process Sample.start (str "1")) (str "x"))).
Proof.
  split; [reflexivity|].
  destruct (calculate_one_result_per_line 0%N Sample.letter is_digit Sample.evaluate
              Sample.typeOf Sample.format Sample.number
              (str "1" ++ [newline] ++ str "x" ++ [newline]))
    as (Hlen & _ & Hpos).
  split; [exact Hlen|]. apply (Hpos [str "1"] (str "x") [[]]). reflexivity.
Defined.

Lemma skipped_line_is_blank_witness :
  is_prose _ _ Sample.after_100 (JS.trim (str "  rent and bills ")) = true
  /\ results _ _ (Sample.process Sample.after_100 (str "  rent and bills "))
     = results _ _ Sample.after_100 ++ [{| display := None; numeric := 0%N; error := false |}]
  /\ previousAnswer _ _ (Sample.process Sample.after_100 (str "  rent and bills "))
     = js_value (Sample.Number 100).
Proof.
  split; [reflexivity|].
  destruct (skipped_line_is_blank 0%N Sample.letter is_digit Sample.evaluate
              Sample.typeOf Sample.format Sample.number
              Sample.after_100 (str "  rent and bills "))
    as (Hres & Hprev & _).
  - right. right. right. reflexivity.
  - split; [exact Hres|exact Hprev].
Defined.

Lemma engine_error_keeps_previous_answer_witness :
  skipped _ _ Sample.after_100 (JS.trim (str "1 +")) = false
  /\ Sample.evaluate
       (engine_line _ _ Sample.letter is_digit Sample.format Sample.after_100 (JS.trim (str "1 +")))
       (engine_scope _ _ Sample.after_100)
     = (<[str "ans" := js_value (Sample.Number 100)]> ∅, Throw)
  /\ results _ _ (Sample.process Sample.after_100 (str "1 +"))
     = results _ _ Sample.after_100 ++ [{| display := None; numeric := 0%N; error := true |}]
  /\ previousAnswer _ _ (Sample.process Sample.after_100 (str "1 +"))
     = js_value (Sample.Number 100).
Proof.
  split; [reflexivity|]. split; [reflexivity|].
  destruct (engine_error_keeps_previous_answer 0%N Sample.letter is_digit Sample.evaluate
              Sample.typeOf Sample.format Sample.number
              Sample.after_100 (str "1 +")
              (<[str "ans" := js_value (Sample.Number 100)]> ∅))
    as (Hres & Hprev & _); [reflexivity|reflexivity|].
  split; [exact Hres|exact Hprev].
Defined.

Lemma non_numeric_result_is_blank_witness :
  skipped _ _ Sample.after_100 (JS.trim (str "(note)")) = false
  /\ Sample.typeOf (js_value (Sample.Text (str "(note)"))) = str "string"
  /\ results _ _ (Sample.process Sample.after_100 (str "(note)"))
     = results _ _ Sample.after_100 ++ [{| display := None; numeric := 0%N; error := false |}]
  /\ previousAnswer _ _ (Sample.process Sample.after_100 (str "(note)"))
     = js_value (Sample.Number 100).
Proof.
  split; [reflexivity|]. split; [reflexivity|].
  apply (non_numeric_result_is_blank 0%N Sample.letter is_digit Sample.evaluate
           Sample.typeOf Sample.format Sample.number
           Sample.after_100 (str "(note)")
           (<[str "ans" := js_value (Sample.Number 100)]> ∅)
           (js_value (Sample.Text (str "(note)")))).
  - reflexivity.
  - reflexivity.
  - discriminate.
  - discriminate.
Defined.

Lemma chained_line_is_prefixed_witness :
  starts_with_operator (JS.trim (str " * 80%")) = true
  /\ engine_line _ _ Sample.letter is_digit Sample.format Sample.after_100 (JS.trim (str " * 80%"))
     = str "100* (80/100)"
  /\ Sample.process Sample.after_100 (str " * 80%")
     = evaluate_assembled _ _ 0%N Sample.letter is_digit Sample.evaluate
         Sample.typeOf Sample.format Sample.number Sample.after_100 (str "100* 80%").
Proof.
  split; [reflexivity|].
  destruct (chained_line_is_prefixed 0%N Sample.letter is_digit Sample.evaluate
              Sample.typeOf Sample.format Sample.number) as [Hchain Hexample].
  split.
  - apply (Hexample Sample.after_100); reflexivity.
  - apply (Hchain Sample.after_100 (str " * 80%")); reflexivity.
Defined.

Lemma engine_line_refines_spec_witness :
  ~ In (chr "%") (Sample.format (previousAnswer _ _ Sample.after_100))
  /\ engine_line _ _ Sample.letter is_digit Sample.format Sample.after_100 (JS.trim (str "+ 5% "))
     = (spec_preprocess _ _ Sample.letter is_digit Sample.format Sample.after_100
          (JS.trim (str "+ 5% "))).1
  /\ (spec_preprocess _ _ Sample.letter is_digit Sample.format Sample.after_100
        (JS.trim (str "+ 5% "))).1 = str "100+ (5/100)".
Proof.
  assert (Hfree : ~ In (chr "%") (Sample.format (previousAnswer _ _ Sample.after_100))).
  { intros H. vm_compute in H. intuition discriminate. }
  split; [exact Hfree|]. split; [|reflexivity].
  destruct (engine_line_refines_spec 0%N Sample.letter is_digit Sample.evaluate
              Sample.typeOf Sample.format Sample.number) as [Hstate _].
  apply (Hstate Sample.after_100 (str "+ 5% ")). intros _. exact Hfree.
Defined.

Lemma alias_allocation_stable_injective_witness :
  (request_all [[25151; 31199]; [27700]; [25151; 31199]]%N fresh_mapping).1 !! 2%nat
  = Some (str "_v0")
  /\ ([25151; 31199]%N = [27700]%N <-> str "_v0" = str "_v1")
  /\ exists aliases,
       aliases = [str "_v1"; str "_v0"]
       /\ fill (scan_identifiers Sample.letter is_digit
                  ([27700; 30005]%N ++ str " = " ++ [25151; 31199]%N)) aliases
          = str "_v1 = _v0".
Proof.
  destruct (alias_allocation_stable_injective 0%N Sample.letter is_digit Sample.evaluate
              Sample.typeOf Sample.format Sample.number) as (Hget & Hinj & Hpass).
  split.
  { apply (Hget [[25151; 31199]; [27700]; [25151; 31199]]%N 2%nat [25151; 31199]%N 0%nat);
      reflexivity. }
  split.
  { apply (Hinj [[25151; 31199]; [27700]; [25151; 31199]]%N 0%nat 1%nat); reflexivity. }
  destruct (Hpass [[25151; 31199]%N ++ str " = 3500"]
              ([27700; 30005]%N ++ str " = " ++ [25151; 31199]%N))
    as (_ & _ & _ & Hline).
  destruct Hline as (aliases & _ & Hlen & Hindex & _); [vm_compute; reflexivity|].
  pose proof (Hindex 0%nat [27700; 30005]%N 1%nat) as H0.
  pose proof (Hindex 1%nat [25151; 31199]%N 0%nat) as H1.
  vm_compute in Hlen.
  destruct aliases as [|a [|b [|c more]]]; try discriminate Hlen.
  assert (Ha : Some a = Some (str "_v1")) by (apply H0; vm_compute; reflexivity).
  assert (Hb : Some b = Some (str "_v0")) by (apply H1; vm_compute; reflexivity).
  injection Ha as ->. injection Hb as ->.
  eexists. split; [reflexivity|]. vm_compute. reflexivity.
Defined.

(** * Further properties *)

(** ** The formatter: grouping *)

Lemma digit_run_digits s t :
  forallb is_digit s = true -> digit_run (s ++ t) = (length s + digit_run t)%nat.
Proof.
  induction s as [|c s IH]; [done|]. cbn [forallb app]. intros [Hc Hs]%andb_prop.
  rewrite digit_run_cons, Hc, (IH Hs). reflexivity.
Qed.

Lemma look_triples_three_more c s b :
  forallb is_digit (c :: s) = true -> forallb is_digit b = true -> length b = 3%nat ->
  look_triples (c :: s ++ b) = look_triples (c :: s).
Proof.
  intros Hs Hb Hlen. rewrite !look_triples_run.
  change (c :: s ++ b) with ((c :: s) ++ b).
  rewrite (digit_run_digits (c :: s) b Hs).
  rewrite <- (app_nil_r (c :: s)) at 3 4. rewrite (digit_run_digits (c :: s) [] Hs).
  rewrite <- (app_nil_r b), (digit_run_digits b [] Hb), Hlen.
  change (digit_run []) with 0%nat. rewrite !Nat.add_0_r. cbn [length].
  replace ((S (length s) + 3) mod 3)%nat with (S (length s) mod 3)%nat.
  - reflexivity.
  - pose proof (Nat.div_mod_eq (S (length s)) 3). pose proof (Nat.div_mod_eq (S (length s) + 3) 3).
    pose proof (Nat.mod_upper_bound (S (length s)) 3).
    pose proof (Nat.mod_upper_bound (S (length s) + 3) 3). lia.
Qed.

(** Three digits after digits, or after any word character, get a comma
    in front; the digits before them are grouped as on their own. *)
Lemma group_from_last_three prev a b :
  forallb is_digit a = true -> forallb is_digit b = true -> length b = 3%nat ->
  a <> [] \/ word_opt prev = true ->
  group_from prev (a ++ b) = group_from prev a ++ chr "," :: b.
Proof.
  intros Ha Hb Hlen. revert prev. induction a as [|c a IH]; intros prev Hprev.
  - destruct Hprev as [?|Hprev]; [done|]. rewrite group_from_nil.
    destruct b as [|x [|y [|z [|w b]]]]; try discriminate Hlen.
    cbn [forallb] in Hb. apply andb_prop in Hb as [Hx Hb].
    apply andb_prop in Hb as [Hy Hb]. apply andb_prop in Hb as [Hz _].
    cbn [app]. rewrite !group_from_cons, group_from_nil.
    unfold word_boundary. cbn [word_opt look_triples next_is_digit].
    rewrite Hprev, Hx, Hy, Hz, (is_digit_word x Hx), (is_digit_word y Hy).
    by rewrite ?andb_false_r.
  - cbn [app]. rewrite !group_from_cons.
    rewrite (look_triples_three_more c a b Ha Hb Hlen).
    cbn [forallb] in Ha. apply andb_prop in Ha as [Hc Ha].
    rewrite (IH Ha (Some c)) by (right; by apply is_digit_word).
    by rewrite <- app_assoc.
Qed.

(** X1. In a string of digits the separators stand every three digits
    counted from the right: up to three digits are left alone, and a
    longer string is its first digits, grouped the same way, then a comma
    and its last three digits. *)
Theorem group_thousands_by_three (s : jstring) :
  forallb is_digit s = true ->
  ((length s <= 3)%nat -> group_thousands s = s)
  /\ (forall a b, s = a ++ b -> a <> [] -> length b = 3%nat ->
                  group_thousands s = group_thousands a ++ chr "," :: b).
Proof.
  intros Hs. split.
  - intros Hlen. unfold group_thousands.
    destruct s as [|x [|y [|z [|w s]]]]; [..|simpl in Hlen; lia];
      rewrite ?group_from_cons, group_from_nil; cbn [forallb] in Hs;
      repeat (let H := fresh in apply andb_prop in Hs as [H Hs]; rewrite ?H);
      repeat match goal with
             | H : is_digit ?c = true |- _ =>
                 rewrite ?(is_digit_word c H); rewrite ?H; clear H
             end;
      unfold word_boundary; cbn [word_opt look_triples next_is_digit];
      repeat match goal with
             | H : is_digit ?c = true |- _ => rewrite ?(is_digit_word c H), ?H
             end;
      rewrite ?andb_false_r; reflexivity.
  - intros a b -> Ha Hlen. rewrite forallb_app in Hs. apply andb_prop in Hs as [Ha' Hb].
    unfold group_thousands. apply group_from_last_three; auto.
Qed.

Lemma group_thousands_by_three_witness :
  forallb is_digit (str "1234567") = true
  /\ group_thousands (str "1234567") = group_thousands (str "1234") ++ chr "," :: str "567"
  /\ group_thousands (str "567") = str "567".
Proof.
  split; [reflexivity|]. split.
  - apply (group_thousands_by_three (str "1234567")); [reflexivity| |discriminate|];
      reflexivity.
  - apply (group_thousands_by_three (str "567")); [reflexivity|]. simpl. lia.
Defined.

(** The string with its commas deleted. *)
Definition without_commas (s : jstring) : jstring :=
  List.filter (fun c => negb (c =? chr ",")%N) s.

Lemma group_from_without_commas prev s :
  without_commas (group_from prev s) = without_commas s.
Proof.
  unfold without_commas.
  revert prev. induction s as [|c s IH]; intros prev; [by rewrite group_from_nil|].
  rewrite group_from_cons, List.filter_app. cbn [List.filter]. rewrite IH.
  by destruct (negb (word_boundary _ _) && _).
Qed.

Lemma without_commas_id s : ~ In (chr ",") s -> without_commas s = s.
Proof.
  unfold without_commas. induction s as [|c s IH]; intros Hc; [done|].
  cbn [List.filter]. destruct (N.eqb_spec c (chr ",")) as [->|_].
  - exfalso. apply Hc. by left.
  - cbn [negb]. f_equal. apply IH. intros H. apply Hc. by right.
Qed.

(** X2. On a string without decimal point and without exponent the
    formatter only puts commas in: with the commas deleted the output is
    the input. *)
Theorem formatNumber_integer_adds_commas_only (s : jstring) :
  ~ In (chr ".") s -> ~ In (chr "e") s -> ~ In (chr ",") s ->
  without_commas (formatNumber s) = s.
Proof.
  intros Hp He Hc. unfold formatNumber. rewrite (formatDisplay_fixed s He).
  unfold strip_mantissa. apply includes_false in Hp as Hi. rewrite Hi.
  rewrite (group_mantissa_integer s Hp), group_from_without_commas.
  by apply without_commas_id.
Qed.

Lemma formatNumber_integer_adds_commas_only_witness :
  without_commas (formatNumber (str "-1234567")) = str "-1234567".
Proof.
  apply (formatNumber_integer_adds_commas_only (str "-1234567"));
    intros H; vm_compute in H; intuition discriminate.
Defined.

Lemma group_from_prev_word prev1 prev2 s :
  word_opt prev1 = word_opt prev2 -> group_from prev1 s = group_from prev2 s.
Proof.
  intros Hw. destruct s as [|c s]; [by rewrite !group_from_nil|].
  rewrite !group_from_cons. unfold word_boundary. by rewrite Hw.
Qed.

Lemma join_cons_head sep c part parts :
  JS.join sep ((c :: part) :: parts) = c :: JS.join sep (part :: parts).
Proof. by destruct parts. Qed.

Lemma formatDisplay_steps s :
  formatDisplay s =
  match exponent_of s with
  | [] => group_mantissa (strip_mantissa (mantissa_of s))
  | _ :: _ => strip_mantissa (mantissa_of s)
  end ++ exponent_of s.
Proof. reflexivity. Qed.

Lemma indexOf_minus s :
  JS.indexOf (chr "e") (chr "-" :: s) =
  if (0 <=? JS.indexOf (chr "e") s)%Z then (JS.indexOf (chr "e") s + 1)%Z else (-1)%Z.
Proof. reflexivity. Qed.

Lemma mantissa_of_minus s : mantissa_of (chr "-" :: s) = chr "-" :: mantissa_of s.
Proof.
  unfold mantissa_of. rewrite indexOf_minus.
  destruct (Z.leb_spec 0 (JS.indexOf (chr "e") s)) as [Hi|Hi]; [|reflexivity].
  destruct (Z.leb_spec 0 (JS.indexOf (chr "e") s + 1)) as [_|]; [|lia].
  unfold JS.slice_to.
  replace (Z.to_nat (JS.indexOf (chr "e") s + 1))
    with (S (Z.to_nat (JS.indexOf (chr "e") s))) by lia.
  reflexivity.
Qed.

Lemma exponent_of_minus s : exponent_of (chr "-" :: s) = exponent_of s.
Proof.
  unfold exponent_of. rewrite indexOf_minus.
  destruct (Z.leb_spec 0 (JS.indexOf (chr "e") s)) as [Hi|Hi]; [|reflexivity].
  destruct (Z.leb_spec 0 (JS.indexOf (chr "e") s + 1)) as [_|]; [|lia].
  unfold JS.slice_from.
  replace (Z.to_nat (JS.indexOf (chr "e") s + 1))
    with (S (Z.to_nat (JS.indexOf (chr "e") s))) by lia.
  reflexivity.
Qed.

Lemma strip_mantissa_minus m : strip_mantissa (chr "-" :: m) = chr "-" :: strip_mantissa m.
Proof.
  unfold strip_mantissa. cbn [JS.includes existsb].
  replace (chr "." =? chr "-")%N with false by reflexivity. cbn [orb].
  fold (JS.includes (chr ".") m). by destruct (JS.includes (chr ".") m).
Qed.

Lemma group_mantissa_minus m : group_mantissa (chr "-" :: m) = chr "-" :: group_mantissa m.
Proof.
  unfold group_mantissa. cbn [JS.split].
  replace (chr "-" =? chr ".")%N with false by reflexivity.
  assert (Hg : forall part, group_thousands (chr "-" :: part) = chr "-" :: group_thousands part).
  { intros part. unfold group_thousands. rewrite group_from_cons.
    replace (look_triples (chr "-" :: part)) with false
      by (by rewrite look_triples_run, digit_run_cons).
    rewrite andb_false_r. cbn [app]. f_equal. by apply group_from_prev_word. }
  destruct (JS.split (chr ".") m) as [|part0 parts].
  - cbn [JS.join]. rewrite Hg. reflexivity.
  - by rewrite Hg, join_cons_head.
Qed.

(** X3. A minus sign in front goes through the formatter unchanged and
    does not change how the rest is formatted. *)
Theorem formatNumber_minus (s : jstring) :
  formatNumber (chr "-" :: s) = chr "-" :: formatNumber s.
Proof.
  unfold formatNumber. rewrite !formatDisplay_steps.
  rewrite mantissa_of_minus, exponent_of_minus, strip_mantissa_minus, group_mantissa_minus.
  by destruct (exponent_of s).
Qed.

(** ** The formatter: stripping *)

(** What the removal of trailing zeros takes away is zeros, with at most
    the decimal point in front of them. *)
Lemma replace_dot_zeros_removed s :
  exists removed,
    s = replace_dot_zeros s ++ removed
    /\ Forall (fun c => c = chr "." \/ c = chr "0") removed.
Proof.
  induction s as [|c s IH]; [by exists []|]. cbn [replace_dot_zeros].
  destruct (match_dot_zeros (c :: s)) eqn:Hm.
  - exists (c :: s). split; [reflexivity|]. unfold match_dot_zeros in Hm.
    apply orb_prop in Hm as [Hm|Hm].
    + apply andb_prop in Hm as [Hc%N.eqb_eq Hz]. subst c.
      constructor; [by left|]. apply Forall_forall. intros x Hx%list_elem_of_In.
      right. by apply (all_zeros_In s).
    + apply Forall_forall. intros x Hx%list_elem_of_In.
      right. by apply (all_zeros_In (c :: s)).
  - destruct IH as (removed & Heq & Hall). exists removed. split; [|done].
    cbn [app]. by rewrite <- Heq.
Qed.

(** X4. A string in scientific notation is never grouped and keeps its
    exponent suffix: the output is the mantissa without some zeros and
    possibly the decimal point at its end, followed by the suffix from
    the first [e] on, unchanged. *)
Theorem formatNumber_scientific (m r : jstring) :
  ~ In (chr "e") m ->
  exists kept removed,
    m = kept ++ removed
    /\ Forall (fun c => c = chr "." \/ c = chr "0") removed
    /\ formatNumber (m ++ chr "e" :: r) = kept ++ chr "e" :: r.
Proof.
  intros He. unfold formatNumber. rewrite (formatDisplay_scientific m r He).
  unfold strip_mantissa. destruct (JS.includes (chr ".") m).
  - destruct (replace_dot_zeros_removed m) as (removed & Heq & Hall).
    by exists (replace_dot_zeros m), removed.
  - exists m, []. by rewrite app_nil_r.
Qed.

Lemma formatNumber_scientific_witness :
  exists kept removed,
    str "1234567.500" = kept ++ removed
    /\ Forall (fun c => c = chr "." \/ c = chr "0") removed
    /\ formatNumber (str "1234567.500" ++ chr "e" :: str "+21") = kept ++ chr "e" :: str "+21".
Proof.
  apply (formatNumber_scientific (str "1234567.500") (str "+21")).
  intros H. vm_compute in H. intuition discriminate.
Defined.

Lemma all_zeros_more s n :
  s <> [] -> all_zeros (s ++ repeat (chr "0") n) = all_zeros s.
Proof.
  intros Hs.
  assert (Hrep : forallb (N.eqb (chr "0")) (repeat (chr "0") n) = true).
  { apply forallb_forall. intros x Hx%repeat_spec. subst x. reflexivity. }
  destruct s as [|c s]; [done|].
  transitivity (forallb (N.eqb (chr "0")) ((c :: s) ++ repeat (chr "0") n)); [reflexivity|].
  rewrite forallb_app. etransitivity; [apply f_equal, Hrep|apply andb_true_r].
Qed.

Lemma replace_dot_zeros_more s n :
  ~ In (chr ".") s ->
  replace_dot_zeros (s ++ repeat (chr "0") n) = replace_dot_zeros s.
Proof.
  induction s as [|c s IH]; intros Hs.
  - cbn [app replace_dot_zeros]. destruct n as [|n]; [reflexivity|].
    cbn [repeat replace_dot_zeros]. unfold match_dot_zeros.
    replace (all_zeros (chr "0" :: repeat (chr "0") n)) with true; [by rewrite orb_true_r|].
    symmetry. unfold all_zeros. apply forallb_forall.
    intros x [<-|Hx%repeat_spec]; [reflexivity|by subst x].
  - assert (Hc : (c =? chr ".")%N = false)
      by (apply N.eqb_neq; intros ->; apply Hs; by left).
    cbn [app replace_dot_zeros]. unfold match_dot_zeros. rewrite Hc. cbn [andb orb].
    change (c :: s ++ repeat (chr "0") n) with ((c :: s) ++ repeat (chr "0") n).
    rewrite all_zeros_more by done.
    destruct (all_zeros (c :: s)); [reflexivity|].
    cbn [app]. f_equal. apply IH. intros H. apply Hs. by right.
Qed.

Lemma strip_mantissa_more a b n :
  ~ In (chr ".") a -> ~ In (chr ".") b -> b <> [] ->
  strip_mantissa (a ++ chr "." :: b ++ repeat (chr "0") n)
  = strip_mantissa (a ++ chr "." :: b).
Proof.
  intros Ha Hb Hne. unfold strip_mantissa.
  rewrite !includes_app. cbn [JS.includes existsb]. rewrite N.eqb_refl, !orb_true_r.
  rewrite !replace_dot_zeros_before_point by done. f_equal.
  cbn [replace_dot_zeros]. unfold match_dot_zeros. rewrite N.eqb_refl. cbn [andb].
  rewrite all_zeros_more by done.
  replace (all_zeros (chr "." :: b ++ repeat (chr "0") n)) with false.
  - replace (all_zeros (chr "." :: b)) with false by reflexivity.
    rewrite !orb_false_r. destruct (all_zeros b); [reflexivity|].
    by rewrite replace_dot_zeros_more.
  - reflexivity.
Qed.

(** X5. Zeros at the end of the digits after the decimal point do not
    show: with or without them, and with or without an exponent suffix
    after them, the formatter gives the same string. *)
Theorem formatNumber_trailing_zeros (a b suffix : jstring) (n : nat) :
  ~ In (chr ".") a -> ~ In (chr ".") b ->
  ~ In (chr "e") a -> ~ In (chr "e") b ->
  b <> [] ->
  suffix = [] \/ head suffix = Some (chr "e") ->
  formatNumber (a ++ chr "." :: b ++ repeat (chr "0") n ++ suffix)
  = formatNumber (a ++ chr "." :: b ++ suffix).
Proof.
  intros Ha Hb Hea Heb Hne Hsuffix. unfold formatNumber.
  assert (He1 : ~ In (chr "e") (a ++ chr "." :: b ++ repeat (chr "0") n)).
  { rewrite in_app_iff. cbn [In]. rewrite in_app_iff.
    intros [H|[H|[H|H%repeat_spec]]]; try done; discriminate. }
  assert (He2 : ~ In (chr "e") (a ++ chr "." :: b)).
  { rewrite in_app_iff. cbn [In]. intros [H|[H|H]]; try done; discriminate. }
  destruct Hsuffix as [->|Hhead].
  - rewrite !app_nil_r. rewrite (formatDisplay_fixed _ He1), (formatDisplay_fixed _ He2).
    by rewrite strip_mantissa_more.
  - destruct suffix as [|e suffix]; [discriminate|]. injection Hhead as ->.
    replace (a ++ chr "." :: b ++ repeat (chr "0") n ++ chr "e" :: suffix)
      with ((a ++ chr "." :: b ++ repeat (chr "0") n) ++ chr "e" :: suffix)
      by (by rewrite <- !app_assoc, <- app_comm_cons, <- app_assoc).
    replace (a ++ chr "." :: b ++ chr "e" :: suffix)
      with ((a ++ chr "." :: b) ++ chr "e" :: suffix)
      by (by rewrite <- !app_assoc).
    rewrite (formatDisplay_scientific _ _ He1), (formatDisplay_scientific _ _ He2).
    by rewrite strip_mantissa_more.
Qed.

Lemma formatNumber_trailing_zeros_witness :
  formatNumber (str "1234" ++ chr "." :: str "50" ++ repeat (chr "0") 3 ++ str "e+21")
  = formatNumber (str "1234" ++ chr "." :: str "50" ++ str "e+21").
Proof.
  apply (formatNumber_trailing_zeros (str "1234") (str "50") (str "e+21") 3).
  - intros H. vm_compute in H. intuition discriminate.
  - intros H. vm_compute in H. intuition discriminate.
  - intros H. vm_compute in H. intuition discriminate.
  - intros H. vm_compute in H. intuition discriminate.
  - discriminate.
  - right. reflexivity.
Defined.

(** ** Percent expansion: what it leaves alone *)

Lemma digit_before_percent_needs_percent line :
  ~ In (chr "%") line -> digit_before_percent line = false.
Proof.
  induction line as [|c s IH]; [done|]. intros Hfree.
  cbn [digit_before_percent]. rewrite IH by (intros H; apply Hfree; by right).
  destruct s as [|c' s]; [by rewrite andb_false_r|].
  destruct (N.eqb_spec c' (chr "%")) as [->|_]; [|by rewrite andb_false_r].
  exfalso. apply Hfree. right. by left.
Qed.

(** X6. Percent expansion changes a line only where a digit stands
    directly before a percent sign: a line without such a place, so any
    line without a percent sign, is returned as it is, and expanding an
    expanded line changes nothing more. *)
Theorem preprocessPercent_fixed_points :
  (forall line, digit_before_percent line = false -> preprocessPercent line = line)
  /\ (forall line, ~ In (chr "%") line -> preprocessPercent line = line)
  /\ (forall line, preprocessPercent (preprocessPercent line) = preprocessPercent line).
Proof.
  split; [exact preprocessPercent_fixed|]. split.
  - intros line Hfree. by apply preprocessPercent_fixed, digit_before_percent_needs_percent.
  - intros line. apply preprocessPercent_fixed, preprocessPercent_clean.
Qed.

Lemma preprocessPercent_fixed_points_witness :
  digit_before_percent (str "x % 3 + rate%") = false
  /\ preprocessPercent (str "x % 3 + rate%") = str "x % 3 + rate%"
  /\ preprocessPercent (str "sqrt(144) + 2") = str "sqrt(144) + 2".
Proof.
  destruct preprocessPercent_fixed_points as (Hfixed & Hfree & _).
  split; [reflexivity|]. split.
  - apply Hfixed. reflexivity.
  - apply Hfree. intros H. vm_compute in H. intuition discriminate.
Defined.

(** ** Aliases: any mapping *)

(** X7. Whatever the mapping holds, a request for a name that was just
    requested returns the same alias and changes nothing; a request
    leaves the entries of all other names as they were and moves the
    counter by at most one. *)
Theorem getAlias_again (mapping0 : VarMapping) (name : jstring) :
  getAlias (getAlias mapping0 name).2 name
  = ((getAlias mapping0 name).1, (getAlias mapping0 name).2)
  /\ (forall other, other <> name ->
        cnToAlias (getAlias mapping0 name).2 !! other = cnToAlias mapping0 !! other)
  /\ (counter (getAlias mapping0 name).2 = counter mapping0
      \/ counter (getAlias mapping0 name).2 = (counter mapping0 + 1)%N).
Proof.
  assert (Hnew : forall m alias,
             getAlias {| cnToAlias := <[name := alias_name (counter mapping0)]> m;
                         counter := alias |} name
             = (alias_name (counter mapping0),
                {| cnToAlias := <[name := alias_name (counter mapping0)]> m;
                   counter := alias |})).
  { intros m alias. unfold getAlias. cbn [cnToAlias]. rewrite lookup_insert_eq.
    by destruct (alias_name_cons (counter mapping0)) as (c & a & ->). }
  destruct (cnToAlias mapping0 !! name) as [[|c alias]|] eqn:Hlookup.
  - assert (Hget : getAlias mapping0 name
                   = (alias_name (counter mapping0),
                      {| cnToAlias := <[name := alias_name (counter mapping0)]> (cnToAlias mapping0);
                         counter := (counter mapping0 + 1)%N |}))
      by (unfold getAlias; by rewrite Hlookup).
    rewrite Hget. cbn [fst snd]. split; [apply Hnew|]. split; [|right; reflexivity].
    intros other Hother. cbn [cnToAlias]. by rewrite lookup_insert_ne.
  - assert (Hget : getAlias mapping0 name = (c :: alias, mapping0))
      by (unfold getAlias; by rewrite Hlookup).
    rewrite Hget. cbn [fst snd]. split; [exact Hget|]. split; [done|by left].
  - assert (Hget : getAlias mapping0 name
                   = (alias_name (counter mapping0),
                      {| cnToAlias := <[name := alias_name (counter mapping0)]> (cnToAlias mapping0);
                         counter := (counter mapping0 + 1)%N |}))
      by (unfold getAlias; by rewrite Hlookup).
    rewrite Hget. cbn [fst snd]. split; [apply Hnew|]. split; [|right; reflexivity].
    intros other Hother. cbn [cnToAlias]. by rewrite lookup_insert_ne.
Qed.

Lemma getAlias_again_witness :
  getAlias (getAlias fresh_mapping [25151; 31199]%N).2 [25151; 31199]%N
  = (str "_v0", (getAlias fresh_mapping [25151; 31199]%N).2)
  /\ cnToAlias (getAlias fresh_mapping [25151; 31199]%N).2 !! [27700]%N = None.
Proof.
  destruct (getAlias_again fresh_mapping [25151; 31199]%N) as (Hagain & Hother & _).
  split; [exact Hagain|]. etransitivity; [apply Hother; discriminate|reflexivity].
Defined.

(** ** Alias substitution and the driver, continued *)

Section DriverMore.

Context {Value Num : Type} (num_zero : Num).
Context (unicode_L unicode_N : char -> bool).
Context (math_evaluate :
           jstring -> gmap jstring (unknown Value) ->
           gmap jstring (unknown Value) * completion (unknown Value)).
Context (math_typeOf : unknown Value -> jstring).
Context (math_format : unknown Value -> jstring).
Context (math_number : unknown Value -> completion Num).

#[local] Abbreviation state := (PassState Value Num).
#[local] Abbreviation blank := (blank_result Num num_zero).
#[local] Abbreviation replaceVars := (replaceChineseVars unicode_L unicode_N).
#[local] Abbreviation scan := (scan_identifiers unicode_L unicode_N).
#[local] Abbreviation concluded :=
  (conclude Value Num num_zero math_typeOf math_format math_number).
#[local] Abbreviation process :=
  (process_line Value Num num_zero unicode_L unicode_N
     math_evaluate math_typeOf math_format math_number).
#[local] Abbreviation run :=
  (run_lines Value Num num_zero unicode_L unicode_N
     math_evaluate math_typeOf math_format math_number).
#[local] Abbreviation calc :=
  (calculate Value Num num_zero unicode_L unicode_N
     math_evaluate math_typeOf math_format math_number).
#[local] Abbreviation start := (initial_state Value Num).

Lemma match_identifier_chars s name rest :
  match_identifier unicode_L unicode_N s = Some (name, rest) ->
  forallb (ident_part unicode_L unicode_N) name = true.
Proof.
  destruct s as [|c s]; [discriminate|]. cbn [match_identifier].
  destruct (ident_start unicode_L c) eqn:Hc; [|discriminate].
  destruct (span _ s) as [more r] eqn:Hs. intros [= <- <-].
  apply span_spec in Hs as (_ & Hmore & _). cbn [forallb]. rewrite Hmore, andb_true_r.
  unfold ident_start in Hc. unfold ident_part.
  destruct (unicode_L c); [done|]. cbn [orb] in Hc |- *. rewrite Hc. apply orb_true_r.
Qed.

(** X8. A line in which no character outside ASCII is a letter or a
    number has nothing to alias: alias substitution returns the line and
    the mapping as they are, whatever the mapping holds. *)
Theorem replaceChineseVars_nothing_to_alias line mapping0 :
  (forall c, In c line -> is_non_ascii c = true ->
             unicode_L c = false /\ unicode_N c = false) ->
  replaceVars line mapping0 = (line, mapping0).
Proof.
  unfold replaceChineseVars.
  remember (length line) as n eqn:Hn. revert line Hn.
  induction n as [n IH] using lt_wf_ind. intros line Hn Hline.
  destruct line as [|c s]; [reflexivity|]. rewrite scan_identifiers_cons.
  destruct (match_identifier _ _ (c :: s)) as [[name rest]|] eqn:Hm.
  - pose proof (match_identifier_chars _ _ _ Hm) as Hchars.
    apply match_identifier_spec in Hm as [Heq Hlen].
    assert (Hname : hasUnicodeLetter name = false).
    { unfold hasUnicodeLetter. destruct (existsb is_non_ascii name) eqn:Hex; [|done].
      apply existsb_exists in Hex as (x & Hx & Hnon).
      destruct (Hline x) as [HL HN]; [rewrite Heq; apply in_or_app; by left|done|].
      rewrite forallb_forall in Hchars. specialize (Hchars x Hx).
      unfold ident_part in Hchars. rewrite HL, HN in Hchars. cbn [orb] in Hchars.
      apply N.eqb_eq in Hchars. subst x. discriminate Hnon. }
    cbn [substitute]. unfold replace_match. rewrite Hname.
    rewrite (IH (length rest)); [by rewrite Heq|lia|done|].
    intros x Hx. apply Hline. rewrite Heq. apply in_or_app. by right.
  - cbn [substitute].
    rewrite (IH (length s)); [done|subst n; simpl; lia|done|].
    intros x Hx. apply Hline. by right.
Qed.

Lemma uint_chars_ascii d : hasUnicodeLetter (uint_chars d) = false.
Proof. induction d; cbn [uint_chars hasUnicodeLetter existsb]; try done; exact IHd. Qed.

Lemma alias_name_ascii k : hasUnicodeLetter (alias_name k) = false.
Proof.
  unfold alias_name, hasUnicodeLetter. rewrite existsb_app.
  replace (existsb is_non_ascii (str "_v")) with false by reflexivity.
  apply uint_chars_ascii.
Qed.

(** With a mapping that holds alias names, the aliases put into a line
    are ASCII, so the line is ASCII when its other characters are. *)
Lemma substitute_ascii line :
  (forall c, In c line -> is_non_ascii c = true -> unicode_L c = true) ->
  forall seen mapping0,
    mapping_tracks seen mapping0 ->
    hasUnicodeLetter (substitute (scan line) mapping0).1 = false.
Proof.
  remember (length line) as n eqn:Hn. revert line Hn.
  induction n as [n IH] using lt_wf_ind. intros line Hn Hline seen mapping0 Htracks.
  destruct line as [|c s]; [reflexivity|]. rewrite scan_identifiers_cons.
  destruct (match_identifier _ _ (c :: s)) as [[name rest]|] eqn:Hm.
  - apply match_identifier_spec in Hm as [Heq Hlen].
    assert (Hrest : forall x, In x rest -> is_non_ascii x = true -> unicode_L x = true).
    { intros x Hx. apply Hline. rewrite Heq. apply in_or_app. by right. }
    cbn [substitute]. unfold replace_match.
    destruct (hasUnicodeLetter name) eqn:Hname.
    + assert (exists k seen1,
                 (getAlias mapping0 name).1 = alias_name k
                 /\ mapping_tracks seen1 (getAlias mapping0 name).2)
        as (k & seen1 & Halias & Htracks1).
      { destruct (decide (name ∈ seen)) as [Hin|Hnew].
        - apply list_elem_of_lookup in Hin as [k Hk].
          exists (N.of_nat k), seen. by rewrite (getAlias_known _ _ _ _ Htracks Hk).
        - destruct (getAlias_new _ _ _ Htracks Hnew) as [Hfst Hsnd].
          by exists (N.of_nat (length seen)), (seen ++ [name]). }
      destruct (getAlias mapping0 name) as [alias mapping1]. cbn [fst snd] in Halias, Htracks1.
      pose proof (IH (length rest) ltac:(lia) rest eq_refl Hrest seen1 mapping1 Htracks1) as Hout.
      destruct (substitute (scan rest) mapping1) as [out mapping2]. cbn [fst] in Hout |- *.
      unfold hasUnicodeLetter in *. rewrite existsb_app, Hout, orb_false_r.
      subst alias. apply alias_name_ascii.
    + pose proof (IH (length rest) ltac:(lia) rest eq_refl Hrest seen mapping0 Htracks) as Hout.
      destruct (substitute (scan rest) mapping0) as [out mapping2]. cbn [fst] in Hout |- *.
      unfold hasUnicodeLetter in *. by rewrite existsb_app, Hname, Hout.
  - assert (Hc : is_non_ascii c = false).
    { destruct (is_non_ascii c) eqn:Hnon; [|done].
      cbn [match_identifier] in Hm. unfold ident_start in Hm.
      rewrite (Hline c) in Hm by (done || by left). cbn [orb] in Hm.
      by destruct (span _ s) in Hm. }
    assert (Hs : forall x, In x s -> is_non_ascii x = true -> unicode_L x = true).
    { intros x Hx. apply Hline. by right. }
    cbn [substitute].
    pose proof (IH (length s) ltac:(subst n; simpl; lia) s eq_refl Hs seen mapping0 Htracks) as Hout.
    destruct (substitute (scan s) mapping0) as [out mapping2]. cbn [fst] in Hout |- *.
    unfold hasUnicodeLetter in *. cbn [existsb]. by rewrite Hc, Hout.
Qed.

(** X9. In a pass, alias substitution turns a line whose characters
    outside ASCII are all letters into a line of ASCII characters: every
    identifier that is not ASCII is replaced by a name [_v{k}]. *)
Theorem replaceChineseVars_gives_ascii raws line :
  (forall c, In c line -> is_non_ascii c = true -> unicode_L c = true) ->
  hasUnicodeLetter (replaceVars line (mapping _ _ (run start raws))).1 = false.
Proof.
  intros Hline.
  destruct (run_lines_mapping num_zero unicode_L unicode_N math_evaluate math_typeOf
              math_format math_number raws) as [names Hnames].
  rewrite Hnames. unfold replaceChineseVars.
  apply (substitute_ascii line Hline (distinct_names names)).
  apply request_all_tracked.
Qed.

(** *** The results of a pass *)

(** The three shapes of a line result: blank, error, or the display of a
    value the engine returned and types as a number. *)
Definition result_shape (r : LineResult Num) : Prop :=
  r = blank
  \/ r = error_result Num num_zero
  \/ exists v,
       (math_typeOf (js_value v) = str "BigNumber" \/ math_typeOf (js_value v) = str "number")
       /\ r = {| display := Some (math_format (js_value v));
                 numeric := resultToNumber Value Num num_zero math_number (js_value v);
                 error := false |}.

Lemma resultToDisplay_numeric val shown :
  resultToDisplay Value math_typeOf math_format val = Some shown ->
  exists v, val = js_value v /\ shown = math_format (js_value v)
            /\ (math_typeOf (js_value v) = str "BigNumber"
                \/ math_typeOf (js_value v) = str "number").
Proof.
  unfold resultToDisplay. destruct val as [| |v]; [discriminate|discriminate|].
  destruct (bool_decide (math_typeOf (js_value v) = str "BigNumber")) eqn:Hbig.
  - intros [= <-]. exists v. apply bool_decide_eq_true in Hbig. auto.
  - destruct (bool_decide (math_typeOf (js_value v) = str "number")) eqn:Hnum; [|discriminate].
    intros [= <-]. exists v. apply bool_decide_eq_true in Hnum. auto.
Qed.

Lemma process_line_pushes_shape (st : state) raw :
  exists r, results _ _ (process st raw) = results _ _ st ++ [r] /\ result_shape r.
Proof.
  destruct (skipped Value Num st (JS.trim raw)) eqn:Hs.
  - rewrite (process_line_skipped _ _ _ _ _ _ _ _ _ Hs). exists blank. split; [done|by left].
  - rewrite (process_line_eligible _ _ _ _ _ _ _ _ _ Hs). unfold conclude.
    destruct (math_evaluate _ _) as [scope1 [result|]].
    + destruct (resultToDisplay _ _ _ result) as [shown|] eqn:Hshown.
      * apply resultToDisplay_numeric in Hshown as (v & -> & -> & Htype).
        eexists. split; [reflexivity|]. right. right. by exists v.
      * exists blank. split; [done|by left].
    + exists (error_result Num num_zero). split; [done|]. right. by left.
Qed.

Lemma run_lines_shapes (st : state) raws :
  exists rs, results _ _ (run st raws) = results _ _ st ++ rs
             /\ length rs = length raws /\ Forall result_shape rs.
Proof.
  revert st. induction raws as [|raw raws IH]; intros st.
  - exists []. by rewrite app_nil_r.
  - destruct (process_line_pushes_shape st raw) as (r & Hr & Hshape).
    destruct (IH (process st raw)) as (rs & Hrs & Hlen & Hall).
    exists (r :: rs). change (run st (raw :: raws)) with (run (process st raw) raws).
    rewrite Hrs, Hr, <- app_assoc. split; [done|]. split; [simpl; by rewrite Hlen|].
    by constructor.
Qed.

(** X10. Every result of [calculate] has one of three shapes: the blank
    result, the error result, or a display that is the engine's
    formatting of a value it types as [BigNumber] or [number], with the
    number made from that value.  So no result is at once an error and a
    display, and a result without display has the number [0]. *)
Theorem calculate_result_shapes (text : jstring) (r : LineResult Num) :
  In r (lines (calc text)) ->
  result_shape r
  /\ (error r = true -> display r = None)
  /\ (display r = None -> numeric r = num_zero).
Proof.
  unfold calculate. cbn [lines].
  destruct (run_lines_shapes start (JS.split newline text)) as (rs & Hrs & _ & Hall).
  rewrite Hrs. cbn [results initial_state app]. intros Hin.
  rewrite Forall_forall in Hall. specialize (Hall r (proj2 (list_elem_of_In _ _) Hin)).
  split; [exact Hall|].
  destruct Hall as [->|[->|(v & _ & ->)]]; cbn [error display numeric]; by split.
Qed.

Lemma split_app sep a b :
  JS.split sep (a ++ sep :: b) = JS.split sep a ++ JS.split sep b.
Proof.
  induction a as [|c a IH].
  - cbn [app JS.split]. by rewrite N.eqb_refl.
  - cbn [app JS.split]. rewrite IH. destruct (c =? sep)%N; [reflexivity|].
    destruct (JS.split sep a) as [|cur rest] eqn:Hsplit; [|reflexivity].
    pose proof (split_length sep a) as Hlen. rewrite Hsplit in Hlen. discriminate Hlen.
Qed.

(** X11. The results of the lines of a document do not depend on what
    follows them: with more lines after a newline, the results so far
    stay, and one result per further line comes after them. *)
Theorem calculate_prefix_stable (text more : jstring) :
  exists later,
    lines (calc (text ++ newline :: more)) = lines (calc text) ++ later
    /\ length later = length (JS.split newline more).
Proof.
  unfold calculate. cbn [lines]. rewrite split_app.
  rewrite (run_lines_app num_zero unicode_L unicode_N math_evaluate math_typeOf
             math_format math_number).
  destruct (run_lines_shapes (run start (JS.split newline text)) (JS.split newline more))
    as (rs & Hrs & Hlen & _).
  by exists rs.
Qed.

Lemma split_newlines n :
  JS.split newline (repeat newline n) = repeat [] (S n).
Proof.
  induction n as [|n IH]; [reflexivity|].
  cbn [repeat JS.split]. rewrite N.eqb_refl, IH. reflexivity.
Qed.

Lemma run_empty_lines (st : state) n :
  run st (repeat [] n) = {| mapping := mapping _ _ st; scope := scope _ _ st;
                            previousAnswer := previousAnswer _ _ st;
                            results := results _ _ st ++ repeat blank n |}.
Proof.
  revert st. induction n as [|n IH]; intros st.
  - cbn [repeat]. rewrite app_nil_r. by destruct st.
  - cbn [repeat]. change (run st ([] :: repeat [] n)) with (run (process st []) (repeat [] n)).
    rewrite IH. change (process st []) with (push Value Num blank st).
    cbn [push mapping scope previousAnswer results]. by rewrite <- app_assoc.
Qed.

(** X12. Newlines added at the end of a document add one blank result
    each and change no other result; the empty document has the one
    blank result of its one empty line. *)
Theorem calculate_trailing_newlines (text : jstring) (n : nat) :
  lines (calc (text ++ repeat newline n)) = lines (calc text) ++ repeat blank n
  /\ lines (calc []) = [blank].
Proof.
  split; [|reflexivity]. unfold calculate. cbn [lines].
  destruct n as [|n]; [by rewrite !app_nil_r|].
  cbn [repeat]. rewrite split_app, split_newlines.
  rewrite (run_lines_app num_zero unicode_L unicode_N math_evaluate math_typeOf
             math_format math_number).
  rewrite run_empty_lines. reflexivity.
Qed.

(** *** White space around a line *)

Lemma trimStart_pad pad s :
  forallb JS.is_white_space pad = true -> JS.trimStart (pad ++ s) = JS.trimStart s.
Proof.
  induction pad as [|c pad IH]; [done|]. cbn [forallb app JS.trimStart].
  intros [Hc Hpad]%andb_prop. rewrite Hc. by apply IH.
Qed.

Lemma trimStart_app s pad :
  forallb JS.is_white_space pad = true ->
  JS.trimStart (s ++ pad) = match JS.trimStart s with
                            | [] => []
                            | c :: t => (c :: t) ++ pad
                            end.
Proof.
  intros Hpad. induction s as [|c s IH].
  - cbn [app]. rewrite <- (app_nil_r pad) at 1. rewrite (trimStart_pad pad [] Hpad). reflexivity.
  - cbn [app JS.trimStart]. destruct (JS.is_white_space c); [exact IH|reflexivity].
Qed.

Lemma trimEnd_pad s pad :
  forallb JS.is_white_space pad = true -> JS.trimEnd (s ++ pad) = JS.trimEnd s.
Proof.
  intros Hpad. unfold JS.trimEnd. rewrite rev_app_distr, trimStart_pad; [done|].
  apply forallb_forall. intros x Hx%in_rev. by apply (proj1 (forallb_forall _ _) Hpad).
Qed.

Lemma trim_pad before raw after :
  forallb JS.is_white_space before = true ->
  forallb JS.is_white_space after = true ->
  JS.trim (before ++ raw ++ after) = JS.trim raw.
Proof.
  intros Hbefore Hafter. unfold JS.trim.
  rewrite (trimStart_pad before _ Hbefore), (trimStart_app raw after Hafter).
  destruct (JS.trimStart raw) as [|c t]; [reflexivity|]. by apply trimEnd_pad.
Qed.

(** X13. White space and line terminators around a line do not matter:
    the line is processed as it is without them. *)
Theorem process_line_ignores_padding (st : state) (before raw after : jstring) :
  forallb JS.is_white_space before = true ->
  forallb JS.is_white_space after = true ->
  process st (before ++ raw ++ after) = process st raw.
Proof.
  intros Hbefore Hafter. unfold process_line. by rewrite (trim_pad before raw after).
Qed.

(** *** The previous answer *)

(** The raw strings of the results that have one, in order. *)
Definition displays (rs : list (LineResult Num)) : list jstring := omap display rs.

Lemma displays_snoc rs r :
  displays (rs ++ [r]) = displays rs ++ match display r with
                                        | Some shown => [shown]
                                        | None => []
                                        end.
Proof. unfold displays. rewrite omap_app. simpl. by destruct (display r). Qed.

(** X14. At every point of a pass the previous answer goes with the last
    result that has a display: there is none while no result has one,
    and afterwards its formatted string, which is the chaining prefix,
    is the raw string of the last such result. *)
Theorem previous_answer_is_last_display (raws : list jstring) :
  (previousAnswer _ _ (run start raws) = js_null
   /\ displays (results _ _ (run start raws)) = [])
  \/ (not_null Value (previousAnswer _ _ (run start raws)) = true
      /\ last (displays (results _ _ (run start raws)))
         = Some (math_format (previousAnswer _ _ (run start raws)))).
Proof.
  induction raws as [|raw raws IH] using rev_ind; [by left|].
  rewrite (run_lines_app num_zero unicode_L unicode_N math_evaluate math_typeOf
             math_format math_number).
  change (run (run start raws) [raw]) with (process (run start raws) raw).
  set (st := run start raws) in *.
  destruct (skipped Value Num st (JS.trim raw)) eqn:Hs.
  - rewrite (process_line_skipped _ _ _ _ _ _ _ _ _ Hs).
    cbn [push previousAnswer results]. rewrite displays_snoc. cbn [display blank_result].
    by rewrite app_nil_r.
  - rewrite (process_line_eligible _ _ _ _ _ _ _ _ _ Hs). unfold conclude.
    destruct (math_evaluate _ _) as [scope1 [result|]].
    + destruct (resultToDisplay _ _ _ result) as [shown|] eqn:Hshown.
      * apply resultToDisplay_numeric in Hshown as (v & -> & -> & _).
        right. cbn [previousAnswer results]. rewrite displays_snoc. cbn [display].
        by rewrite last_snoc.
      * cbn [previousAnswer results]. rewrite displays_snoc. cbn [display blank_result].
        by rewrite app_nil_r.
    + cbn [previousAnswer results]. rewrite displays_snoc. cbn [display error_result].
      by rewrite app_nil_r.
Qed.

End DriverMore.

(** ** The editor *)

Lemma count_newline_utf16 s :
  count_occ N.eq_dec (utf16 s) newline = count_occ N.eq_dec s newline.
Proof.
  induction s as [|c s IH]; [reflexivity|].
  unfold utf16 in *. cbn [flat_map]. rewrite count_occ_app, IH.
  unfold utf16_units. destruct (N.ltb_spec c 65536) as [Hc|Hc].
  - cbn [count_occ]. by destruct (N.eq_dec c newline).
  - cbn [count_occ].
    destruct (N.eq_dec _ newline) as [H1|_].
    { exfalso. pose proof (N.le_add_r 55296 ((c - 65536) / 1024)) as Hge.
      rewrite H1 in Hge. by vm_compute in Hge. }
    destruct (N.eq_dec _ newline) as [H2|_].
    { exfalso. pose proof (N.le_add_r 56320 ((c - 65536) mod 1024)) as Hge.
      rewrite H2 in Hge. by vm_compute in Hge. }
    destruct (N.eq_dec c newline) as [H3|_].
    { exfalso. rewrite H3 in Hc. by vm_compute in Hc. }
    reflexivity.
Qed.

Lemma count_occ_take_le (l : list N) n x :
  (count_occ N.eq_dec (take n l) x <= count_occ N.eq_dec l x)%nat.
Proof.
  rewrite <- (take_drop n l) at 2. rewrite count_occ_app. lia.
Qed.

Section EditorProperties.

Context {Value Num : Type} (num_zero : Num).
Context (unicode_L unicode_N : char -> bool).
Context (math_evaluate :
           jstring -> gmap jstring (unknown Value) ->
           gmap jstring (unknown Value) * completion (unknown Value)).
Context (math_typeOf : unknown Value -> jstring).
Context (math_format : unknown Value -> jstring).
Context (math_number : unknown Value -> completion Num).
Context {Height : Type} (measure : jstring -> Height).
Context (height_falsy : Height -> bool) (height_22 : Height).

#[local] Abbreviation calc :=
  (calculate Value Num num_zero unicode_L unicode_N
     math_evaluate math_typeOf math_format math_number).
#[local] Abbreviation recalc :=
  (recalculate Value Num num_zero unicode_L unicode_N
     math_evaluate math_typeOf math_format math_number Height measure height_falsy height_22).
#[local] Abbreviation exported :=
  (exportText Value Num num_zero unicode_L unicode_N
     math_evaluate math_typeOf math_format math_number).

Lemma calculate_length text :
  length (lines (calc text)) = S (count_occ N.eq_dec text newline).
Proof.
  unfold calculate. cbn [lines].
  destruct (run_lines_results num_zero unicode_L unicode_N math_evaluate math_typeOf
              math_format math_number (initial_state Value Num) (JS.split newline text))
    as (rs & Hrs & Hlen).
  rewrite Hrs. cbn [results initial_state app]. by rewrite Hlen, split_length.
Qed.

(** X15. The line of the cursor is the number of newlines among the code
    units before it, and it is always the index of a result of the
    document: at least 0, less than the number of results; at the end of
    the text it is the last line. *)
Theorem getActiveLine_in_range (text : jstring) (pos : nat) :
  getActiveLine text pos
  = Z.of_nat (count_occ N.eq_dec (take pos (utf16 text)) newline)
  /\ (0 <= getActiveLine text pos < Z.of_nat (length (lines (calc text))))%Z
  /\ ((length (utf16 text) <= pos)%nat ->
      getActiveLine text pos = (Z.of_nat (length (lines (calc text))) - 1)%Z).
Proof.
  assert (Hactive : getActiveLine text pos
                    = Z.of_nat (count_occ N.eq_dec (take pos (utf16 text)) newline)).
  { unfold getActiveLine. rewrite split_length. lia. }
  pose proof (count_occ_take_le (utf16 text) pos newline) as Hle.
  rewrite count_newline_utf16 in Hle.
  split; [exact Hactive|]. rewrite Hactive, calculate_length. split; [lia|].
  intros Hpos. rewrite take_ge by done. rewrite count_newline_utf16. lia.
Qed.

Lemma getActiveLine_in_range_aux (text : jstring) (pos : nat) :
  exists a, getActiveLine text pos = Z.of_nat a
            /\ (a < S (count_occ N.eq_dec text newline))%nat.
Proof.
  exists (count_occ N.eq_dec (take pos (utf16 text)) newline). split.
  - unfold getActiveLine. rewrite split_length. lia.
  - pose proof (count_occ_take_le (utf16 text) pos newline) as Hle.
    rewrite count_newline_utf16 in Hle. lia.
Qed.

Lemma map_display_lookup (rs : list (LineResult Num)) i r :
  rs !! i = Some r -> map display rs !! i = Some (display r).
Proof. intros Hr. change (map display rs) with (display <$> rs). by rewrite list_lookup_fmap, Hr. Qed.

(** X16. A recalculation renders as many line numbers as outputs, one
    of each per line of the text, and marks as active exactly the two at
    the line of the cursor, which is one of them. *)
Theorem recalculate_rows_aligned (st : EditorState Num) :
  length (recalc st).2.1 = length (recalc st).2.2
  /\ length (recalc st).2.2 = length (JS.split newline (value st))
  /\ exists a,
       activeLine (recalc st).1 = Z.of_nat a
       /\ (a < length (recalc st).2.2)%nat
       /\ (forall i span, (recalc st).2.1 !! i = Some span ->
                          span_active span = bool_decide (i = a))
       /\ (forall i div, (recalc st).2.2 !! i = Some div ->
                         div_active div = bool_decide (i = a)).
Proof.
  assert (Hspans : length (recalc st).2.1 = length (JS.split newline (value st))).
  { unfold recalculate, renderLineNumbers, measureLineHeights. cbn [fst snd].
    by rewrite length_imap, length_map. }
  assert (Hdivs : length (recalc st).2.2 = length (JS.split newline (value st))).
  { unfold recalculate, renderOutput. cbn [fst snd].
    by rewrite length_imap, calculate_length, split_length. }
  split; [by rewrite Hspans, Hdivs|]. split; [exact Hdivs|].
  destruct (getActiveLine_in_range_aux (value st) (selectionStart st)) as (a & Ha & Hlt).
  exists a. split; [exact Ha|]. split; [by rewrite Hdivs, split_length|].
  unfold recalculate. cbn [fst snd]. rewrite Ha. split.
  - intros i span. unfold renderLineNumbers.
    intros (h & _ & ->)%list_lookup_imap_Some. cbn [span_active].
    apply bool_decide_ext. lia.
  - intros i div. unfold renderOutput.
    intros (line & _ & ->)%list_lookup_imap_Some.
    destruct (error line); [cbn [div_active]; apply bool_decide_ext; lia|].
    destruct (display line); cbn [div_active]; apply bool_decide_ext; lia.
Qed.

(** X17. A recalculation marks a result as changed when its raw string
    differs from the one rendered at that index before: recalculating a
    text that has not changed marks nothing, and after a switch of tab,
    which empties the previous results, every result shown is marked. *)
Theorem recalculate_marks_changes (st : EditorState Num) :
  (forall div, In div (recalc (recalc st).1).2.2 -> ~ In (str "changed") (div_class div))
  /\ (previousResults st = [] ->
      forall div, In div (recalc st).2.2 ->
                  In (str "has-result") (div_class div) -> In (str "changed") (div_class div)).
Proof.
  split.
  - intros div Hin. apply list_elem_of_In, list_elem_of_lookup in Hin as [i Hi].
    unfold recalculate in Hi. cbn [fst snd value previousResults] in Hi.
    unfold renderOutput in Hi. apply list_lookup_imap_Some in Hi as (line & Hline & ->).
    destruct (error line).
    + cbn [div_class]. intros [H|[]]. discriminate H.
    + destruct (display line) as [shown|] eqn:Hshown; [|by intros []].
      cbn [div_class]. rewrite bool_decide_eq_false_2.
      * intros [H|[]]. discriminate H.
      * intros Hne. apply Hne. rewrite (map_display_lookup _ _ _ Hline). by rewrite Hshown.
  - intros Hprev div Hin. apply list_elem_of_In, list_elem_of_lookup in Hin as [i Hi].
    unfold recalculate in Hi. cbn [fst snd] in Hi. rewrite Hprev in Hi.
    unfold renderOutput in Hi. apply list_lookup_imap_Some in Hi as (line & Hline & ->).
    destruct (error line).
    + cbn [div_class]. intros [H|[]]. discriminate H.
    + destruct (display line) as [shown|]; [|by intros []].
      cbn [div_class]. rewrite bool_decide_eq_true_2 by done. intros _. right. by left.
Qed.

(** *** The export *)

Lemma concat_split_lines text :
  concat (map (fun line => line ++ [newline]) (JS.split newline text)) = text ++ [newline].
Proof.
  induction text as [|c s IH]; [reflexivity|]. cbn [JS.split].
  destruct (N.eqb_spec c newline) as [->|Hne].
  - cbn [map concat app]. by rewrite IH.
  - destruct (JS.split newline s) as [|cur rest]; [by destruct s|].
    cbn [map concat app] in IH |- *. by rewrite <- IH, <- app_assoc.
Qed.

Lemma split_pieces_free sep s :
  Forall (fun piece => ~ In sep piece) (JS.split sep s).
Proof.
  induction s as [|c s IH].
  - constructor; [by intros []|constructor].
  - cbn [JS.split]. destruct (N.eqb_spec c sep) as [->|Hne].
    + constructor; [by intros []|exact IH].
    + destruct (JS.split sep s) as [|cur rest].
      * constructor; [by intros [?|[]]|constructor].
      * inversion IH as [|? ? Hcur Hrest]; subst. constructor; [|done].
        intros [H|H]; [by subst|done].
Qed.

Lemma split_rows (rows : list jstring) :
  Forall (fun row => ~ In newline row) rows ->
  JS.split newline (concat (map (fun row => row ++ [newline]) rows)) = rows ++ [[]].
Proof.
  induction rows as [|row rows IH]; [reflexivity|]. intros Hrows.
  inversion Hrows as [|? ? Hrow Hrest]; subst.
  cbn [map concat app]. rewrite <- app_assoc. cbn [app].
  by rewrite (split_at_first newline row _ Hrow), (IH Hrest).
Qed.

(** What [exportText] writes after the text of a line. *)
Definition annotation (val : option jstring) : jstring :=
  match val with
  | Some shown => str "  " ++ [8594%N] ++ str "  " ++ formatNumber shown
  | None => []
  end.

Lemma export_output_rows text (result : CalcResult Num) :
  export_output Num text result
  = concat (map (fun row => row ++ [newline])
              (imap (fun i line => line ++ annotation (lines result !! i ≫= display))
                 (JS.split newline text))).
Proof.
  unfold export_output. f_equal. change (map ?f ?l) with (f <$> l). rewrite fmap_imap.
  apply imap_ext. intros i line _. unfold export_row, annotation. cbn [compose].
  destruct (lines result !! i ≫= display); by rewrite <- ?app_assoc, ?app_nil_r.
Qed.

(** X18. The export keeps the text, line by line: when no result has a
    display, or none is there, it is the text with a newline at its end;
    in general, as long as no formatted result holds a newline, its lines
    are those of the text, each followed by its arrow and formatted
    result when it has one, and an empty last line. *)
Theorem export_keeps_lines (text : jstring) (result : CalcResult Num) :
  ((forall r, In r (lines result) -> display r = None) ->
   export_output Num text result = text ++ [newline])
  /\ ((forall r shown, In r (lines result) -> display r = Some shown ->
                       ~ In newline (formatNumber shown)) ->
      JS.split newline (export_output Num text result)
      = imap (fun i line => line ++ annotation (lines result !! i ≫= display))
          (JS.split newline text) ++ [[]]).
Proof.
  split.
  - intros Hnone. rewrite export_output_rows, <- concat_split_lines. f_equal. f_equal.
    transitivity (id <$> JS.split newline text); [|apply list_fmap_id].
    rewrite <- imap_const. apply imap_ext. intros i line _. cbn [const id].
    destruct (lines result !! i) as [r|] eqn:Hr; [|by rewrite app_nil_r].
    cbn [mbind option_bind]. rewrite (Hnone r); [by rewrite app_nil_r|].
    by apply list_elem_of_In, (list_elem_of_lookup_2 _ i).
  - intros Hfree. rewrite export_output_rows. apply split_rows.
    apply Forall_forall. intros row Hrow.
    apply list_elem_of_lookup in Hrow as [i Hi].
    apply list_lookup_imap_Some in Hi as (line & Hline & ->).
    pose proof (split_pieces_free newline text) as Hpieces.
    rewrite Forall_forall in Hpieces.
    specialize (Hpieces line (list_elem_of_lookup_2 _ _ _ Hline)).
    rewrite in_app_iff. intros [H|H]; [done|].
    destruct (lines result !! i) as [r|] eqn:Hr; [|done]. cbn [mbind option_bind] in H.
    destruct (display r) as [shown|] eqn:Hshown; [|done].
    unfold annotation in H. rewrite !in_app_iff in H.
    destruct H as [H|[H|[H|H]]].
    + vm_compute in H. repeat (destruct H as [H|H]; [discriminate H|]). destruct H.
    + vm_compute in H. repeat (destruct H as [H|H]; [discriminate H|]). destruct H.
    + vm_compute in H. repeat (destruct H as [H|H]; [discriminate H|]). destruct H.
    + apply (Hfree r shown); [|done|done].
      by apply list_elem_of_In, (list_elem_of_lookup_2 _ i).
Qed.

(** X29. The rows of a recalculation take their heights from the
    measurement of the lines: a line number is as high as its line was
    measured (the empty line as a no-break space), and the output beside
    it is as high, except where that height is falsy: there the output is
    22 high and the line number is not. *)
Theorem recalculate_row_heights (st : EditorState Num) (i : nat)
    (span : LineNumberSpan Height) (div : OutputDiv Height) :
  (recalc st).2.1 !! i = Some span ->
  (recalc st).2.2 !! i = Some div ->
  (exists raw,
     JS.split newline (value st) !! i = Some raw
     /\ span_height span = measure (match raw with [] => [160%N] | _ :: _ => raw end))
  /\ div_height div
     = if height_falsy (span_height span) then height_22 else span_height span.
Proof.
  unfold recalculate. cbn [fst snd]. unfold renderLineNumbers, renderOutput.
  intros (h & Hh & ->)%list_lookup_imap_Some (line & Hline & ->)%list_lookup_imap_Some.
  cbn [span_height]. split.
  - unfold measureLineHeights in Hh. change (map ?f ?l) with (f <$> l) in Hh.
    apply list_lookup_fmap_Some in Hh as (raw & -> & Hraw). by exists raw.
  - rewrite Hh. destruct (error line); [done|]. by destruct (display line).
Qed.


End EditorProperties.

(** ** The tabs *)

Module TabsProperties.

Import Tabs.

(** The active identifier is the identifier of one of the tabs. *)
Definition has_active (st : TabState) : Prop :=
  exists t, In t (tabs st) /\ id t = activeId st.

(** The storage item and the tab bar show the state. *)
Definition synced (stringify : TabState -> jstring) (w : World) : Prop :=
  stored w = Some (stringify (state w)) /\ bar w = renderTabs (state w).

Lemma active_found st : has_active st -> exists t, active st = Some t /\ id t = activeId st.
Proof.
  intros (t & Hin & Hid). unfold active.
  destruct (List.find _ (tabs st)) as [t'|] eqn:Hfind.
  - apply find_some in Hfind as [_ Hb]. apply bool_decide_eq_true in Hb. by exists t'.
  - exfalso. pose proof (find_none _ _ Hfind t Hin) as Hb. cbn beta in Hb.
    by rewrite bool_decide_eq_true_2 in Hb.
Qed.

Lemma active_has st t : active st = Some t -> has_active st.
Proof.
  unfold active. intros [Hin Hb]%find_some. apply bool_decide_eq_true in Hb. by exists t.
Qed.

Lemma call_switch_done w :
  has_active (state w) ->
  exists t, active (state w) = Some t /\ id t = activeId (state w)
            /\ call_switch w = Done {| state := state w; stored := stored w; bar := bar w;
                                       switched := switched w ++ [content t] |}.
Proof.
  intros (t & Hactive & Hid)%active_found. exists t. unfold call_switch. by rewrite Hactive.
Qed.

Lemma findIndex_Some wanted ts idx :
  findIndex wanted ts = Some idx ->
  exists t, ts !! idx = Some t /\ id t = wanted
            /\ forall j t', (j < idx)%nat -> ts !! j = Some t' -> id t' <> wanted.
Proof.
  revert idx. induction ts as [|t ts IH]; intros idx; [discriminate|].
  cbn [findIndex]. case_bool_decide as Hid.
  - intros [= <-]. exists t. split; [done|]. split; [done|]. intros j t' Hj. lia.
  - destruct (findIndex wanted ts) as [k|]; [|discriminate]. cbn. intros [= <-].
    destruct (IH k eq_refl) as (r & Hr & Hrid & Hbefore). exists r.
    split; [done|]. split; [done|]. intros [|j] t' Hj Ht'.
    + cbn in Ht'. by injection Ht' as <-.
    + cbn in Ht'. apply (Hbefore j t'); [lia|done].
Qed.

Lemma findIndex_None wanted ts :
  findIndex wanted ts = None -> forall t, In t ts -> id t <> wanted.
Proof.
  induction ts as [|t ts IH]; [by intros _ ? []|].
  cbn [findIndex]. case_bool_decide as Hid; [discriminate|].
  destruct (findIndex wanted ts) as [k|]; [discriminate|]. intros _ t' [<-|Hin]; [done|].
  by apply IH.
Qed.

Lemma In_delete (ts : list Tab) idx removed t :
  ts !! idx = Some removed -> In t ts -> t <> removed -> In t (delete idx ts).
Proof.
  revert idx. induction ts as [|x ts IH]; intros idx Hidx Hin Hne; [done|].
  destruct idx as [|idx]; cbn in Hidx |- *.
  - injection Hidx as ->. destruct Hin as [<-|Hin]; [done|exact Hin].
  - destruct Hin as [<-|Hin]; [by left|]. right. by apply (IH idx).
Qed.

Lemma set_content_found wanted new ts :
  (exists t, In t ts /\ id t = wanted) ->
  exists ts',
    set_content wanted new ts = Some ts'
    /\ map id ts' = map id ts /\ map title ts' = map title ts
    /\ exists t', List.find (fun t => bool_decide (id t = wanted)) ts' = Some t'
                  /\ content t' = new.
Proof.
  induction ts as [|x ts IH]; intros (t & Hin & Hid); [done|].
  cbn [set_content]. case_bool_decide as Hx.
  - eexists. split; [reflexivity|]. cbn [map id title]. split; [done|]. split; [done|].
    eexists. cbn [List.find id]. rewrite bool_decide_eq_true_2 by done. done.
  - destruct Hin as [->|Hin]; [done|].
    destruct IH as (ts' & Hset & Hids & Htitles & t' & Hfind & Hcontent); [by exists t|].
    rewrite Hset. exists (x :: ts'). split; [done|]. cbn [map]. rewrite Hids, Htitles.
    split; [done|]. split; [done|]. exists t'. cbn [List.find].
    by rewrite bool_decide_eq_false_2.
Qed.

Lemma set_content_other wanted new other ts ts' :
  set_content wanted new ts = Some ts' -> other <> wanted ->
  List.find (fun t => bool_decide (id t = other)) ts'
  = List.find (fun t => bool_decide (id t = other)) ts.
Proof.
  intros Hset Hother. revert ts' Hset. induction ts as [|x ts IH]; intros ts'; [discriminate|].
  cbn [set_content]. case_bool_decide as Hx.
  - intros [= <-]. cbn [List.find id]. by rewrite !bool_decide_eq_false_2 by congruence.
  - destruct (set_content wanted new ts) as [ts1|]; [|discriminate]. cbn. intros [= <-].
    cbn [List.find]. by rewrite (IH ts1 eq_refl).
Qed.

Lemma renderTabs_same ts ts' aid :
  map id ts' = map id ts -> map title ts' = map title ts ->
  renderTabs {| tabs := ts'; activeId := aid |} = renderTabs {| tabs := ts; activeId := aid |}.
Proof.
  intros Hids Htitles. unfold renderTabs. cbn [tabs activeId].
  assert (Hlen : length ts' = length ts)
    by (by rewrite <- (length_map id ts'), Hids, length_map).
  rewrite Hlen. clear Hlen. generalize (bool_decide (1 < length ts)%nat). intros close.
  revert ts' Hids Htitles.
  induction ts as [|t ts IH]; intros [|t' ts'] Hids Htitles; try discriminate; [done|].
  cbn [map] in *. injection Hids as Hid Hids. injection Htitles as Htitle Htitles.
  rewrite Hid, Htitle. f_equal. by apply IH.
Qed.

Lemma lookup_In (ts : list Tab) idx t : ts !! idx = Some t -> In t ts.
Proof.
  revert idx. induction ts as [|x ts IH]; intros [|idx] Hidx; try discriminate.
  - injection Hidx as ->. by left.
  - right. by apply (IH idx).
Qed.

Lemma has_active_ids st : has_active st <-> In (activeId st) (map id (tabs st)).
Proof.
  unfold has_active. rewrite in_map_iff. split; intros (t & H1 & H2); by exists t.
Qed.

Lemma findIndex_fresh fresh ts t :
  ~ In fresh (map id ts) -> id t = fresh -> findIndex fresh (ts ++ [t]) = Some (length ts).
Proof.
  intros Hfresh Hid. induction ts as [|x ts IH]; cbn [findIndex app length].
  - by rewrite bool_decide_eq_true_2.
  - cbn [map] in Hfresh. rewrite bool_decide_eq_false_2 by (intros Hx; apply Hfresh; by left).
    rewrite IH; [done|]. intros Hin. apply Hfresh. by right.
Qed.

Section TabOperations.

Variable stringify : TabState -> jstring.

Lemma saveTabContent_done new w :
  has_active (state w) ->
  exists ts',
    saveTabContent stringify new w
    = Done (persist stringify (with_state {| tabs := ts'; activeId := activeId (state w) |} w))
    /\ map id ts' = map id (tabs (state w)) /\ map title ts' = map title (tabs (state w))
    /\ (forall other, other <> activeId (state w) ->
          active {| tabs := ts'; activeId := other |}
          = active {| tabs := tabs (state w); activeId := other |})
    /\ exists t', active {| tabs := ts'; activeId := activeId (state w) |} = Some t'
                  /\ content t' = new.
Proof.
  intros Hactive.
  destruct (set_content_found (activeId (state w)) new (tabs (state w)) Hactive)
    as (ts' & Hset & Hids & Htitles & t' & Hfind & Hcontent).
  exists ts'. unfold saveTabContent. rewrite Hset.
  split; [done|]. split; [done|]. split; [done|]. split; [|by exists t'].
  intros other Hother. unfold active. cbn [tabs activeId].
  by apply (set_content_other (activeId (state w)) new).
Qed.

Lemma switchTab_done wanted w :
  In wanted (map id (tabs (state w))) -> wanted <> activeId (state w) ->
  exists t,
    active {| tabs := tabs (state w); activeId := wanted |} = Some t
    /\ switchTab stringify wanted w
       = Done {| state := {| tabs := tabs (state w); activeId := wanted |};
                 stored := Some (stringify {| tabs := tabs (state w); activeId := wanted |});
                 bar := renderTabs {| tabs := tabs (state w); activeId := wanted |};
                 switched := switched w ++ [content t] |}.
Proof.
  intros Hin Hother. unfold switchTab. rewrite bool_decide_eq_false_2 by done.
  set (w1 := render _).
  destruct (call_switch_done w1) as (t & Hactive & _ & Hcall).
  { apply has_active_ids. exact Hin. }
  exists t. split; [exact Hactive|]. exact Hcall.
Qed.

Lemma removeTab_done wanted w idx :
  has_active (state w) -> (1 < length (tabs (state w)))%nat ->
  findIndex wanted (tabs (state w)) = Some idx ->
  exists w',
    removeTab stringify wanted w = Done w'
    /\ tabs (state w') = delete idx (tabs (state w))
    /\ has_active (state w') /\ synced stringify w'
    /\ (activeId (state w) <> wanted ->
        activeId (state w') = activeId (state w) /\ switched w' = switched w)
    /\ (activeId (state w) = wanted ->
        exists t t',
          tabs (state w') !! Nat.min idx (length (tabs (state w')) - 1) = Some t
          /\ activeId (state w') = id t
          /\ active (state w') = Some t'
          /\ switched w' = switched w ++ [content t']).
Proof.
  intros Hactive Hlen Hidx. unfold removeTab.
  rewrite bool_decide_eq_false_2 by lia. rewrite Hidx.
  destruct (findIndex_Some _ _ _ Hidx) as (r & Hr & Hrid & _).
  assert (Hdel : length (delete idx (tabs (state w))) = (length (tabs (state w)) - 1)%nat)
    by (apply length_delete; by exists r).
  case_bool_decide as Hwas.
  - destruct (lookup_lt_is_Some_2 (delete idx (tabs (state w)))
                (Nat.min idx (length (delete idx (tabs (state w))) - 1))) as [t Ht]; [lia|].
    rewrite Ht. set (w1 := render _).
    destruct (call_switch_done w1) as (t' & Hact & _ & Hcall).
    { exists t. split; [|done]. by apply lookup_In in Ht. }
    rewrite Hcall. eexists. split; [reflexivity|]. cbn.
    split; [done|]. split; [by apply (active_has _ t')|]. split; [done|].
    split; [done|]. intros _. by exists t, t'.
  - eexists. split; [reflexivity|]. cbn. split; [done|]. split.
    + destruct Hactive as (t & Hin & Hid). exists t. split; [|done].
      apply (In_delete _ _ r); [done..|]. intros ->. congruence.
    + split; [done|]. split; [done|]. intros Heq. done.
Qed.

End TabOperations.


End TabsProperties.

Section TabsTheorems.

Import Tabs TabsProperties.

Variable stringify : TabState -> jstring.

(** X19 (tabs.ts, saveTabContent, switchTab, addTab, removeTab).  While the
    active identifier names one of the tabs, saving the content, adding a tab,
    removing any identifier and switching to the identifier of a tab all
    complete without an exception, and the active identifier names one of the
    tabs afterwards. *)
Theorem tab_operations_keep_an_active_tab (w : World) :
  has_active (state w) ->
  (forall new, exists w', saveTabContent stringify new w = Done w' /\ has_active (state w'))
  /\ (forall fresh, exists w', addTab stringify fresh w = Done w' /\ has_active (state w'))
  /\ (forall wanted,
        exists w', removeTab stringify wanted w = Done w' /\ has_active (state w'))
  /\ (forall wanted, In wanted (map id (tabs (state w))) ->
        exists w', switchTab stringify wanted w = Done w' /\ has_active (state w')).
Proof.
  intros Hactive. repeat split.
  - intros new.
    destruct (saveTabContent_done stringify new w Hactive) as (ts' & -> & Hids & _ & _).
    eexists. split; [reflexivity|]. cbn. apply has_active_ids. cbn. rewrite Hids.
    by apply has_active_ids.
  - intros fresh. eexists. split; [reflexivity|]. cbn. eexists. split.
    + apply in_or_app. right. by left.
    + reflexivity.
  - intros wanted.
    destruct (decide (length (tabs (state w)) <= 1)%nat) as [Hone|Hmore].
    { exists w. split; [|done]. unfold removeTab. by rewrite bool_decide_eq_true_2. }
    destruct (findIndex wanted (tabs (state w))) as [idx|] eqn:Hidx.
    + destruct (removeTab_done stringify wanted w idx Hactive ltac:(lia) Hidx)
        as (w' & Hdone & _ & Hactive' & _). by exists w'.
    + exists w. split; [|done]. unfold removeTab.
      rewrite bool_decide_eq_false_2 by done. by rewrite Hidx.
  - intros wanted Hin. destruct (decide (wanted = activeId (state w))) as [Hsame|Hother].
    + exists w. split; [|done]. unfold switchTab. by rewrite bool_decide_eq_true_2.
    + destruct (switchTab_done stringify wanted w Hin Hother) as (t & Hact & ->).
      eexists. split; [reflexivity|]. cbn. by apply (active_has _ t).
Qed.

(** X20 (tabs.ts, removeTab).  Removing leaves everything as it is when at
    most one tab is left or when no tab has the identifier: nothing is stored,
    drawn or shown. *)
Theorem removeTab_keeps_last_tab_and_unknown_id (wanted : jstring) (w : World) :
  (length (tabs (state w)) <= 1)%nat \/ ~ In wanted (map id (tabs (state w))) ->
  removeTab stringify wanted w = Done w.
Proof.
  intros Hcase. unfold removeTab. case_bool_decide as Hlen; [done|].
  destruct Hcase as [Hone|Hunknown]; [done|].
  destruct (findIndex wanted (tabs (state w))) as [idx|] eqn:Hidx; [|done].
  destruct (findIndex_Some _ _ _ Hidx) as (r & Hr & Hrid & _). exfalso. apply Hunknown.
  apply in_map_iff. exists r. split; [done|]. by apply lookup_In in Hr.
Qed.

(** X21 (tabs.ts, removeTab).  With more than one tab, removing an identifier
    that a tab has deletes the first tab with it and no other.  When that was
    not the active identifier, the active identifier stays and the editor is
    shown nothing; when it was, the tab now at the same position (the last one
    when the last was removed) becomes active, and the editor is shown the
    content of the active tab. *)
Theorem removeTab_removes_first_match (wanted : jstring) (w : World) :
  has_active (state w) ->
  (1 < length (tabs (state w)))%nat ->
  In wanted (map id (tabs (state w))) ->
  exists w' idx removed,
    removeTab stringify wanted w = Done w'
    /\ tabs (state w) !! idx = Some removed /\ id removed = wanted
    /\ (forall j t, (j < idx)%nat -> tabs (state w) !! j = Some t -> id t <> wanted)
    /\ tabs (state w') = delete idx (tabs (state w))
    /\ (activeId (state w) <> wanted ->
        activeId (state w') = activeId (state w) /\ switched w' = switched w)
    /\ (activeId (state w) = wanted ->
        exists t t',
          tabs (state w') !! Nat.min idx (length (tabs (state w')) - 1) = Some t
          /\ activeId (state w') = id t
          /\ active (state w') = Some t'
          /\ switched w' = switched w ++ [content t']).
Proof.
  intros Hactive Hlen Hin.
  destruct (findIndex wanted (tabs (state w))) as [idx|] eqn:Hidx.
  - destruct (findIndex_Some _ _ _ Hidx) as (r & Hr & Hrid & Hfirst).
    destruct (removeTab_done stringify wanted w idx Hactive Hlen Hidx)
      as (w' & Hdone & Htabs & _ & _ & Hkept & Hmoved).
    exists w', idx, r. repeat split; try done; by apply Hkept.
  - exfalso. apply in_map_iff in Hin as (t & Hid & Ht).
    by apply (findIndex_None _ _ Hidx t Ht).
Qed.

(** X22 (tabs.ts, persist, renderTabs and the four operations).  When the
    storage item holds the serialised state and the tab bar is the rendering
    of the state, they still are after every operation that completes. *)
Theorem tab_operations_keep_storage_and_bar (w : World) :
  has_active (state w) ->
  synced stringify w ->
  (forall new w', saveTabContent stringify new w = Done w' -> synced stringify w')
  /\ (forall fresh w', addTab stringify fresh w = Done w' -> synced stringify w')
  /\ (forall wanted w', removeTab stringify wanted w = Done w' -> synced stringify w')
  /\ (forall wanted w', switchTab stringify wanted w = Done w' -> synced stringify w').
Proof.
  intros Hactive [Hstored Hbar]. split; [|split; [|split]].
  - intros new w'.
    destruct (saveTabContent_done stringify new w Hactive) as (ts' & -> & Hids & Htitles & _).
    intros [= <-]. split; [done|]. cbn [bar persist with_state state]. rewrite Hbar.
    symmetry. destruct (state w) as [ts aid]. cbn [activeId tabs] in *.
    by apply renderTabs_same.
  - by intros fresh w' [= <-].
  - intros wanted w'. unfold removeTab. case_bool_decide as Hlen; [by intros [= <-]|].
    destruct (findIndex wanted (tabs (state w))) as [idx|] eqn:Hidx; [|by intros [= <-]].
    intros Hdone.
    destruct (removeTab_done stringify wanted w idx Hactive ltac:(lia) Hidx)
      as (w1 & Hdone1 & _ & _ & Hsynced & _).
    unfold removeTab in Hdone1. rewrite bool_decide_eq_false_2 in Hdone1 by done.
    rewrite Hidx in Hdone1. rewrite Hdone1 in Hdone. by injection Hdone as <-.
  - intros wanted w'. unfold switchTab. case_bool_decide as Hsame; [by intros [= <-]|].
    unfold call_switch. destruct (active _); [|discriminate]. by intros [= <-].
Qed.

(** X23 (tabs.ts, saveTabContent and switchTab).  Content saved in the active
    tab comes back: after saving, switching to another tab and switching back,
    the editor has been shown the content of the other tab (as it was before
    saving: saving does not touch it) and then exactly the saved content, and
    the first tab is active again. *)
Theorem saved_content_comes_back (c other : jstring) (w : World) :
  has_active (state w) ->
  In other (map id (tabs (state w))) ->
  other <> activeId (state w) ->
  exists w1 w2 w3 t,
    saveTabContent stringify c w = Done w1
    /\ switchTab stringify other w1 = Done w2
    /\ switchTab stringify (activeId (state w)) w2 = Done w3
    /\ active {| tabs := tabs (state w); activeId := other |} = Some t
    /\ id t = other
    /\ switched w3 = switched w ++ [content t; c]
    /\ activeId (state w3) = activeId (state w).
Proof.
  intros Hactive Hin Hother.
  destruct (saveTabContent_done stringify c w Hactive)
    as (ts' & Hsave & Hids & _ & Hothers & t' & Hact & Hc).
  set (w1 := persist _ _) in Hsave.
  destruct (switchTab_done stringify other w1) as (t2 & Hact2 & Hsw2).
  { cbn. by rewrite Hids. }
  { exact Hother. }
  set (w2 := Build_World _ _ _ _) in Hsw2.
  destruct (switchTab_done stringify (activeId (state w)) w2) as (t3 & Hact3 & Hsw3).
  { cbn. rewrite Hids. by apply has_active_ids. }
  { cbn. congruence. }
  cbn [w2 w1 state tabs persist with_state] in Hact3. rewrite Hact in Hact3.
  injection Hact3 as <-.
  cbn [w1 state tabs persist with_state] in Hact2. rewrite (Hothers other Hother) in Hact2.
  eexists w1, w2, _, t2. split; [exact Hsave|]. split; [exact Hsw2|].
  split; [exact Hsw3|]. split; [exact Hact2|]. split.
  - apply active_has in Hact2 as Hhas. unfold active in Hact2.
    apply find_some in Hact2 as [_ Hb]. by apply bool_decide_eq_true in Hb.
  - cbn. rewrite <- app_assoc, Hc. done.
Qed.

(** X24 (tabs.ts, addTab and removeTab).  Adding a tab under an identifier no
    tab has, and removing it again, gives back the list of tabs; the last of
    them is then the active one. *)
Theorem addTab_then_removeTab (fresh : jstring) (w : World) :
  tabs (state w) <> [] ->
  ~ In fresh (map id (tabs (state w))) ->
  exists w1 w2 t,
    addTab stringify fresh w = Done w1
    /\ removeTab stringify fresh w1 = Done w2
    /\ tabs (state w2) = tabs (state w)
    /\ last (tabs (state w)) = Some t
    /\ activeId (state w2) = id t.
Proof.
  intros Hsome Hfresh.
  destruct (addTab stringify fresh w) as [w1|w1] eqn:Hadd; [|discriminate].
  injection Hadd as Hw1.
  assert (Htabs1 : exists tab, id tab = fresh /\ tabs (state w1) = tabs (state w) ++ [tab]
                               /\ activeId (state w1) = fresh).
  { subst w1. cbn. eexists. split; [|split]; [|reflexivity|reflexivity]. reflexivity. }
  destruct Htabs1 as (tab & Hid & Htabs1 & Haid1).
  destruct (removeTab_done stringify fresh w1 (length (tabs (state w))))
    as (w2 & Hdone & Htabs & _ & _ & _ & Hmoved).
  { exists tab. rewrite Htabs1, Haid1. split; [|done]. apply in_or_app. right. by left. }
  { rewrite Htabs1, length_app. cbn. destruct (tabs (state w)); [done|cbn; lia]. }
  { rewrite Htabs1. by apply findIndex_fresh. }
  destruct (Hmoved Haid1) as (t & _ & Ht & Haid2 & _).
  rewrite Htabs1, delete_middle, app_nil_r in Htabs. rewrite Htabs in Ht.
  exists w1, w2, t. split; [done|]. split; [done|]. split; [done|]. split; [|done].
  rewrite last_lookup, <- Nat.sub_1_r. rewrite <- Ht. f_equal. lia.
Qed.

(** X25 (tabs.ts, switchTab).  Switching to an identifier that no tab has
    stores it as the active identifier and then throws, at the content of the
    active tab, before the editor is shown anything. *)
Theorem switchTab_unknown_id (wanted : jstring) (w : World) :
  ~ In wanted (map id (tabs (state w))) ->
  wanted <> activeId (state w) ->
  exists w',
    switchTab stringify wanted w = Failed w'
    /\ state w' = {| tabs := tabs (state w); activeId := wanted |}
    /\ stored w' = Some (stringify (state w'))
    /\ switched w' = switched w.
Proof.
  intros Hunknown Hother. unfold switchTab. rewrite bool_decide_eq_false_2 by done.
  unfold call_switch. destruct (active _) as [t|] eqn:Hact.
  - exfalso. apply Hunknown. apply active_has in Hact. by apply has_active_ids in Hact.
  - eexists. split; [reflexivity|]. done.
Qed.


End TabsTheorems.

(** ** The theme *)

(** X26 (theme, setTheme and getTheme).  A theme that was set is the theme
    that is read afterwards, whatever the system prefers: both names written
    to the storage are names that reading recognises. *)
Theorem setTheme_then_getTheme (t : Theme.theme) (w : Theme.World) :
  Theme.getTheme (Theme.setTheme t w) = t
  /\ Theme.data_theme (Theme.setTheme t w) = Some (Theme.name t)
  /\ forall system,
       Theme.getTheme {| Theme.saved := Theme.saved (Theme.setTheme t w);
                         Theme.prefers_dark := system;
                         Theme.data_theme := Theme.data_theme (Theme.setTheme t w) |} = t.
Proof.
  split; [|split]; [by destruct t|done|by destruct t].
Qed.

(** X27 (theme, toggleTheme).  A toggle returns the theme other than the
    current one and makes it current; a second toggle gives the first theme
    back. *)
Theorem toggleTheme_flips (w : Theme.World) :
  (Theme.toggleTheme w).1 <> Theme.getTheme w
  /\ Theme.getTheme (Theme.toggleTheme w).2 = (Theme.toggleTheme w).1
  /\ (Theme.toggleTheme (Theme.toggleTheme w).2).1 = Theme.getTheme w.
Proof.
  unfold Theme.toggleTheme. cbn [fst snd].
  assert (Hset : forall t w0, Theme.getTheme (Theme.setTheme t w0) = t) by (by intros []).
  rewrite !Hset. by destruct (Theme.getTheme w).
Qed.

(** X28 (theme, getTheme and initTheme).  Without a stored theme, or with a
    stored string that is neither name, the theme is the system's preference.
    Initialising keeps the theme, shows it on the document, and fixes it:
    afterwards a change of the system's preference no longer changes the
    theme, and initialising again changes nothing. *)
Theorem initTheme_fixes_theme (w : Theme.World) :
  ((forall t, Theme.saved w <> Some (Theme.name t)) ->
   Theme.getTheme w = if Theme.prefers_dark w then Theme.dark else Theme.light)
  /\ Theme.getTheme (Theme.initTheme w) = Theme.getTheme w
  /\ Theme.data_theme (Theme.initTheme w) = Some (Theme.name (Theme.getTheme w))
  /\ Theme.initTheme (Theme.initTheme w) = Theme.initTheme w
  /\ forall system,
       Theme.getTheme {| Theme.saved := Theme.saved (Theme.initTheme w);
                         Theme.prefers_dark := system;
                         Theme.data_theme := Theme.data_theme (Theme.initTheme w) |}
       = Theme.getTheme w.
Proof.
  assert (Hset : forall t w0, Theme.getTheme (Theme.setTheme t w0) = t) by (by intros []).
  split; [|split; [|split; [|split]]].
  - intros Hnone. unfold Theme.getTheme. destruct (Theme.saved w) as [s|]; [|done].
    case_bool_decide as Hdark; [by destruct (Hnone Theme.dark); subst|].
    case_bool_decide as Hlight; [by destruct (Hnone Theme.light); subst|done].
  - apply Hset.
  - done.
  - unfold Theme.initTheme. by rewrite Hset.
  - intros system. unfold Theme.initTheme. by destruct (Theme.getTheme w).
Qed.

(** ** The further properties at the sample instances *)

Lemma replaceChineseVars_nothing_to_alias_witness :
  Sample.replaceVars [chr "2"; 215%N; chr "3"] fresh_mapping
  = ([chr "2"; 215%N; chr "3"], fresh_mapping).
Proof.
  apply (replaceChineseVars_nothing_to_alias Sample.letter is_digit).
  intros c Hin Hc.
  destruct Hin as [<-|[<-|[<-|[]]]]; [discriminate Hc|split; reflexivity|discriminate Hc].
Defined.

Lemma replaceChineseVars_gives_ascii_witness :
  hasUnicodeLetter
    (Sample.replaceVars ([25151; 31199]%N ++ str " * 2")
       (mapping _ _ (run_lines _ _ 0%N Sample.letter is_digit Sample.evaluate Sample.typeOf
                       Sample.format Sample.number Sample.start
                       [[27700; 30005]%N ++ str " = 200"]))).1
  = false.
Proof.
  apply (replaceChineseVars_gives_ascii 0%N Sample.letter is_digit Sample.evaluate
           Sample.typeOf Sample.format Sample.number).
  intros c Hin Hc. vm_compute in Hin.
  destruct Hin as [<-|[<-|Hin]]; [reflexivity|reflexivity|].
  repeat (destruct Hin as [<-|Hin]; [discriminate Hc|]). destruct Hin.
Defined.

Lemma calculate_result_shapes_witness :
  result_shape 0%N Sample.typeOf Sample.format Sample.number
    {| display := Some (str "2"); numeric := 2%N; error := false |}
  /\ result_shape 0%N Sample.typeOf Sample.format Sample.number
       {| display := None; numeric := 0%N; error := true |}.
Proof.
  split.
  - apply (calculate_result_shapes 0%N Sample.letter is_digit Sample.evaluate
             Sample.typeOf Sample.format Sample.number (str "1+1")).
    left. reflexivity.
  - apply (calculate_result_shapes 0%N Sample.letter is_digit Sample.evaluate
             Sample.typeOf Sample.format Sample.number (str "1+y")).
    left. reflexivity.
Defined.

Lemma process_line_ignores_padding_witness :
  Sample.process Sample.after_100 (str "  " ++ str "* 2" ++ str " ")
  = Sample.process Sample.after_100 (str "* 2").
Proof.
  apply (process_line_ignores_padding 0%N Sample.letter is_digit Sample.evaluate
           Sample.typeOf Sample.format Sample.number);
    reflexivity.
Defined.

Lemma getActiveLine_in_range_witness :
  getActiveLine (value SampleEditor.opened) 9
  = (Z.of_nat (length (lines (Sample.run (value SampleEditor.opened)))) - 1)%Z.
Proof.
  destruct (getActiveLine_in_range 0%N Sample.letter is_digit Sample.evaluate
              Sample.typeOf Sample.format Sample.number (value SampleEditor.opened) 9)
    as (_ & _ & Hend).
  apply Hend. vm_compute. lia.
Defined.

Lemma recalculate_rows_aligned_witness :
  exists a,
    activeLine (SampleEditor.recalc SampleEditor.opened).1 = Z.of_nat a
    /\ from_option (fun span => span_active span = bool_decide (2%nat = a)) False
         ((SampleEditor.recalc SampleEditor.opened).2.1 !! 2%nat).
Proof.
  destruct (recalculate_rows_aligned 0%N Sample.letter is_digit Sample.evaluate
              Sample.typeOf Sample.format Sample.number (fun line => length line)
              (Nat.eqb 0) 22%nat SampleEditor.opened)
    as (_ & _ & a & Ha & _ & Hspans & _).
  exists a. split; [exact Ha|].
  destruct ((SampleEditor.recalc SampleEditor.opened).2.1 !! 2%nat) as [span|] eqn:Hspan.
  - apply (Hspans 2%nat span). exact Hspan.
  - vm_compute in Hspan. discriminate Hspan.
Defined.

Lemma recalculate_marks_changes_witness :
  from_option (fun div => In (str "changed") (div_class div)) False
    ((SampleEditor.recalc SampleEditor.opened).2.2 !! 0%nat).
Proof.
  destruct (recalculate_marks_changes 0%N Sample.letter is_digit Sample.evaluate
              Sample.typeOf Sample.format Sample.number (fun line => length line)
              (Nat.eqb 0) 22%nat SampleEditor.opened)
    as [_ Hmarks].
  specialize (Hmarks eq_refl).
  destruct ((SampleEditor.recalc SampleEditor.opened).2.2 !! 0%nat) as [div|] eqn:Hdiv.
  - cbn [from_option]. apply Hmarks.
    + apply list_elem_of_In. apply (list_elem_of_lookup_2 _ 0%nat). exact Hdiv.
    + vm_compute in Hdiv. injection Hdiv as <-. vm_compute. left. reflexivity.
  - vm_compute in Hdiv. discriminate Hdiv.
Defined.

Lemma export_keeps_lines_witness :
  JS.split newline
    (export_output N (value SampleEditor.opened) (Sample.run (value SampleEditor.opened)))
  = [str "1+1" ++ str "  " ++ [8594%N] ++ str "  2"; []; str "x"; []].
Proof.
  destruct (export_keeps_lines (value SampleEditor.opened)
              (Sample.run (value SampleEditor.opened))) as [_ Hrows].
  rewrite Hrows; [reflexivity|].
  intros r shown Hin Hshown. vm_compute in Hin.
  destruct Hin as [<-|[<-|[<-|[]]]]; try discriminate Hshown.
  injection Hshown as <-. intros Hnewline. vm_compute in Hnewline.
  repeat (destruct Hnewline as [Hnewline|Hnewline]; [discriminate Hnewline|]).
  destruct Hnewline.
Defined.

Lemma tab_operations_keep_an_active_tab_witness :
  (exists w', Tabs.saveTabContent SampleTabs.stringify (str "1+2") SampleTabs.world = Tabs.Done w'
              /\ TabsProperties.has_active (Tabs.state w'))
  /\ (exists w', Tabs.switchTab SampleTabs.stringify (str "b") SampleTabs.world = Tabs.Done w'
                 /\ TabsProperties.has_active (Tabs.state w')).
Proof.
  destruct (tab_operations_keep_an_active_tab SampleTabs.stringify SampleTabs.world)
    as (Hsave & _ & _ & Hswitch).
  - exists SampleTabs.first_tab. split; [left; reflexivity|reflexivity].
  - split; [apply Hsave|]. apply Hswitch. right. left. reflexivity.
Defined.

Lemma removeTab_keeps_last_tab_and_unknown_id_witness :
  Tabs.removeTab SampleTabs.stringify (str "c") SampleTabs.world = Tabs.Done SampleTabs.world.
Proof.
  apply removeTab_keeps_last_tab_and_unknown_id. right.
  intros [H|[H|[]]]; discriminate H.
Defined.

Lemma removeTab_removes_first_match_witness :
  exists w' idx,
    Tabs.removeTab SampleTabs.stringify (str "a") SampleTabs.world = Tabs.Done w'
    /\ Tabs.tabs (Tabs.state w') = delete idx (Tabs.tabs SampleTabs.two_tabs)
    /\ exists t, Tabs.active (Tabs.state w') = Some t
                 /\ Tabs.switched w' = [Tabs.content t].
Proof.
  destruct (removeTab_removes_first_match SampleTabs.stringify (str "a") SampleTabs.world)
    as (w' & idx & removed & Hdone & _ & _ & _ & Htabs & _ & Hmoved).
  - exists SampleTabs.first_tab. split; [left; reflexivity|reflexivity].
  - cbn. lia.
  - left. reflexivity.
  - destruct (Hmoved eq_refl) as (t & t' & _ & _ & Hactive & Hshown).
    exists w', idx. split; [exact Hdone|]. split; [exact Htabs|]. by exists t'.
Defined.

Lemma tab_operations_keep_storage_and_bar_witness :
  exists w', Tabs.addTab SampleTabs.stringify (str "c") SampleTabs.world = Tabs.Done w'
             /\ TabsProperties.synced SampleTabs.stringify w'.
Proof.
  destruct (tab_operations_keep_storage_and_bar SampleTabs.stringify SampleTabs.world)
    as (_ & Hadd & _).
  - exists SampleTabs.first_tab. split; [left; reflexivity|reflexivity].
  - split; reflexivity.
  - eexists. split; [reflexivity|]. apply (Hadd (str "c")). reflexivity.
Defined.

Lemma saved_content_comes_back_witness :
  exists w1 w2 w3,
    Tabs.saveTabContent SampleTabs.stringify (str "1+2") SampleTabs.world = Tabs.Done w1
    /\ Tabs.switchTab SampleTabs.stringify (str "b") w1 = Tabs.Done w2
    /\ Tabs.switchTab SampleTabs.stringify (str "a") w2 = Tabs.Done w3
    /\ Tabs.switched w3 = [str "2*3"; str "1+2"]
    /\ Tabs.activeId (Tabs.state w3) = str "a".
Proof.
  destruct (saved_content_comes_back SampleTabs.stringify (str "1+2") (str "b")
              SampleTabs.world)
    as (w1 & w2 & w3 & t & Hsave & Haway & Hback & Hother & _ & Hshown & Hactive).
  - exists SampleTabs.first_tab. split; [left; reflexivity|reflexivity].
  - right. left. reflexivity.
  - discriminate.
  - exists w1, w2, w3. split; [exact Hsave|]. split; [exact Haway|].
    split; [exact Hback|]. split; [|exact Hactive].
    injection Hother as <-. exact Hshown.
Defined.

Lemma addTab_then_removeTab_witness :
  exists w1 w2 t,
    Tabs.addTab SampleTabs.stringify (str "c") SampleTabs.world = Tabs.Done w1
    /\ Tabs.removeTab SampleTabs.stringify (str "c") w1 = Tabs.Done w2
    /\ Tabs.tabs (Tabs.state w2) = [SampleTabs.first_tab; SampleTabs.second_tab]
    /\ last [SampleTabs.first_tab; SampleTabs.second_tab] = Some t
    /\ Tabs.activeId (Tabs.state w2) = Tabs.id t.
Proof.
  apply (addTab_then_removeTab SampleTabs.stringify (str "c") SampleTabs.world).
  - discriminate.
  - intros [H|[H|[]]]; discriminate H.
Defined.

Lemma switchTab_unknown_id_witness :
  exists w',
    Tabs.switchTab SampleTabs.stringify (str "c") SampleTabs.world = Tabs.Failed w'
    /\ Tabs.state w' = {| Tabs.tabs := [SampleTabs.first_tab; SampleTabs.second_tab];
                          Tabs.activeId := str "c" |}
    /\ Tabs.stored w' = Some (SampleTabs.stringify (Tabs.state w'))
    /\ Tabs.switched w' = [].
Proof.
  apply (switchTab_unknown_id SampleTabs.stringify (str "c") SampleTabs.world).
  - intros [H|[H|[]]]; discriminate H.
  - discriminate.
Defined.

Lemma initTheme_fixes_theme_witness :
  Theme.getTheme {| Theme.saved := Some (str "blue"); Theme.prefers_dark := true;
                    Theme.data_theme := None |} = Theme.dark.
Proof.
  destruct (initTheme_fixes_theme {| Theme.saved := Some (str "blue");
                                     Theme.prefers_dark := true;
                                     Theme.data_theme := None |}) as [Hsystem _].
  apply Hsystem. intros [] H; discriminate H.
Defined.

Lemma recalculate_row_heights_witness :
  exists span div,
    (SampleEditor.recalc_narrow SampleEditor.opened).2.1 !! 1%nat = Some span
    /\ (SampleEditor.recalc_narrow SampleEditor.opened).2.2 !! 1%nat = Some div
    /\ span_height span = 0%nat /\ div_height div = 22%nat.
Proof.
  destruct ((SampleEditor.recalc_narrow SampleEditor.opened).2.1 !! 1%nat)
    as [span|] eqn:Hspan; [|vm_compute in Hspan; discriminate Hspan].
  destruct ((SampleEditor.recalc_narrow SampleEditor.opened).2.2 !! 1%nat)
    as [div|] eqn:Hdiv; [|vm_compute in Hdiv; discriminate Hdiv].
  destruct (recalculate_row_heights 0%N Sample.letter is_digit Sample.evaluate
              Sample.typeOf Sample.format Sample.number
              (fun line => (length line - 1)%nat) (Nat.eqb 0) 22%nat
              SampleEditor.opened 1%nat span div Hspan Hdiv)
    as [(raw & Hraw & Hmeasured) Hheight].
  exists span, div. split; [reflexivity|]. split; [reflexivity|].
  vm_compute in Hraw. injection Hraw as <-. rewrite Hheight, Hmeasured.
  split; reflexivity.
Defined.
